(** * MCPJungle [export] command: target-directory resolution and export run

    A shallow embedding of [cmd/export.go].  Go strings are Rocq [string]s,
    the file system is a finite map from located paths to nodes, and the
    functions of the command thread a [world] (file system, standard output,
    journal of external calls) through a small state monad.

    The Go standard library functions the command calls ([strings.HasPrefix],
    [path/filepath] on Unix, [os.UserHomeDir], [os.MkdirAll], [os.ReadDir],
    [os.Mkdir], [os.WriteFile]) are modelled from their Go sources;
    [json.MarshalIndent], the entity types and the answer of [os.Getwd] are
    interfaces of the environment. *)

From stdpp Require Import base decidable option list strings gmap fin_maps.
From Stdlib Require Import Ascii.

(** ** Go strings *)

Module strings.

(** [strings.HasPrefix(s, prefix)]. *)
Definition HasPrefix (s prefix : string) : bool := String.prefix prefix s.

(** The slice expression [s[n:]]. *)
Fixpoint sliceFrom (s : string) (n : nat) : string :=
  match n, s with
  | 0, _ => s
  | S n', String _ s' => sliceFrom s' n'
  | S _, EmptyString => EmptyString
  end.

End strings.

(** ** [path/filepath] on Unix *)

Module filepath.

Definition Separator : ascii := "/"%char.

Definition IsPathSeparator (c : ascii) : bool := bool_decide (c = Separator).

(** [strings.Split(s, "/")]: the elements between separators; never empty. *)
Fixpoint splitSep (s : string) : list string :=
  match s with
  | EmptyString => [EmptyString]
  | String c s' =>
      if IsPathSeparator c then EmptyString :: splitSep s'
      else match splitSep s' with
           | e :: es => String c e :: es
           | [] => [String c EmptyString]
           end
  end.

(** [strings.Join(elems, "/")]. *)
Fixpoint joinSep (elems : list string) : string :=
  match elems with
  | [] => ""
  | [e] => e
  | e :: es => e +:+ "/" +:+ joinSep es
  end.

(** One turn of the loop of [Clean], on the path element [e].  [out] is the
    output buffer as the list of the elements written so far, last one first.
    The cases are those of the Go [switch]: an empty element and a [.] element
    are skipped; a [..] element removes the last element when the buffer can
    backtrack (Go: [out.w > dotdot], that is, the last element written is a
    name and not part of a leading [../..]), is appended when the path is not
    rooted, and is dropped at the root; a name is appended. *)
Definition cleanElem (rooted : bool) (out : list string) (e : string) : list string :=
  if decide (e = "") then out
  else if decide (e = ".") then out
  else if decide (e = "..") then
    match out with
    | top :: below =>
        if decide (top = "..") then (if rooted then out else ".." :: out)
        else below
    | [] => if rooted then [] else [".."]
    end
  else e :: out.

Definition cleanElems (rooted : bool) (out : list string) (elems : list string) : list string :=
  foldl (cleanElem rooted) out elems.

(** [filepath.IsAbs] on Unix. *)
Definition IsAbs (path : string) : bool := strings.HasPrefix path "/".

(** [filepath.Clean]: the shortest equivalent path, by purely lexical
    processing. *)
Definition Clean (path : string) : string :=
  if decide (path = "") then "."
  else
    let rooted := IsAbs path in
    let out := rev (cleanElems rooted [] (splitSep path)) in
    if rooted then "/" +:+ joinSep out
    else if decide (out = []) then "." else joinSep out.

(** [filepath.Join]: the elements from the first non-empty one on are joined
    with the separator and cleaned; all empty gives the empty string. *)
Fixpoint Join (elem : list string) : string :=
  match elem with
  | [] => ""
  | e :: es => if decide (e = "") then Join es else Clean (joinSep (e :: es))
  end.

(** Removes the trailing separators, as the first loop of [Base] does. *)
Fixpoint trimTrailingSep (s : string) : string :=
  match s with
  | EmptyString => EmptyString
  | String c s' =>
      match trimTrailingSep s' with
      | EmptyString => if IsPathSeparator c then EmptyString else String c EmptyString
      | t => String c t
      end
  end.

(** What follows the last separator of [s] (all of [s] without one). *)
Definition lastElem (s : string) : string := List.last (splitSep s) "".

(** [filepath.Base]: the last element of the path. *)
Definition Base (path : string) : string :=
  if decide (path = "") then "."
  else
    let path := lastElem (trimTrailingSep path) in
    if decide (path = "") then "/" else path.

End filepath.

(** ** Errors *)

Inductive Errno := ENOENT | EEXIST | ENOTDIR | EISDIR | EACCES | EIO | ENOSPC | EINVAL.

Global Instance Errno_eq_dec : EqDecision Errno.
Proof. solve_decision. Defined.

(** Go [error] values, as far as the command builds or meets them. *)
Inductive error :=
  | errorString (text : string)                         (* [errors.New], [fmt.Errorf] without [%w] *)
  | PathError (op path : string) (no : Errno)            (* [*fs.PathError] *)
  | SyscallError (call : string) (no : Errno)            (* [*os.SyscallError] *)
  | wrapError (text : string) (err : error).             (* [fmt.Errorf(text + "%w", err)] *)

Definition strerror (no : Errno) : string :=
  match no with
  | ENOENT => "no such file or directory"
  | EEXIST => "file exists"
  | ENOTDIR => "not a directory"
  | EISDIR => "is a directory"
  | EACCES => "permission denied"
  | EIO => "input/output error"
  | ENOSPC => "no space left on device"
  | EINVAL => "invalid argument"
  end.

(** The method [Error()]. *)
Fixpoint Error (err : error) : string :=
  match err with
  | errorString text => text
  | PathError op path no => op +:+ " " +:+ path +:+ ": " +:+ strerror no
  | SyscallError call no => call +:+ ": " +:+ strerror no
  | wrapError text err => text +:+ Error err
  end.

(** A Go result [(T, error)]. *)
Inductive result (T : Type) :=
  | Ok (v : T)
  | Err (err : error).
Arguments Ok {T} v.
Arguments Err {T} err.

(** ** Entities *)

(** The configuration types carry a [Name] field. *)
Class Named (A : Type) := Name : A → string.

(** [json.MarshalIndent(v, prefix, indent)] for the values of a type. *)
Class Marshaler (A : Type) := MarshalIndent : A → string → string → result string.

Inductive category := ToolGroup | McpServer.

(** ** The world of a run *)

(** A located path: the names from the root down to the node. *)
Abbreviation path := (list string).

Inductive node :=
  | Dir
  | File (data : string).

Inductive syscall :=
  | SysStat (p : path)
  | SysMkdir (p : path)
  | SysReadDir (p : path)
  | SysWriteFile (p : path).

Global Instance syscall_eq_dec : EqDecision syscall.
Proof. solve_decision. Defined.

(** What the journal of a run records: each call of the command on the file
    system tree ([Stat] and [Mkdir], also those inside [os.MkdirAll],
    [os.ReadDir], [os.WriteFile]) with its outcome, and each call of a listing
    operation of the API client.  The lookups of [os.UserHomeDir] and
    [os.Getwd], which ask for the environment and the working directory, are
    not journalled. *)
Inductive event :=
  | Sys (call : syscall) (failure : option Errno)
  | Fetch (c : category).

(** Where a call that works in steps fails when the system refuses it:
    [os.WriteFile] opens (creating or truncating the file), writes and closes;
    [os.ReadDir] opens and reads.  [AtWrite n]: the write fails after [n]
    bytes. *)
Inductive fault :=
  | AtOpen
  | AtWrite (n : nat)
  | AtClose.

(** What changes during a run. *)
Record world := World {
  fs : gmap path node;
  stdout : list string;
  journal : list event;
}.

(** What a run is given.  [refuse n call] is the answer of the operating
    system when the [n]-th external call of the run is [call] and the system
    refuses it for a reason outside the file-system map (permissions, I/O);
    [stage n] is the step at which such a refused call fails. *)
Record environ (G V : Type) := Environ {
  exportCmdTargetDir : string;          (* the global set by the flag [--dir] *)
  HOME : string;                        (* the environment variable; empty when unset *)
  getcwd : error + string;              (* what [os.Getwd] finds: its error, or the directory *)
  workdir : path;                       (* where the kernel resolves relative names *)
  refuse : nat → syscall → option Errno;
  stage : nat → fault;
  toolGroupConfigs : result (list G);   (* the answer of [apiClient.GetToolGroupConfigs] *)
  serverConfigs : result (list V);      (* the answer of [apiClient.GetServerConfigs] *)
}.
Arguments Environ {G V}.
Arguments exportCmdTargetDir {G V}.
Arguments HOME {G V}.
Arguments getcwd {G V}.
Arguments workdir {G V}.
Arguments refuse {G V}.
Arguments stage {G V}.
Arguments toolGroupConfigs {G V}.
Arguments serverConfigs {G V}.

(** The state monad of a run. *)
Definition M (A : Type) : Type := world → A * world.

Definition ret {A} (a : A) : M A := λ w, (a, w).

Definition bind {A B} (m : M A) (k : A → M B) : M B :=
  λ w, let (a, w') := m w in k a w'.

Notation "x <- m ;; k" := (bind m (λ x, k))
  (at level 100, m at next level, right associativity).
Notation "m ;;; k" := (bind m (λ _, k))
  (at level 100, right associativity).

Definition LF : string := String (ascii_of_nat 10) EmptyString.

(** [cmd.Printf] with the text already formatted. *)
Definition Printf (text : string) : M unit :=
  λ w, (tt, World (fs w) (stdout w ++ [text]) (journal w)).

(** [cmd.Println]. *)
Definition Println (text : string) : M unit := Printf (text +:+ LF).

(** ** The operating system *)

Module os.
Section os.
Context {G V : Type} (E : environ G V).

(** [os.UserHomeDir] on Unix. *)
Definition UserHomeDir : result string :=
  if decide (HOME E = "") then Err (errorString "$HOME is not defined")
  else Ok (HOME E).

(** [os.Getwd]: an absolute path, or an error: the [*PathError] of its [Stat]
    of [.], or the [*SyscallError] of [getwd], which also stands for an answer
    of the system that is not rooted. *)
Definition Getwd : result string :=
  match getcwd E with
  | inl err => Err err
  | inr dir => if filepath.IsAbs dir then Ok dir else Err (SyscallError "getwd" ENOENT)
  end.

(** Name resolution by the kernel, without symbolic links: a relative name
    starts from the working directory. *)
Definition locate (name : string) : path :=
  rev (filepath.cleanElems true
         (if filepath.IsAbs name then [] else rev (workdir E))
         (filepath.splitSep name)).

(** The node at a path; the root is a directory. *)
Definition lookupNode (m : gmap path node) (p : path) : option node :=
  match p with
  | [] => Some Dir
  | _ => m !! p
  end.

(** [entryName dir k] is the name under which [k] is an immediate entry of
    [dir]. *)
Fixpoint entryName (dir k : path) : option string :=
  match dir, k with
  | [], [name] => Some name
  | d :: dir', e :: k' => if decide (d = e) then entryName dir' k' else None
  | _, _ => None
  end.

Definition entries (m : gmap path node) (dir : path) : list string :=
  omap (entryName dir) (fst <$> map_to_list m).

(** The error of the kernel for a path that it does not find, walking down
    from [above]: [ENOTDIR] when a file is in the way, [ENOENT] when a name is
    missing. *)
Fixpoint walkError (m : gmap path node) (above names : path) : Errno :=
  match names with
  | [] => ENOENT
  | name :: rest =>
      match lookupNode m (above ++ [name]) with
      | Some Dir => walkError m (above ++ [name]) rest
      | Some (File _) => ENOTDIR
      | None => ENOENT
      end
  end.

Definition missing (m : gmap path node) (p : path) : Errno := walkError m [] p.

(** A system call: refused by the system, or else decided by the file-system
    map; journalled either way. *)
Definition perform {R} (call : syscall) (body : gmap path node → Errno + (R * gmap path node))
    : M (Errno + R) :=
  λ w,
    let outcome := match refuse E (length (journal w)) call with
                   | Some no => inl no
                   | None => body (fs w)
                   end in
    match outcome with
    | inl no => (inl no, World (fs w) (stdout w) (journal w ++ [Sys call (Some no)]))
    | inr (r, m) => (inr r, World m (stdout w) (journal w ++ [Sys call None]))
    end.

Definition stat (p : path) : M (Errno + node) :=
  perform (SysStat p) (λ m,
    match lookupNode m p with
    | Some n => inr (n, m)
    | None => inl (missing m p)
    end).

Definition mkdir (p : path) : M (Errno + unit) :=
  perform (SysMkdir p) (λ m,
    match lookupNode m p with
    | Some _ => inl EEXIST
    | None =>
        match lookupNode m (removelast p) with
        | Some Dir => inr (tt, <[p := Dir]> m)
        | Some (File _) => inl ENOTDIR
        | None => inl (missing m (removelast p))
        end
    end).

(** [os.ReadDir]'s work on the directory, journalled once: open it, read its
    entries.  The open fails when the system refuses it or when the path is
    missing; the read fails when the system refuses it, and with [ENOTDIR]
    when the path is a file. *)
Definition readdir (p : path) : M (string * Errno + list string) :=
  λ w,
    let failed (op : string) (no : Errno) : (string * Errno + list string) * world :=
      (inl (op, no), World (fs w) (stdout w) (journal w ++ [Sys (SysReadDir p) (Some no)])) in
    match refuse E (length (journal w)) (SysReadDir p), stage E (length (journal w)),
          lookupNode (fs w) p with
    | Some no, AtOpen, _ => failed "open" no
    | _, _, None => failed "open" (missing (fs w) p)
    | Some no, _, Some _ => failed "readdirent" no
    | None, _, Some (File _) => failed "readdirent" ENOTDIR
    | None, _, Some Dir =>
        (inr (entries (fs w) p),
         World (fs w) (stdout w) (journal w ++ [Sys (SysReadDir p) None]))
    end.

(** [os.WriteFile]'s work on the file, journalled once: open it with
    [O_WRONLY|O_CREATE|O_TRUNC], write the data, close.  The open fails when
    the system refuses it, when the path is a directory or when its directory
    is not there.  Once the open went through the file exists and is empty:
    a refusal at the write leaves the bytes written before it, a refusal at
    the close leaves the data. *)
Definition writefile (p : path) (data : string) : M (string * Errno + unit) :=
  λ w,
    let ended (m : gmap path node) (failure : option (string * Errno))
        : (string * Errno + unit) * world :=
      (match failure with Some e => inl e | None => inr tt end,
       World m (stdout w) (journal w ++ [Sys (SysWriteFile p) (snd <$> failure)])) in
    let opened : Errno + unit :=
      match lookupNode (fs w) p with
      | Some Dir => inl EISDIR
      | _ =>
          match lookupNode (fs w) (removelast p) with
          | Some Dir => inr tt
          | Some (File _) => inl ENOTDIR
          | None => inl (missing (fs w) (removelast p))
          end
      end in
    match refuse E (length (journal w)) (SysWriteFile p), stage E (length (journal w)),
          opened with
    | Some no, AtOpen, _ => ended (fs w) (Some ("open", no))
    | _, _, inl no => ended (fs w) (Some ("open", no))
    | Some no, AtWrite n, inr _ =>
        ended (<[p := File (String.substring 0 n data)]> (fs w)) (Some ("write", no))
    | Some no, AtClose, inr _ => ended (<[p := File data]> (fs w)) (Some ("close", no))
    | None, _, inr _ => ended (<[p := File data]> (fs w)) None
    end.

(** [os.MkdirAll] on the path whose names are [rp], last one first: done when
    the path is a directory; else the parent is made first, then the
    directory, and a failure of that [Mkdir] is forgiven when the directory is
    there after all.  A failure comes with the path that could not be made,
    which is the path itself or a directory above it. *)
Fixpoint mkdirAll (rp : path) : M (option (path * Errno)) :=
  st <- stat (rev rp) ;;
  match st with
  | inr Dir => ret None
  | inr (File _) => ret (Some (rev rp, ENOTDIR))
  | inl _ =>
      up <- match rp with
            | [] => ret None
            | _ :: rparent => mkdirAll rparent
            end ;;
      match up with
      | Some failure => ret (Some failure)
      | None =>
          made <- mkdir (rev rp) ;;
          match made with
          | inr _ => ret None
          | inl no =>
              again <- stat (rev rp) ;;
              match again with
              | inr Dir => ret None
              | _ => ret (Some (rev rp, no))
              end
          end
      end
  end.

(** The error of [os.MkdirAll] names the path that could not be made: the
    given name, or a directory above it as Go cuts it from the name, which for
    a cleaned absolute name (what the command passes) is the root followed by
    its names. *)
Definition MkdirAll (name : string) : M (option error) :=
  r <- mkdirAll (rev (locate name)) ;;
  match r with
  | None => ret None
  | Some (p, no) =>
      ret (Some (PathError "mkdir"
                   (if decide (p = locate name) then name else "/" +:+ filepath.joinSep p) no))
  end.

Definition Mkdir (name : string) : M (option error) :=
  r <- mkdir (locate name) ;;
  match r with
  | inr _ => ret None
  | inl no => ret (Some (PathError "mkdir" name no))
  end.

Definition ReadDir (name : string) : M (result (list string)) :=
  r <- readdir (locate name) ;;
  match r with
  | inr names => ret (Ok names)
  | inl (op, no) => ret (Err (PathError op name no))
  end.

Definition WriteFile (name : string) (data : string) : M (option error) :=
  r <- writefile (locate name) data ;;
  match r with
  | inr _ => ret None
  | inl (op, no) => ret (Some (PathError op name no))
  end.

End os.
End os.

(** [filepath.Abs] on Unix. *)
Definition Abs {G V} (E : environ G V) (path : string) : result string :=
  if filepath.IsAbs path then Ok (filepath.Clean path)
  else match os.Getwd E with
       | Err err => Err err
       | Ok wd => Ok (filepath.Join [wd; path])
       end.

(** ** The command *)

Definition defaultExportTargetDir : string := ".mcpjungle".
Definition exportMcpServersDir : string := "servers".
Definition exportToolGroupsDir : string := "groups".

Section export.
Context {G V : Type} `{Named G, Marshaler G, Named V, Marshaler V}.
Context (E : environ G V).

(** [resolveTargetDirForExport], up to the expansion of [~]. *)
Definition targetDirExpanded : result string :=
  let targetDir := exportCmdTargetDir E in
  let targetDir := if decide (targetDir = "") then defaultExportTargetDir else targetDir in
  if strings.HasPrefix targetDir "~" then
    match os.UserHomeDir E with
    | Err err => Err err
    | Ok home =>
        if decide (targetDir = "~") then Ok home
        else if strings.HasPrefix targetDir "~/" then
          Ok (filepath.Join [home; strings.sliceFrom targetDir 2])
        else Ok targetDir
    end
  else Ok targetDir.

(** [resolveTargetDirForExport], up to "make absolute and clean". *)
Definition targetDirCleaned : result string :=
  match targetDirExpanded with
  | Err err => Err err
  | Ok targetDir =>
      match Abs E targetDir with
      | Err err => Err err
      | Ok absDir => Ok (filepath.Clean absDir)
      end
  end.

Definition resolveTargetDirForExport : M (result string) :=
  match targetDirCleaned with
  | Err err => ret (Err err)
  | Ok targetDir =>
      made <- os.MkdirAll E targetDir ;;
      match made with
      | Some err => ret (Err err)
      | None =>
          listed <- os.ReadDir E targetDir ;;
          match listed with
          | Err err =>
              ret (Err (wrapError ("failed to read contents of target directory "
                                   +:+ targetDir +:+ ": ") err))
          | Ok entries =>
              if decide (0 < length entries) then
                ret (Err (errorString ("target directory " +:+ targetDir +:+ " is not empty")))
              else ret (Ok targetDir)
          end
      end
  end.

Definition writeJSONConfigFile {A} `{Marshaler A} (entityDir entityName : string) (entity : A)
    : M (option error) :=
  let filename := filepath.Join [entityDir; filepath.Base entityName +:+ ".json"] in
  match MarshalIndent entity "" "  " with
  | Err err =>
      ret (Some (wrapError ("failed to serialize entity " +:+ entityDir +:+ "/"
                            +:+ entityName +:+ ": ") err))
  | Ok data =>
      written <- os.WriteFile E filename data ;;
      match written with
      | Some err => ret (Some (wrapError ("failed to write entity file " +:+ filename +:+ ": ") err))
      | None => ret None
      end
  end.

(** The loop [for _, x := range xs] of [runExport], which returns at the first
    write that fails. *)
Fixpoint writeEach {A} `{Named A, Marshaler A} (entityDir : string) (xs : list A)
    : M (option error) :=
  match xs with
  | [] => ret None
  | x :: xs' =>
      failed <- writeJSONConfigFile entityDir (Name x) x ;;
      match failed with
      | Some err => ret (Some err)
      | None => writeEach entityDir xs'
      end
  end.

Definition GetToolGroupConfigs : M (result (list G)) :=
  λ w, (toolGroupConfigs E, World (fs w) (stdout w) (journal w ++ [Fetch ToolGroup])).

Definition GetServerConfigs : M (result (list V)) :=
  λ w, (serverConfigs E, World (fs w) (stdout w) (journal w ++ [Fetch McpServer])).

(** The part of [runExport] on the tool groups. *)
Definition exportToolGroups (groupsDir : string) : M (option error) :=
  Println "Fetching Tool Group configurations..." ;;;
  fetched <- GetToolGroupConfigs ;;
  match fetched with
  | Err gErr =>
      Printf ("warning: failed to fetch tool group configurations: " +:+ Error gErr +:+ LF) ;;;
      ret None
  | Ok groups =>
      if decide (length groups = 0) then
        Println "No Tool Groups found." ;;; ret None
      else
        Printf ("Writing Tool Groups configurations to " +:+ groupsDir +:+ LF) ;;;
        writeEach groupsDir groups
  end.

(** The part of [runExport] on the MCP servers. *)
Definition exportMcpServers (serversDir : string) : M (option error) :=
  Println "Fetching MCP Server configurations..." ;;;
  fetched <- GetServerConfigs ;;
  match fetched with
  | Err sErr =>
      Printf ("warning: failed to fetch mcp server configurations: " +:+ Error sErr) ;;;
      ret None
  | Ok servers =>
      if decide (length servers = 0) then
        Println "No MCP Servers found." ;;; ret None
      else
        Printf ("Writing MCP Server configurations to " +:+ serversDir +:+ LF) ;;;
        writeEach serversDir servers
  end.

(** [runExport], from the resolution of the target directory to the creation
    of the two subdirectories: their names, or the error that ends the run. *)
Definition prepareSubdirectories : M (result (string * string)) :=
  resolved <- resolveTargetDirForExport ;;
  match resolved with
  | Err err => ret (Err (wrapError "failed to resolve target directory for export: " err))
  | Ok targetDir =>
      Printf ("Creating subdirectories inside " +:+ targetDir +:+ LF +:+ LF) ;;;
      let groupsDir := filepath.Join [targetDir; exportToolGroupsDir] in
      made <- os.Mkdir E groupsDir ;;
      match made with
      | Some err => ret (Err (wrapError "failed to create groups directory: " err))
      | None =>
          let serversDir := filepath.Join [targetDir; exportMcpServersDir] in
          made <- os.Mkdir E serversDir ;;
          match made with
          | Some err => ret (Err (wrapError "failed to create mcp servers directory: " err))
          | None => ret (Ok (groupsDir, serversDir))
          end
      end
  end.

Definition runExport : M (option error) :=
  prepared <- prepareSubdirectories ;;
  match prepared with
  | Err err => ret (Some err)
  | Ok (groupsDir, serversDir) =>
      failed <- exportToolGroups groupsDir ;;
      match failed with
      | Some err => ret (Some err)
      | None =>
          failed <- exportMcpServers serversDir ;;
          match failed with
          | Some err => ret (Some err)
          | None => Println (LF +:+ "Export complete!") ;;; ret None
          end
      end
  end.

End export.

(** ** A sample configuration type, for the examples *)

Record sampleConfig := SampleConfig {
  sampleName : string;
  sampleDescription : string;
  sampleEncodable : bool;     (* [false]: a value that [encoding/json] rejects *)
}.

Global Instance sampleConfig_Named : Named sampleConfig := sampleName.

Definition quoted (s : string) : string :=
  String (ascii_of_nat 34) s +:+ String (ascii_of_nat 34) EmptyString.

Global Instance sampleConfig_Marshaler : Marshaler sampleConfig :=
  λ c prefix indent,
    if sampleEncodable c then
      Ok ("{" +:+ LF
          +:+ prefix +:+ indent +:+ quoted "name" +:+ ": " +:+ quoted (sampleName c) +:+ "," +:+ LF
          +:+ prefix +:+ indent +:+ quoted "description" +:+ ": "
          +:+ quoted (sampleDescription c) +:+ LF
          +:+ prefix +:+ "}")
    else Err (errorString "json: unsupported value").

(** The environment of the examples: the flag and [HOME] vary, the working
    directory is [/work], the system refuses nothing, the listings are
    given. *)
Definition sampleEnviron (flagDir home : string) (groups servers : result (list sampleConfig))
    : environ sampleConfig sampleConfig :=
  Environ flagDir home (inr "/work") ["work"] (λ _ _, None) (λ _, AtOpen) groups servers.

(** ** Vocabulary of the properties *)

(** Whether a string contains a separator. *)
Fixpoint hasSep (s : string) : bool :=
  match s with
  | EmptyString => false
  | String c s' => filepath.IsPathSeparator c || hasSep s'
  end.

(** A name of a directory entry: not empty, not [.] or [..], no separator. *)
Definition realName (e : string) : Prop :=
  e ≠ "" ∧ e ≠ "." ∧ e ≠ ".." ∧ hasSep e = false.

(** A lexically normalized absolute path: the root followed by names, one
    separator between two of them and none at the end. *)
Definition normalizedAbs (p : string) : Prop :=
  ∃ names, p = "/" +:+ filepath.joinSep names ∧ Forall realName names.

(** Every entry sits in a directory of the map (or in the root). *)
Definition fsWellFormed (m : gmap path node) : Prop :=
  ∀ k name, is_Some (m !! (k ++ [name])) → os.lookupNode m k = Some Dir.

(** From [m] to [m'] nothing is changed or removed, and what is new is a
    directory on the way from the root to [D]. *)
Definition onlyAddsDirs (D : path) (m m' : gmap path node) : Prop :=
  ∀ k, m' !! k = m !! k ∨ (m !! k = None ∧ m' !! k = Some Dir ∧ k `prefix_of` D).

(** The path a system call is about. *)
Definition target (call : syscall) : path :=
  match call with
  | SysStat p | SysMkdir p | SysReadDir p | SysWriteFile p => p
  end.

(** A journal entry that is a system call about [D] or a directory above it. *)
Definition sysWithin (D : path) (ev : event) : Prop :=
  match ev with
  | Sys call _ => target call `prefix_of` D
  | Fetch _ => False
  end.

(** What a step that only makes directories towards [D] may do to the world. *)
Definition dirStep (D : path) (w w' : world) : Prop :=
  stdout w' = stdout w ∧
  (∃ new, journal w' = journal w ++ new ∧ Forall (sysWithin D) new) ∧
  onlyAddsDirs D (fs w) (fs w') ∧
  (fsWellFormed (fs w) → fsWellFormed (fs w')).

(** The name of the file of an entity inside its subdirectory: what
    [filepath.Join] keeps of [filepath.Base(entityName) + ".json"]. *)
Definition leafName (entityName : string) : string :=
  if decide (filepath.Base entityName = "/") then ".json"
  else filepath.Base entityName +:+ ".json".

(** The bytes that [writeJSONConfigFile] asks [json.MarshalIndent] for. *)
Definition encoding {A} `{Marshaler A} (x : A) : result string := MarshalIndent x "" "  ".

Definition encoded {A} `{Marshaler A} (x : A) : string :=
  match encoding x with
  | Ok data => data
  | Err _ => ""
  end.

Definition encodable {A} `{Marshaler A} (x : A) : Prop := ∃ data, encoding x = Ok data.

(** The file of an entity in the directory located at [D]. *)
Definition entityFile {A} `{Named A} (D : path) (x : A) : path := D ++ [leafName (Name x)].

(** The map after the files of [xs] were written into [D], in this order. *)
Definition written {A} `{Named A, Marshaler A} (D : path) (m : gmap path node) (xs : list A)
    : gmap path node :=
  foldl (λ m x, <[entityFile D x := File (encoded x)]> m) m xs.

(** The journal entries of these writes. *)
Definition writeEvents {A} `{Named A} (D : path) (xs : list A) : list event :=
  (λ x, Sys (SysWriteFile (entityFile D x)) None) <$> xs.

(** A journal entry that is a write, refused or not, of an entry of [D]. *)
Definition writeWithin (D : path) (ev : event) : Prop :=
  match ev with
  | Sys (SysWriteFile p) _ => ∃ leaf, p = D ++ [leaf]
  | _ => False
  end.

(** The system refuses nothing. *)
Definition compliant {G V} (E : environ G V) : Prop := ∀ n call, refuse E n call = None.

(** The entities of a listing; none when the listing failed. *)
Definition listed {A} (r : result (list A)) : list A :=
  match r with
  | Ok xs => xs
  | Err _ => []
  end.

(** The world after the texts were printed and the event journalled. *)
Definition announced (texts : list string) (ev : event) (w : world) : world :=
  World (fs w) (stdout w ++ texts) (journal w ++ [ev]).

(** The world after the two subdirectories of the directory located at [T]
    were made and the text printed. *)
Definition prepared (T : path) (text : string) (w : world) : world :=
  World (<[T ++ [exportMcpServersDir] := Dir]> (<[T ++ [exportToolGroupsDir] := Dir]> (fs w)))
        (stdout w ++ [text])
        (journal w ++ [Sys (SysMkdir (T ++ [exportToolGroupsDir])) None;
                       Sys (SysMkdir (T ++ [exportMcpServersDir])) None]).

(** The warning of a listing that failed. *)
Definition warning (c : category) (err : error) : string :=
  match c with
  | ToolGroup => "warning: failed to fetch tool group configurations: " +:+ Error err +:+ LF
  | McpServer => "warning: failed to fetch mcp server configurations: " +:+ Error err
  end.

(** The world before anything happened, on an empty file system. *)
Definition emptyWorld : world := World ∅ [] [].

(** Sample entities. *)
Definition prodGroup : sampleConfig := SampleConfig "prod-group" "production tools" true.
Definition serverA : sampleConfig := SampleConfig "A" "first server" true.
Definition serverB : sampleConfig := SampleConfig "B" "second server" true.
Definition otherA : sampleConfig := SampleConfig "team/A" "shares its base with A" true.
Definition unencodable : sampleConfig := SampleConfig "C" "cannot be encoded" false.

(** A world in which [/t] holds one file. *)
Definition occupiedWorld : world :=
  World (<[["t"; "test.txt"] := File "test"]> (<[["t"] := Dir]> ∅)) [] [].

(** The sample environment, but the system refuses the call [denied] with
    [EACCES]. *)
Definition refusingEnviron (denied : syscall) (flagDir home : string)
    (groups servers : result (list sampleConfig)) : environ sampleConfig sampleConfig :=
  Environ flagDir home (inr "/work") ["work"]
    (λ _ call, if decide (call = denied) then Some EACCES else None) (λ _, AtOpen)
    groups servers.

(** A journal entry of the part of a run that follows the creation of the
    subdirectories: a listing call or a write. *)
Definition exportEvent (ev : event) : Prop :=
  match ev with
  | Fetch _ => True
  | Sys (SysWriteFile _) _ => True
  | Sys _ _ => False
  end.

(** The first text of a run that resolved its target directory. *)
Definition creatingLine (targetDir : string) : string :=
  "Creating subdirectories inside " +:+ targetDir +:+ LF +:+ LF.

(** What a run prints about a category after its listing call. *)
Definition groupsReport {A} (listing : result (list A)) (groupsDir : string) : string :=
  match listing with
  | Err gErr => warning ToolGroup gErr
  | Ok [] => "No Tool Groups found." +:+ LF
  | Ok _ => "Writing Tool Groups configurations to " +:+ groupsDir +:+ LF
  end.

Definition serversReport {A} (listing : result (list A)) (serversDir : string) : string :=
  match listing with
  | Err sErr => warning McpServer sErr
  | Ok [] => "No MCP Servers found." +:+ LF
  | Ok _ => "Writing MCP Server configurations to " +:+ serversDir +:+ LF
  end.

(** The last text of a run that returns no error. *)
Definition completionLine : string := LF +:+ "Export complete!" +:+ LF.

(** An environment without [HOME] and without a working directory that the
    system can report. *)
Definition strandedEnviron (flagDir : string) : environ sampleConfig sampleConfig :=
  Environ flagDir "" (inl (SyscallError "getwd" ENOENT)) [] (λ _ _, None) (λ _, AtOpen)
    (Ok []) (Ok []).

(** A world in which [/t] is a file. *)
Definition fileWorld : world := World (<[["t"] := File "x"]> ∅) [] [].

(** A world in which [/t] is an empty directory. *)
Definition emptyDirWorld : world := World (<[["t"] := Dir]> ∅) [] [].

(** The sample environment, but the system refuses every call on the path
    [locked] with [EACCES]. *)
Definition lockedEnviron (locked : path) (flagDir : string)
    : environ sampleConfig sampleConfig :=
  Environ flagDir "" (inr "/work") ["work"]
    (λ _ call, if decide (target call = locked) then Some EACCES else None) (λ _, AtOpen)
    (Ok []) (Ok []).

(** [init]: the flag [--dir] (short [-d]) stores its value in
    [exportCmdTargetDir]; when the flag is not given, the variable holds the
    default of the flag, [defaultExportTargetDir]. *)
Definition withDirFlag {G V} (given : option string) (E : environ G V) : environ G V :=
  Environ (default defaultExportTargetDir given) (HOME E) (getcwd E) (workdir E) (refuse E)
    (stage E) (toolGroupConfigs E) (serverConfigs E).

(** The sample environment, but the system refuses the [n]-th call of the run
    with [ENOSPC], at the step [at_]. *)
Definition failingEnviron (n : nat) (at_ : fault) (flagDir : string)
    (groups servers : result (list sampleConfig)) : environ sampleConfig sampleConfig :=
  Environ flagDir "" (inr "/work") ["work"]
    (λ i _, if decide (i = n) then Some ENOSPC else None) (λ _, at_) groups servers.

(** What a failed [os.WriteFile] leaves of the file at [p], by the step that
    failed: nothing changed when the open failed; the bytes written so far
    (the file was truncated at the open) when the write failed; the data when
    the close failed. *)
Definition leftBy (op : string) (p : path) (data : string) (m m' : gmap path node) : Prop :=
  (op = "open" ∧ m' = m) ∨
  (op = "write" ∧ ∃ n, m' = <[p := File (String.substring 0 n data)]> m) ∨
  (op = "close" ∧ m' = <[p := File data]> m).
(** Rows of the table of Go's own test of [Clean]. *)
Example Clean_table :
  map filepath.Clean
    ["abc"; "a/b/c"; "."; ".."; "../../abc"; "/abc"; "/"; ""; "abc/"; "./"; "../../";
     "/abc/"; "abc//def//ghi"; "abc/./def"; "/./abc/def"; "abc/def/ghi/../jkl";
     "abc/def/../.."; "/abc/def/../.."; "abc/def/../../.."; "/abc/def/../../..";
     "abc/def/../../../ghi/jkl/../../../mno"; "/../abc"; "a/../b:/../../c";
     "abc//./../def"; "abc/../../././../def"]
  = ["abc"; "a/b/c"; "."; ".."; "../../abc"; "/abc"; "/"; "."; "abc"; "."; "../..";
     "/abc"; "abc/def/ghi"; "abc/def"; "/abc/def"; "abc/def/jkl";
     "."; "/"; ".."; "/";
     "../../mno"; "/abc"; "../c";
     "def"; "../../def"].
Proof. reflexivity. Qed.

(** Rows of the tables of Go's own tests of [Base] and [Join]. *)
Example Base_table :
  map filepath.Base [""; "."; "/."; "/"; "////"; "x/"; "abc"; "abc/def"; "a/b/.x"; "a/b/c."; "a/b/c.x"]
  = ["."; "."; "."; "/"; "/"; "x"; "abc"; "def"; ".x"; "c."; "c.x"].
Proof. reflexivity. Qed.

Example Join_table :
  map filepath.Join [[]; [""]; ["/"]; ["a"]; ["a"; "b"]; ["a"; ""]; [""; "b"]; ["/"; "a"];
                     ["/"; "a/b"]; ["/"; ""]; ["/a"; "b"]; ["a"; "/b"]; ["a/"; "b"]; ["a/"; ""]; [""; ""]]
  = [""; ""; "/"; "a"; "a/b"; "a"; "b"; "/a"; "/a/b"; "/"; "/a/b"; "a/b"; "a/b"; "a"; ""].
Proof. reflexivity. Qed.

(** * Properties *)

(** ** Splitting and joining at separators *)

Import filepath.

Lemma splitSep_nonempty s : splitSep s ≠ [].
Proof.
  destruct s as [|c s]; simpl; [done|].
  destruct (IsPathSeparator c); [done|]. by destruct (splitSep s).
Qed.

Lemma splitSep_noSep s : hasSep s = false → splitSep s = [s].
Proof.
  induction s as [|c s IH]; simpl; [done|].
  intros [Hc Hs]%orb_false_elim. rewrite Hc, IH; done.
Qed.

Lemma splitSep_elems s : Forall (λ e, hasSep e = false) (splitSep s).
Proof.
  induction s as [|c s IH]; simpl; [by constructor|].
  destruct (IsPathSeparator c) eqn:Hc; [by constructor|].
  destruct (splitSep s) as [|e es]; inversion IH; subst;
    constructor; simpl; rewrite ?Hc; done.
Qed.

Lemma splitSep_app a b : splitSep (a +:+ String Separator b) = splitSep a ++ splitSep b.
Proof.
  induction a as [|c a IH]; simpl; [done|].
  rewrite IH. destruct (IsPathSeparator c); [done|].
  pose proof (splitSep_nonempty a). by destruct (splitSep a).
Qed.

Lemma joinSep_cons e l : l ≠ [] → joinSep (e :: l) = e +:+ String Separator (joinSep l).
Proof. by destruct l. Qed.

#[local] Arguments String.append !_ _ / : simpl nomatch.
Lemma joinSep_splitSep s : joinSep (splitSep s) = s.
Proof.
  induction s as [|c s IH]; simpl; [done|].
  pose proof (splitSep_nonempty s) as Hne.
  destruct (IsPathSeparator c) eqn:Hc.
  - apply bool_decide_eq_true in Hc as ->.
    rewrite joinSep_cons by done. simpl. by rewrite IH.
  - destruct (splitSep s) as [|e es]; [done|].
    destruct es; simpl in *; by rewrite <- IH.
Qed.

Lemma splitSep_joinSep l :
  l ≠ [] → Forall (λ e, hasSep e = false) l → splitSep (joinSep l) = l.
Proof.
  induction l as [|e l IH]; [done|]. intros _ Hl.
  inversion Hl as [|? ? He Hl']; subst.
  destruct l as [|e' l'].
  - simpl. by apply splitSep_noSep.
  - rewrite joinSep_cons by done. rewrite splitSep_app.
    rewrite IH by done. by rewrite splitSep_noSep.
Qed.

(** ** Cleaning *)

Lemma realName_noSep e : realName e → hasSep e = false.
Proof. by intros (_ & _ & _ & ?). Qed.

Lemma cleanElem_real r out e : realName e → cleanElem r out e = e :: out.
Proof.
  intros (? & ? & ? & _). unfold cleanElem. by repeat case_decide.
Qed.

Lemma cleanElems_real r out names :
  Forall realName names → cleanElems r out names = rev names ++ out.
Proof.
  unfold cleanElems. revert out.
  induction names as [|e names IH]; intros out Hn; simpl; [done|].
  inversion Hn; subst. rewrite cleanElem_real by done. rewrite IH by done.
  by rewrite <- app_assoc.
Qed.

Lemma cleanElems_app r out l1 l2 :
  cleanElems r out (l1 ++ l2) = cleanElems r (cleanElems r out l1) l2.
Proof. apply foldl_app. Qed.

Lemma cleanElem_rooted_real out e :
  Forall realName out → hasSep e = false → Forall realName (cleanElem true out e).
Proof.
  intros Hout He. unfold cleanElem. repeat case_decide; try done.
  - destruct out as [|top below]; [done|].
    case_decide; [done|]. by inversion Hout.
  - by constructor.
Qed.

Lemma cleanElems_rooted_real out elems :
  Forall realName out → Forall (λ e, hasSep e = false) elems →
  Forall realName (cleanElems true out elems).
Proof.
  unfold cleanElems. revert out.
  induction elems as [|e elems IH]; intros out Hout He; simpl; [done|].
  inversion He; subst. apply IH; [|done]. by apply cleanElem_rooted_real.
Qed.

Lemma IsAbs_String t : IsAbs (String Separator t) = true.
Proof.
  unfold IsAbs, strings.HasPrefix. cbn [String.prefix].
  destruct (ascii_dec "/" Separator); [by destruct t|done].
Qed.

Lemma Clean_rooted p :
  IsAbs p = true → Clean p = "/" +:+ joinSep (rev (cleanElems true [] (splitSep p))).
Proof.
  intros Hp. unfold Clean. rewrite Hp. case_decide; [by subst|done].
Qed.

Lemma Clean_normalizedAbs p : IsAbs p = true → normalizedAbs (Clean p).
Proof.
  intros Hp. rewrite Clean_rooted by done. eexists; split; [done|].
  apply Forall_rev, cleanElems_rooted_real; [done|apply splitSep_elems].
Qed.

Lemma normalizedAbs_IsAbs p : normalizedAbs p → IsAbs p = true.
Proof. intros (names & -> & _). apply IsAbs_String. Qed.

Lemma splitSep_normalized names :
  Forall realName names →
  cleanElems true [] (splitSep ("/" +:+ joinSep names)) = rev names.
Proof.
  intros Hn. change ("/" +:+ joinSep names) with ("" +:+ String Separator (joinSep names)).
  rewrite splitSep_app, cleanElems_app. simpl.
  destruct names as [|e names]; [done|].
  rewrite splitSep_joinSep; [|done|].
  - rewrite cleanElems_real by done. by rewrite app_nil_r.
  - eapply Forall_impl; [done|]. apply realName_noSep.
Qed.

Lemma Clean_fixes_normalizedAbs p : normalizedAbs p → Clean p = p.
Proof.
  intros (names & -> & Hn). rewrite Clean_rooted by apply IsAbs_String.
  rewrite splitSep_normalized by done. by rewrite rev_involutive.
Qed.

(** ** Prefixes *)

Lemma HasPrefix_empty s : strings.HasPrefix s "" = true.
Proof. by destruct s. Qed.

Lemma HasPrefix_String c s p :
  strings.HasPrefix (String c s) (String c p) = strings.HasPrefix s p.
Proof.
  unfold strings.HasPrefix. cbn [String.prefix].
  by destruct (ascii_dec c c).
Qed.

Lemma HasPrefix_String_ne c d s p :
  c ≠ d → strings.HasPrefix (String c s) (String d p) = false.
Proof.
  intros Hne. unfold strings.HasPrefix. cbn [String.prefix].
  by destruct (ascii_dec d c) as [->|].
Qed.

Lemma HasPrefix_inv s c p :
  strings.HasPrefix s (String c p) = true →
  ∃ s', s = String c s' ∧ strings.HasPrefix s' p = true.
Proof.
  destruct s as [|d s]; [done|].
  destruct (decide (d = c)) as [->|Hne].
  - rewrite HasPrefix_String. eauto.
  - by rewrite HasPrefix_String_ne.
Qed.

(** ** Elements that are kept by [Clean] *)

Lemma cleanElems_kept r out elems :
  Forall (λ e, e ≠ "" ∧ e ≠ ".") out →
  Forall (λ e, e ≠ "" ∧ e ≠ ".") (cleanElems r out elems).
Proof.
  unfold cleanElems. revert out.
  induction elems as [|e elems IH]; intros out Hout; simpl; [done|].
  apply IH. unfold cleanElem. repeat case_decide; try done.
  - destruct out as [|top below]; [by destruct r; repeat constructor|].
    case_decide; [destruct r; [done|by constructor]|by inversion Hout].
  - by constructor.
Qed.

Lemma cleanElems_noSep r out elems :
  Forall (λ e, hasSep e = false) out → Forall (λ e, hasSep e = false) elems →
  Forall (λ e, hasSep e = false) (cleanElems r out elems).
Proof.
  unfold cleanElems. revert out.
  induction elems as [|e elems IH]; intros out Hout He; simpl; [done|].
  inversion He; subst. apply IH; [|done].
  unfold cleanElem. repeat case_decide; try done.
  - destruct out as [|top below]; [by destruct r; repeat constructor|].
    case_decide; [destruct r; [done|by constructor]|by inversion Hout].
  - by constructor.
Qed.

Lemma cleanElem_skip r out e : e = "" ∨ e = "." → cleanElem r out e = out.
Proof. intros [-> | ->]; done. Qed.

Lemma cleanElem_name r out e : e ≠ "" → e ≠ "." → e ≠ ".." → cleanElem r out e = e :: out.
Proof. intros. unfold cleanElem. by repeat case_decide. Qed.

Lemma cleanElem_dotdot_pop r top below :
  top ≠ ".." → cleanElem r (top :: below) ".." = below.
Proof. intros. unfold cleanElem. simpl. by case_decide. Qed.

Lemma cleanElems_snoc r out elems e :
  cleanElems r out (elems ++ [e]) = cleanElem r (cleanElems r out elems) e.
Proof. by rewrite cleanElems_app. Qed.

(** The elements of a cleaned relative path act, on any buffer, as the
    elements of the path itself. *)
Lemma cleanElems_cleaned r out elems :
  cleanElems r out (rev (cleanElems false [] elems)) = cleanElems r out elems.
Proof.
  induction elems as [|e elems IH] using rev_ind; [done|].
  rewrite !cleanElems_snoc.
  pose proof (cleanElems_kept false [] elems (Forall_nil_2 _)) as Hkept.
  rewrite <- IH. clear IH.
  destruct (decide (e = "" ∨ e = ".")) as [Hskip|Hkeep].
  { by rewrite !cleanElem_skip. }
  destruct (decide (e = "..")) as [->|Hname].
  - destruct (cleanElems false [] elems) as [|top below]; [done|].
    destruct (decide (top = "..")) as [->|Htop].
    + change (cleanElem false (".." :: below) "..") with (".." :: ".." :: below).
      change (rev (".." :: ".." :: below)) with (rev (".." :: below) ++ [".."]).
      by rewrite cleanElems_snoc.
    + rewrite cleanElem_dotdot_pop by done.
      change (rev (top :: below)) with (rev below ++ [top]).
      rewrite cleanElems_snoc.
      inversion Hkept as [|? ? [Ht1 Ht2] _]; subst.
      rewrite (cleanElem_name r _ top) by done.
      by rewrite cleanElem_dotdot_pop.
  - rewrite (cleanElem_name false) by tauto.
    change (rev (e :: cleanElems false [] elems))
      with (rev (cleanElems false [] elems) ++ [e]).
    by rewrite cleanElems_snoc.
Qed.

(** ** Cleaning relative paths *)

Lemma IsAbs_append a b : a ≠ "" → IsAbs (a +:+ b) = IsAbs a.
Proof.
  destruct a as [|c a]; [done|]. intros _. simpl.
  destruct (decide (c = Separator)) as [->|Hc].
  - by rewrite !IsAbs_String.
  - unfold IsAbs. by rewrite !HasPrefix_String_ne.
Qed.

Lemma joinSep_IsAbs e l : e ≠ "" → hasSep e = false → IsAbs (joinSep (e :: l)) = false.
Proof.
  intros Hne He.
  assert (IsAbs e = false) as Habs.
  { destruct e as [|c e]; [done|]. simpl in He.
    apply orb_false_elim in He as [Hc _].
    unfold IsAbs. rewrite HasPrefix_String_ne; [done|].
    intros ->. by vm_compute in Hc. }
  destruct l as [|e' l]; [done|].
  rewrite joinSep_cons by done. by rewrite IsAbs_append.
Qed.

(** [Clean] keeps a relative path relative. *)
Lemma Clean_relative p : IsAbs p = false → IsAbs (Clean p) = false.
Proof.
  intros Hp. unfold Clean. case_decide; [done|]. rewrite Hp.
  case_decide; [done|].
  pose proof (cleanElems_kept false [] (splitSep p) (Forall_nil_2 _)) as Hk.
  pose proof (cleanElems_noSep false [] (splitSep p) (Forall_nil_2 _) (splitSep_elems p)) as Hs.
  apply Forall_rev in Hk, Hs.
  destruct (rev (cleanElems false [] (splitSep p))) as [|e l]; [done|].
  inversion Hk as [|? ? [? ?] _]; inversion Hs; subst.
  by apply joinSep_IsAbs.
Qed.

(** The elements of [Clean p], for a relative [p], act as those of [p]. *)
Lemma cleanElems_Clean r out p :
  p ≠ "" → IsAbs p = false →
  cleanElems r out (splitSep (Clean p)) = cleanElems r out (splitSep p).
Proof.
  intros Hne Hp. rewrite <- (cleanElems_cleaned r out (splitSep p)).
  unfold Clean. case_decide; [done|]. rewrite Hp.
  case_decide as Hout; [by rewrite Hout|].
  rewrite splitSep_joinSep; [done|done|].
  apply Forall_rev, cleanElems_noSep; [done|apply splitSep_elems].
Qed.

Lemma Clean_idempotent_abs p : IsAbs p = true → Clean (Clean p) = Clean p.
Proof. intros. by apply Clean_fixes_normalizedAbs, Clean_normalizedAbs. Qed.

(** Joining onto a directory does not see whether the element was cleaned
    before. *)
Lemma Clean_join_Clean d p :
  d ≠ "" → p ≠ "" → IsAbs p = false →
  Clean (d +:+ String Separator (Clean p)) = Clean (d +:+ String Separator p).
Proof.
  intros Hd Hne Hp.
  pose proof (cleanElems_Clean (IsAbs d) (cleanElems (IsAbs d) [] (splitSep d)) p Hne Hp) as Heq.
  revert Heq. generalize (Clean p). intros q Heq. unfold Clean.
  rewrite !(decide_False (P := _ +:+ _ = "")) by (by destruct d).
  rewrite !IsAbs_append by done. rewrite !splitSep_app, !cleanElems_app.
  by rewrite Heq.
Qed.

(** ** The path computed by [resolveTargetDirForExport] *)

Lemma Join_pair d x : d ≠ "" → Join [d; x] = Clean (d +:+ String Separator x).
Proof. intros Hd. cbn [Join joinSep]. by rewrite decide_False. Qed.

Lemma sliceFrom_0 s : strings.sliceFrom s 0 = s.
Proof. by destruct s. Qed.

#[local] Arguments Join : simpl never.
#[local] Arguments Clean : simpl never.

Section resolution_path.
Context {G V : Type} (E : environ G V).

Lemma Getwd_IsAbs wd : os.Getwd E = Ok wd → IsAbs wd = true.
Proof.
  unfold os.Getwd. destruct (getcwd E) as [no|dir]; [done|].
  destruct (IsAbs dir) eqn:Hdir; [|done]. by intros [= <-].
Qed.

Lemma Abs_IsAbs t absDir : Abs E t = Ok absDir → IsAbs absDir = true.
Proof.
  unfold Abs. destruct (IsAbs t) eqn:Ht.
  - intros [= <-]. by apply normalizedAbs_IsAbs, Clean_normalizedAbs.
  - destruct (os.Getwd E) as [wd|] eqn:Hwd; [|done]. intros [= <-].
    apply Getwd_IsAbs in Hwd.
    assert (wd ≠ "") by (by intros ->).
    rewrite Join_pair by done.
    apply normalizedAbs_IsAbs, Clean_normalizedAbs.
    by rewrite IsAbs_append.
Qed.

Lemma targetDirCleaned_normalizedAbs p : targetDirCleaned E = Ok p → normalizedAbs p.
Proof.
  unfold targetDirCleaned.
  destruct (targetDirExpanded E) as [t|]; [|done].
  destruct (Abs E t) as [absDir|] eqn:Habs; [|done]. intros [= <-].
  eapply Clean_normalizedAbs, Abs_IsAbs; done.
Qed.

(** The computation succeeds as soon as the home directory and the working
    directory can be determined. *)
Lemma targetDirCleaned_succeeds wd :
  HOME E ≠ "" → os.Getwd E = Ok wd → ∃ p, targetDirCleaned E = Ok p.
Proof.
  intros Hhome Hwd. unfold targetDirCleaned, targetDirExpanded, os.UserHomeDir, Abs.
  rewrite Hwd. rewrite (decide_False (P := HOME E = "")) by done.
  repeat (case_decide || case_match); simplify_eq; eauto.
Qed.

(** Cleaning before or after making absolute gives the same path. *)
Lemma Abs_Clean x :
  x ≠ "" →
  match Abs E (Clean x) with Ok absDir => Ok (Clean absDir) | Err err => Err err end
  = match Abs E x with Ok absDir => Ok (Clean absDir) | Err err => Err err end.
Proof.
  intros Hx. unfold Abs. destruct (IsAbs x) eqn:Habs.
  - rewrite (normalizedAbs_IsAbs (Clean x)) by (by apply Clean_normalizedAbs).
    by rewrite !(Clean_idempotent_abs x) by done.
  - rewrite Clean_relative by done.
    destruct (os.Getwd E) as [wd|] eqn:Hwd; [|done].
    apply Getwd_IsAbs in Hwd.
    assert (wd ≠ "") by (by intros ->).
    rewrite !Join_pair by done. by rewrite Clean_join_Clean.
Qed.

End resolution_path.

Lemma splitSep_normalizedAbs names :
  Forall realName names →
  splitSep ("/" +:+ joinSep names) = "" :: (if decide (names = []) then [""] else names).
Proof.
  intros Hn. change ("/" +:+ joinSep names) with ("" +:+ String Separator (joinSep names)).
  rewrite splitSep_app. simpl. f_equal. case_decide as Hnil; [by subst|].
  apply splitSep_joinSep; [done|]. eapply Forall_impl; [done|apply realName_noSep].
Qed.

(** A failed home lookup is fatal exactly for the inputs that start with [~]. *)
Lemma home_failure_fatal_iff {G V} (E : environ G V) :
  HOME E = "" →
  (targetDirExpanded E = Err (errorString "$HOME is not defined")
   ↔ strings.HasPrefix (exportCmdTargetDir E) "~" = true).
Proof.
  intros Hhome. unfold targetDirExpanded, os.UserHomeDir.
  rewrite (decide_True (P := HOME E = "")) by done.
  case_decide as Hempty; [by rewrite Hempty|].
  by destruct (strings.HasPrefix (exportCmdTargetDir E) "~").
Qed.

(** ** The file system *)

Lemma lookupNode_cons m k : k ≠ [] → os.lookupNode m k = m !! k.
Proof. by destruct k. Qed.

Lemma lookupNode_snoc m k name : os.lookupNode m (k ++ [name]) = m !! (k ++ [name]).
Proof. apply lookupNode_cons. by destruct k. Qed.

Lemma removelast_snoc {A} (l : list A) x : removelast (l ++ [x]) = l.
Proof. by rewrite removelast_app, app_nil_r. Qed.

Lemma snoc_ne {A} (l : list A) x : l ++ [x] ≠ l.
Proof.
  intros Heq. apply (f_equal length) in Heq. rewrite length_app in Heq. simpl in Heq. lia.
Qed.

Lemma lookupNode_is_Some_key m k : os.lookupNode m k = None → k ≠ [].
Proof. by destruct k. Qed.

Lemma entryName_snoc dir name : os.entryName dir (dir ++ [name]) = Some name.
Proof. induction dir as [|d dir IH]; simpl; [done|]. by rewrite decide_True. Qed.

Lemma entries_nil m dir name : os.entries m dir = [] → m !! (dir ++ [name]) = None.
Proof.
  intros Hnil. destruct (m !! (dir ++ [name])) as [n|] eqn:Hk; [|done].
  apply elem_of_map_to_list in Hk.
  assert (name ∈ os.entries m dir) as Hin.
  { unfold os.entries. apply list_elem_of_omap. exists (dir ++ [name]).
    split; [|apply entryName_snoc].
    apply list_elem_of_fmap. by exists (dir ++ [name], n). }
  rewrite Hnil in Hin. by apply elem_of_nil in Hin.
Qed.

Lemma fsWellFormed_below m D :
  fsWellFormed m → os.lookupNode m D ≠ Some Dir → ∀ k, k ≠ [] → m !! (D ++ k) = None.
Proof.
  intros Hwf HD k. induction k as [|name k IH] using rev_ind; [done|]. intros _.
  destruct (m !! (D ++ k ++ [name])) as [n|] eqn:Hk; [|done]. exfalso.
  rewrite app_assoc in Hk.
  pose proof (Hwf (D ++ k) name (mk_is_Some _ _ Hk)) as Hup.
  destruct (decide (k = [])) as [->|Hne].
  - by rewrite app_nil_r in Hup.
  - rewrite lookupNode_cons in Hup by (by destruct D, k). by rewrite IH in Hup.
Qed.

Lemma fsWellFormed_insert_dir m p :
  fsWellFormed m → os.lookupNode m p = None → os.lookupNode m (removelast p) = Some Dir →
  fsWellFormed (<[p := Dir]> m).
Proof.
  intros Hwf Hp Hup k name [n Hk].
  assert (p ≠ []) by (by eapply lookupNode_is_Some_key).
  destruct (decide (p = k ++ [name])) as [->|Hne].
  - rewrite removelast_snoc in Hup. destruct k as [|x k]; [done|].
    rewrite lookupNode_cons in Hup |- * by done.
    rewrite lookup_insert_ne; [done|]. apply snoc_ne.
  - rewrite lookup_insert_ne in Hk by done.
    pose proof (Hwf k name (mk_is_Some _ _ Hk)) as Hdir.
    destruct k as [|x k]; [done|]. simpl in *.
    destruct (decide (p = x :: k)) as [->|Hne']; [by rewrite lookup_insert_eq|].
    by rewrite lookup_insert_ne.
Qed.

Lemma onlyAddsDirs_refl D m : onlyAddsDirs D m m.
Proof. intros k. by left. Qed.

Lemma onlyAddsDirs_trans D m1 m2 m3 :
  onlyAddsDirs D m1 m2 → onlyAddsDirs D m2 m3 → onlyAddsDirs D m1 m3.
Proof.
  intros H12 H23 k. destruct (H12 k) as [Heq|(Hnone & Hdir & Hpre)].
  - rewrite <- Heq. apply H23.
  - destruct (H23 k) as [Heq'|(Hnone' & _)]; [|congruence].
    right. by rewrite Heq'.
Qed.

Lemma onlyAddsDirs_mono D D' m m' :
  D `prefix_of` D' → onlyAddsDirs D m m' → onlyAddsDirs D' m m'.
Proof.
  intros HD Hm k. destruct (Hm k) as [?|(? & ? & ?)]; [by left|right].
  repeat split; [done..|]. by etrans.
Qed.

Lemma onlyAddsDirs_insert D m p :
  os.lookupNode m p = None → p `prefix_of` D → onlyAddsDirs D m (<[p := Dir]> m).
Proof.
  intros Hp Hpre k.
  assert (p ≠ []) by (by eapply lookupNode_is_Some_key).
  rewrite lookupNode_cons in Hp by done.
  destruct (decide (p = k)) as [->|Hne].
  - right. by rewrite lookup_insert_eq.
  - left. by rewrite lookup_insert_ne.
Qed.

(** ** Steps that make directories *)

Section dir_steps.
Context {G V : Type} (E : environ G V).

Lemma sysWithin_mono D D' ev : D `prefix_of` D' → sysWithin D ev → sysWithin D' ev.
Proof. intros HD. destruct ev as [call res|c]; simpl; [|done]. intros ?. by etrans. Qed.

Lemma dirStep_trans D w1 w2 w3 : dirStep D w1 w2 → dirStep D w2 w3 → dirStep D w1 w3.
Proof.
  intros (Ho1 & (n1 & Hj1 & Hn1) & Ha1 & Hw1) (Ho2 & (n2 & Hj2 & Hn2) & Ha2 & Hw2).
  split; [congruence|]. split.
  - exists (n1 ++ n2). rewrite Hj2, Hj1, app_assoc. split; [done|]. by apply Forall_app.
  - split; [by eapply onlyAddsDirs_trans|auto].
Qed.

Lemma dirStep_mono D D' w w' : D `prefix_of` D' → dirStep D w w' → dirStep D' w w'.
Proof.
  intros HD (Ho & (n & Hj & Hn) & Ha & Hw). split; [done|]. split.
  - exists n. split; [done|]. eapply Forall_impl; [done|]. intros ev. by apply sysWithin_mono.
  - split; [by eapply onlyAddsDirs_mono|done].
Qed.

Lemma stat_step p w r w' :
  os.stat E p w = (r, w') →
  dirStep p w w' ∧ fs w' = fs w ∧
  (∀ n, r = inr n → os.lookupNode (fs w) p = Some n).
Proof.
  unfold os.stat, os.perform. intros Hrun.
  assert (fs w' = fs w ∧ stdout w' = stdout w ∧
          (∃ res, journal w' = journal w ++ [Sys (SysStat p) res]) ∧
          (∀ n, r = inr n → os.lookupNode (fs w) p = Some n)) as (Hfs & Hout & [res Hj] & Hr).
  { repeat case_match; simplify_eq; simpl; repeat split; eauto; congruence. }
  split; [|done]. split; [done|]. split.
  - exists [Sys (SysStat p) res]. split; [done|]. apply Forall_singleton. simpl. reflexivity.
  - rewrite Hfs. split; [apply onlyAddsDirs_refl|done].
Qed.

Lemma readdir_step p w r w' :
  os.readdir E p w = (r, w') →
  dirStep p w w' ∧ fs w' = fs w ∧
  (∀ names, r = inr names → os.lookupNode (fs w) p = Some Dir ∧ names = os.entries (fs w) p) ∧
  (∀ op no, r = inl (op, no) → op = "open" ∨ op = "readdirent").
Proof.
  unfold os.readdir. intros Hrun.
  assert (fs w' = fs w ∧ stdout w' = stdout w ∧
          (∃ res, journal w' = journal w ++ [Sys (SysReadDir p) res]) ∧
          (∀ names, r = inr names →
             os.lookupNode (fs w) p = Some Dir ∧ names = os.entries (fs w) p) ∧
          (∀ op no, r = inl (op, no) → op = "open" ∨ op = "readdirent"))
    as (Hfs & Hout & [res Hj] & Hr & Hop).
  { repeat case_match; simplify_eq; simpl; repeat split; eauto; try congruence;
      intros ?? [= <- <-]; eauto. }
  split; [|done]. split; [done|]. split.
  - exists [Sys (SysReadDir p) res]. split; [done|]. apply Forall_singleton. simpl. reflexivity.
  - rewrite Hfs. split; [apply onlyAddsDirs_refl|done].
Qed.

Lemma mkdir_step p w r w' :
  os.mkdir E p w = (r, w') →
  dirStep p w w' ∧
  journal w' = journal w ++ [Sys (SysMkdir p) (match r with inl no => Some no | inr _ => None end)] ∧
  match r with
  | inl _ => fs w' = fs w
  | inr _ => os.lookupNode (fs w) p = None ∧ os.lookupNode (fs w) (removelast p) = Some Dir ∧
             fs w' = <[p := Dir]> (fs w)
  end.
Proof.
  unfold os.mkdir, os.perform. intros Hrun.
  assert (stdout w' = stdout w ∧
          journal w' = journal w ++ [Sys (SysMkdir p) (match r with inl no => Some no | inr _ => None end)] ∧
          match r with
          | inl _ => fs w' = fs w
          | inr _ => os.lookupNode (fs w) p = None ∧
                     os.lookupNode (fs w) (removelast p) = Some Dir ∧
                     fs w' = <[p := Dir]> (fs w)
          end) as (Hout & Hj & Hr).
  { repeat case_match; simplify_eq; simpl; repeat split; eauto; congruence. }
  split; [|done]. split; [done|]. split.
  - eexists. split; [done|]. apply Forall_singleton. simpl. reflexivity.
  - destruct r as [no|[]].
    + rewrite Hr. split; [apply onlyAddsDirs_refl|done].
    + destruct Hr as (Hp & Hup & ->). split.
      * by apply onlyAddsDirs_insert.
      * intros Hwf. by apply fsWellFormed_insert_dir.
Qed.

Lemma mkdirAll_step rp : ∀ w r w', os.mkdirAll E rp w = (r, w') → dirStep (rev rp) w w'.
Proof.
  induction rp as [|x rparent IH]; intros w r w'; simpl; unfold bind, ret.
  - destruct (os.stat E [] w) as [st w1] eqn:Hst.
    apply stat_step in Hst as (Hs1 & _ & _).
    destruct st as [no|[|data]]; try by intros [= <- <-].
    destruct (os.mkdir E [] w1) as [made w2] eqn:Hmk.
    apply mkdir_step in Hmk as (Hs2 & _).
    destruct made as [no'|[]]; [|intros [= <- <-]; by eapply dirStep_trans].
    destruct (os.stat E [] w2) as [again w3] eqn:Hst2.
    apply stat_step in Hst2 as (Hs3 & _ & _).
    assert (dirStep [] w w3) by (eapply dirStep_trans; [|done]; by eapply dirStep_trans).
    by destruct again as [?|[|?]]; intros [= <- <-].
  - destruct (os.stat E (rev rparent ++ [x]) w) as [st w1] eqn:Hst.
    apply stat_step in Hst as (Hs1 & _ & _).
    destruct st as [no|[|data]]; try by intros [= <- <-].
    destruct (os.mkdirAll E rparent w1) as [up w2] eqn:Hup.
    apply IH in Hup.
    assert (dirStep (rev rparent ++ [x]) w w2) as Hs2.
    { eapply dirStep_trans; [done|]. eapply dirStep_mono; [|done]. by apply prefix_app_r. }
    destruct up as [no'|]; [by intros [= <- <-]|].
    destruct (os.mkdir E (rev rparent ++ [x]) w2) as [made w3] eqn:Hmk.
    apply mkdir_step in Hmk as (Hs3 & _).
    assert (dirStep (rev rparent ++ [x]) w w3) as Hs3' by (by eapply dirStep_trans).
    destruct made as [no'|[]]; [|by intros [= <- <-]].
    destruct (os.stat E (rev rparent ++ [x]) w3) as [again w4] eqn:Hst2.
    apply stat_step in Hst2 as (Hs4 & _ & _).
    assert (dirStep (rev rparent ++ [x]) w w4) by (by eapply dirStep_trans).
    by destruct again as [?|[|?]]; intros [= <- <-].
Qed.

End dir_steps.

(** ** Paths below a normalized directory *)

Lemma locate_normalized {G V} (E : environ G V) names :
  Forall realName names → os.locate E ("/" +:+ joinSep names) = names.
Proof.
  intros Hn. unfold os.locate.
  change ("/" +:+ joinSep names) with (String Separator (joinSep names)) at 1.
  rewrite IsAbs_String. rewrite splitSep_normalized by done. apply rev_involutive.
Qed.

Lemma Join_normalized names x :
  Forall realName names →
  Join ["/" +:+ joinSep names; x]
  = "/" +:+ joinSep (rev (cleanElems true (rev names) (splitSep x))).
Proof.
  intros Hn. rewrite Join_pair by done.
  rewrite Clean_rooted by apply IsAbs_String.
  rewrite splitSep_app, cleanElems_app. by rewrite splitSep_normalized.
Qed.

Lemma Join_name names x :
  Forall realName names → realName x →
  Join ["/" +:+ joinSep names; x] = "/" +:+ joinSep (names ++ [x]).
Proof.
  intros Hn Hx. rewrite Join_normalized by done.
  rewrite splitSep_noSep by (by apply realName_noSep).
  rewrite (cleanElems_real true _ [x]) by (by constructor).
  simpl. by rewrite rev_involutive.
Qed.

Lemma realName_groups : realName exportToolGroupsDir.
Proof. by repeat split. Qed.

Lemma realName_servers : realName exportMcpServersDir.
Proof. by repeat split. Qed.

Lemma last_elem_of {A} (l : list A) d : l ≠ [] → List.last l d ∈ l.
Proof.
  induction l as [|x l IH]; [done|]. intros _.
  destruct l as [|y l]; [by apply list_elem_of_singleton|].
  apply elem_of_cons. right. by apply IH.
Qed.

Lemma Base_cases name :
  Base name = "/" ∨ (Base name ≠ "" ∧ hasSep (Base name) = false).
Proof.
  unfold Base. case_decide; [by right|]. case_decide as Hlast; [by left|right].
  split; [done|]. unfold lastElem in *.
  pose proof (splitSep_elems (trimTrailingSep name)) as Hel.
  rewrite Forall_forall in Hel. apply Hel, last_elem_of, splitSep_nonempty.
Qed.

Lemma hasSep_append a b : hasSep (a +:+ b) = hasSep a || hasSep b.
Proof. induction a as [|c a IH]; simpl; [done|]. by rewrite IH, orb_assoc. Qed.

Lemma length_append a b : String.length (a +:+ b) = String.length a + String.length b.
Proof. induction a as [|c a IH]; simpl; [done|]. by rewrite IH. Qed.

Lemma json_suffix_real b : hasSep b = false → realName (b +:+ ".json").
Proof.
  intros Hb.
  assert (5 ≤ String.length (b +:+ ".json")) as Hlen.
  { rewrite length_append. simpl. lia. }
  repeat split; try (intros Heq; rewrite Heq in Hlen; simpl in Hlen; lia).
  by rewrite hasSep_append, Hb.
Qed.

Lemma leafName_real name : realName (leafName name).
Proof.
  unfold leafName. case_decide as Hroot; [by repeat split|].
  destruct (Base_cases name) as [?|[_ Hsep]]; [done|]. by apply json_suffix_real.
Qed.

(** The file of an entity is an immediate entry of the entity's directory. *)
Lemma Join_leaf names name :
  Forall realName names →
  Join ["/" +:+ joinSep names; Base name +:+ ".json"]
  = "/" +:+ joinSep (names ++ [leafName name]).
Proof.
  intros Hn. unfold leafName. case_decide as Hroot.
  - rewrite Hroot, Join_normalized by done.
    change (splitSep ("/" +:+ ".json")) with ([""; ".json"]).
    change (cleanElems true (rev names) [""; ".json"]) with (".json" :: rev names).
    simpl. by rewrite rev_involutive.
  - apply Join_name; [done|].
    destruct (Base_cases name) as [?|[_ Hsep]]; [done|]. by apply json_suffix_real.
Qed.

(** ** Resolution of the target directory *)

Section resolution_run.
Context {G V : Type} (E : environ G V).

Lemma resolve_inv w r w' :
  resolveTargetDirForExport E w = (r, w') →
  match targetDirCleaned E with
  | Err err => r = Err err ∧ w' = w
  | Ok p =>
      dirStep (os.locate E p) w w' ∧
      match r with
      | Ok root =>
          root = p ∧ os.lookupNode (fs w') (os.locate E p) = Some Dir ∧
          ∀ name, fs w' !! (os.locate E p ++ [name]) = None
      | Err err =>
          (∃ q no, err = PathError "mkdir" q no) ∨
          (∃ op no, (op = "open" ∨ op = "readdirent") ∧
             err = wrapError ("failed to read contents of target directory " +:+ p +:+ ": ")
                     (PathError op p no)) ∨
          (err = errorString ("target directory " +:+ p +:+ " is not empty") ∧
           os.lookupNode (fs w') (os.locate E p) = Some Dir ∧
           os.entries (fs w') (os.locate E p) ≠ [])
      end
  end.
Proof.
  unfold resolveTargetDirForExport.
  destruct (targetDirCleaned E) as [p|err]; [|by intros [= <- <-]].
  unfold os.MkdirAll, os.ReadDir, bind, ret.
  destruct (os.mkdirAll E (rev (os.locate E p)) w) as [made w1] eqn:Hmk.
  apply mkdirAll_step in Hmk. rewrite rev_involutive in Hmk.
  destruct made as [[q no]|]; [intros [= <- <-]; eauto|].
  destruct (os.readdir E (os.locate E p) w1) as [listed w2] eqn:Hrd.
  apply readdir_step in Hrd as (Hstep & Hfs & Hnames & Hop).
  assert (dirStep (os.locate E p) w w2) as Hstep' by (by eapply dirStep_trans).
  destruct listed as [[op no]|names];
    [intros [= <- <-]; split; [done|]; right; left; exists op, no; split; [by eapply Hop|done]|].
  destruct (Hnames names eq_refl) as [Hdir ->]. rewrite <- Hfs in *.
  case_decide as Hlen; intros [= <- <-]; (split; [done|]).
  - right; right. split; [done|]. split; [done|]. intros Heq. rewrite Heq in Hlen. simpl in Hlen. lia.
  - split; [done|]. split; [done|]. intros name. apply entries_nil.
    destruct (os.entries (fs w2) (os.locate E p)); [done|]. simpl in Hlen. lia.
Qed.

End resolution_run.

(** ** Writing entity files *)

Section writing.
Context {G V : Type} (E : environ G V).

Lemma leftBy_frame op p data m m' k : leftBy op p data m m' → k ≠ p → m' !! k = m !! k.
Proof.
  intros [[_ ->]|[(_ & n & ->)|[_ ->]]] Hk; [done|by rewrite lookup_insert_ne..].
Qed.

Lemma writefile_inv p data w r w' :
  os.writefile E p data w = (r, w') →
  stdout w' = stdout w ∧
  journal w' = journal w
               ++ [Sys (SysWriteFile p) (match r with inl e => Some e.2 | inr _ => None end)] ∧
  match r with
  | inl (op, _) => leftBy op p data (fs w) (fs w')
  | inr _ => os.lookupNode (fs w) p ≠ Some Dir ∧
             os.lookupNode (fs w) (removelast p) = Some Dir ∧
             fs w' = <[p := File data]> (fs w)
  end.
Proof.
  unfold os.writefile, leftBy. intros Hrun.
  repeat case_match; simplify_eq; simpl; repeat split; eauto 6; congruence.
Qed.

Lemma writefile_success p data w :
  refuse E (length (journal w)) (SysWriteFile p) = None →
  os.lookupNode (fs w) p ≠ Some Dir →
  os.lookupNode (fs w) (removelast p) = Some Dir →
  os.writefile E p data w
  = (inr (), World (<[p := File data]> (fs w)) (stdout w)
               (journal w ++ [Sys (SysWriteFile p) None])).
Proof.
  intros Href Hp Hup. unfold os.writefile. rewrite Href, Hup.
  by destruct (os.lookupNode (fs w) p) as [[|?]|].
Qed.

Lemma mkdir_success p w :
  refuse E (length (journal w)) (SysMkdir p) = None →
  os.lookupNode (fs w) p = None →
  os.lookupNode (fs w) (removelast p) = Some Dir →
  os.mkdir E p w
  = (inr (), World (<[p := Dir]> (fs w)) (stdout w) (journal w ++ [Sys (SysMkdir p) None])).
Proof.
  intros Href Hp Hup. unfold os.mkdir, os.perform. by rewrite Href, Hp, Hup.
Qed.

Section one_type.
Context {A : Type} `{Named A, Marshaler A}.
Context (D : path) (HD : Forall realName D).
Context (dir : string) (Hdirname : dir = "/" +:+ joinSep D).

Lemma entityFile_locate name :
  os.locate E (Join [dir; Base name +:+ ".json"]) = D ++ [leafName name].
Proof.
  rewrite Hdirname, Join_leaf by done. apply locate_normalized.
  apply Forall_app. split; [done|]. apply Forall_singleton, leafName_real.
Qed.

Lemma writeJSONConfigFile_inv name (x : A) w r w' :
  writeJSONConfigFile E dir name x w = (r, w') →
  stdout w' = stdout w ∧
  match r with
  | None =>
      ∃ data, encoding x = Ok data ∧
        fs w' = <[D ++ [leafName name] := File data]> (fs w) ∧
        journal w' = journal w ++ [Sys (SysWriteFile (D ++ [leafName name])) None] ∧
        os.lookupNode (fs w) D = Some Dir
  | Some err =>
      (∃ cause, encoding x = Err cause ∧ w' = w ∧
         err = wrapError ("failed to serialize entity " +:+ dir +:+ "/" +:+ name +:+ ": ") cause) ∨
      (∃ data op no, encoding x = Ok data ∧
         journal w' = journal w ++ [Sys (SysWriteFile (D ++ [leafName name])) (Some no)] ∧
         err = wrapError ("failed to write entity file "
                          +:+ Join [dir; Base name +:+ ".json"] +:+ ": ")
                 (PathError op (Join [dir; Base name +:+ ".json"]) no) ∧
         leftBy op (D ++ [leafName name]) data (fs w) (fs w'))
  end.
Proof.
  unfold writeJSONConfigFile, encoding.
  destruct (MarshalIndent x "" "  ") as [data|cause].
  - unfold os.WriteFile, bind, ret. rewrite entityFile_locate.
    destruct (os.writefile E (D ++ [leafName name]) data w) as [res w1] eqn:Hwr.
    apply writefile_inv in Hwr as (Hout & Hj & Hres).
    destruct res as [[op no]|[]]; intros [= <- <-]; (split; [done|]).
    + right. by exists data, op, no.
    + destruct Hres as (_ & Hup & Hfs). rewrite removelast_snoc in Hup. by exists data.
  - intros [= <- <-]. split; [done|]. left. by exists cause.
Qed.

Lemma writeJSONConfigFile_success name (x : A) w :
  refuse E (length (journal w)) (SysWriteFile (D ++ [leafName name])) = None →
  encodable x →
  os.lookupNode (fs w) D = Some Dir →
  fs w !! (D ++ [leafName name]) ≠ Some Dir →
  writeJSONConfigFile E dir name x w
  = (None, World (<[D ++ [leafName name] := File (encoded x)]> (fs w)) (stdout w)
             (journal w ++ [Sys (SysWriteFile (D ++ [leafName name])) None])).
Proof.
  intros Href [data Hdata] Hdir Hfile. unfold writeJSONConfigFile, encoded.
  unfold encoding in *. rewrite Hdata.
  unfold os.WriteFile, bind, ret. rewrite entityFile_locate.
  rewrite writefile_success; [done..| |].
  - by rewrite lookupNode_snoc.
  - by rewrite removelast_snoc.
Qed.

(** The loop returns at the first write that fails, in the world that this
    write left. *)
Lemma writeEach_abort pre x post w w1 err w2 :
  writeEach E dir pre w = (None, w1) →
  writeJSONConfigFile E dir (Name x) x w1 = (Some err, w2) →
  writeEach E dir (pre ++ x :: post) w = (Some err, w2).
Proof.
  revert w. induction pre as [|y pre IH]; intros w; simpl; unfold bind, ret.
  - intros [= <-] Hx. by rewrite Hx.
  - destruct (writeJSONConfigFile E dir (Name y) y w) as [[e|] w0]; [done|]. apply IH.
Qed.

Lemma written_snoc m xs (x : A) :
  written D m (xs ++ [x]) = <[entityFile D x := File (encoded x)]> (written D m xs).
Proof. unfold written. by rewrite foldl_app. Qed.

Lemma writeEach_inv xs w w' :
  writeEach E dir xs w = (None, w') →
  fs w' = written D (fs w) xs ∧ stdout w' = stdout w ∧
  journal w' = journal w ++ writeEvents D xs ∧ Forall encodable xs ∧
  (xs ≠ [] → os.lookupNode (fs w) D = Some Dir).
Proof.
  revert w. induction xs as [|y xs IH]; intros w; simpl; unfold bind, ret.
  - intros [= <-]. by rewrite app_nil_r.
  - destruct (writeJSONConfigFile E dir (Name y) y w) as [[e|] w0] eqn:Hy; [done|].
    apply writeJSONConfigFile_inv in Hy as (Hout & data & Hdata & Hfs & Hj & Hdir).
    intros (Hfs' & Hout' & Hj' & Henc & _)%IH.
    rewrite Hfs', Hout', Hj', Hfs, Hout, Hj. unfold encoded, entityFile. rewrite Hdata.
    rewrite <- app_assoc. repeat split; [|done]. constructor; [by exists data|done].
Qed.

(** Whatever the outcome, the loop journals writes of entries of [D] only,
    prints nothing and touches no other path. *)
Lemma writeEach_frame xs w r w' :
  writeEach E dir xs w = (r, w') →
  stdout w' = stdout w ∧
  (∃ new, journal w' = journal w ++ new ∧ Forall (writeWithin D) new) ∧
  (∀ k, (∀ leaf, k ≠ D ++ [leaf]) → fs w' !! k = fs w !! k).
Proof.
  revert w. induction xs as [|y xs IH]; intros w; simpl; unfold bind, ret.
  - intros [= <- <-]. split; [done|]. split; [|done]. exists []. by rewrite app_nil_r.
  - destruct (writeJSONConfigFile E dir (Name y) y w) as [res w0] eqn:Hy.
    apply writeJSONConfigFile_inv in Hy as (Hout & Hy).
    assert ((∃ new, journal w0 = journal w ++ new ∧ Forall (writeWithin D) new) ∧
            (∀ k, (∀ leaf, k ≠ D ++ [leaf]) → fs w0 !! k = fs w !! k)) as [(n0 & Hj0 & Hn0) Hfs0].
    { destruct res as [e|].
      - destruct Hy as [(cause & _ & -> & _)|(data & op & no & _ & Hj & _ & Hleft)].
        + split; [|done]. exists []. by rewrite app_nil_r.
        + split.
          * eexists. split; [done|]. apply Forall_singleton. simpl. eauto.
          * intros k Hk. by eapply leftBy_frame.
      - destruct Hy as (data & _ & Hfs & Hj & _). split.
        + eexists. split; [done|]. apply Forall_singleton. simpl. eauto.
        + intros k Hk. rewrite Hfs. by rewrite lookup_insert_ne. }
    destruct res as [e|].
    + intros [= <- <-]. eauto.
    + intros (Hout' & (n1 & Hj1 & Hn1) & Hfs1)%IH. split; [congruence|]. split.
      * exists (n0 ++ n1). rewrite Hj1, Hj0, app_assoc. split; [done|]. by apply Forall_app.
      * intros k Hk. rewrite Hfs1 by done. by apply Hfs0.
Qed.

Lemma writeEach_success xs w :
  compliant E → Forall encodable xs →
  os.lookupNode (fs w) D = Some Dir →
  (∀ leaf, fs w !! (D ++ [leaf]) ≠ Some Dir) →
  writeEach E dir xs w
  = (None, World (written D (fs w) xs) (stdout w) (journal w ++ writeEvents D xs)).
Proof.
  intros Hc. revert w. induction xs as [|y xs IH]; intros w Henc Hdir Hfiles; simpl.
  - unfold ret. rewrite app_nil_r. by destruct w.
  - apply Forall_cons in Henc as [Hy Hxs]. unfold bind.
    rewrite writeJSONConfigFile_success by done.
    rewrite IH; simpl; [by rewrite <- app_assoc|done| |].
    + destruct D as [|d D']; [done|]. rewrite lookupNode_cons in Hdir |- * by done.
      rewrite lookup_insert_ne; [done|]. apply snoc_ne.
    + intros leaf. destruct (decide (D ++ [leafName (Name y)] = D ++ [leaf])) as [<-|Hne].
      * by rewrite lookup_insert_eq.
      * by rewrite lookup_insert_ne.
Qed.

(** What the files hold in the end: an entity that no later one shadows is in
    its file; other paths are as before. *)
Lemma written_other m xs k :
  (∀ x, x ∈ xs → entityFile D x ≠ k) → written D m xs !! k = m !! k.
Proof.
  induction xs as [|x xs IH] using rev_ind; [done|]. intros Hk.
  rewrite written_snoc. rewrite lookup_insert_ne.
  - apply IH. intros y Hy. apply Hk, elem_of_app. by left.
  - apply Hk, elem_of_app. right. by apply list_elem_of_singleton.
Qed.

Lemma written_last m pre (x : A) post :
  (∀ y, y ∈ post → leafName (Name y) ≠ leafName (Name x)) →
  written D m (pre ++ x :: post) !! entityFile D x = Some (File (encoded x)).
Proof.
  intros Hpost. unfold written. rewrite foldl_app. simpl.
  fold (written D (<[entityFile D x:=File (encoded x)]> (foldl
    (λ m x, <[entityFile D x := File (encoded x)]> m) m pre)) post).
  rewrite written_other; [by rewrite lookup_insert_eq|].
  intros y Hy Heq. apply (Hpost y Hy). unfold entityFile in Heq.
  by apply app_inv_head in Heq as [= ->].
Qed.

End one_type.
End writing.

(** ** The phases of a run *)

Section phases.
Context {G V : Type} `{Named G, Marshaler G, Named V, Marshaler V}.
Context (E : environ G V).

Lemma exportToolGroups_eq groupsDir w :
  exportToolGroups E groupsDir w
  = match toolGroupConfigs E with
    | Err gErr =>
        (None, announced ["Fetching Tool Group configurations..." +:+ LF;
                          "warning: failed to fetch tool group configurations: "
                          +:+ Error gErr +:+ LF] (Fetch ToolGroup) w)
    | Ok [] =>
        (None, announced ["Fetching Tool Group configurations..." +:+ LF;
                          "No Tool Groups found." +:+ LF] (Fetch ToolGroup) w)
    | Ok groups =>
        writeEach E groupsDir groups
          (announced ["Fetching Tool Group configurations..." +:+ LF;
                      "Writing Tool Groups configurations to " +:+ groupsDir +:+ LF]
             (Fetch ToolGroup) w)
    end.
Proof.
  unfold exportToolGroups, GetToolGroupConfigs, Println, Printf, announced, bind, ret.
  destruct (toolGroupConfigs E) as [[|g groups]|gErr]; simpl; by rewrite <- app_assoc.
Qed.

Lemma exportMcpServers_eq serversDir w :
  exportMcpServers E serversDir w
  = match serverConfigs E with
    | Err sErr =>
        (None, announced ["Fetching MCP Server configurations..." +:+ LF;
                          "warning: failed to fetch mcp server configurations: "
                          +:+ Error sErr] (Fetch McpServer) w)
    | Ok [] =>
        (None, announced ["Fetching MCP Server configurations..." +:+ LF;
                          "No MCP Servers found." +:+ LF] (Fetch McpServer) w)
    | Ok servers =>
        writeEach E serversDir servers
          (announced ["Fetching MCP Server configurations..." +:+ LF;
                      "Writing MCP Server configurations to " +:+ serversDir +:+ LF]
             (Fetch McpServer) w)
    end.
Proof.
  unfold exportMcpServers, GetServerConfigs, Println, Printf, announced, bind, ret.
  destruct (serverConfigs E) as [[|s servers]|sErr]; simpl; by rewrite <- app_assoc.
Qed.

Lemma mkdir_inv p w r w' :
  os.mkdir E p w = (r, w') →
  w' = World (match r with inl _ => fs w | inr _ => <[p := Dir]> (fs w) end) (stdout w)
         (journal w ++ [Sys (SysMkdir p) (match r with inl no => Some no | inr _ => None end)]).
Proof.
  unfold os.mkdir, os.perform. intros Hrun. repeat case_match; by simplify_eq.
Qed.

(** The paths of the run below the target directory located at [T]. *)
Lemma sub_ne (T : path) a b : a ≠ b → T ++ [a] ≠ T ++ [b].
Proof. intros Hne Heq. apply app_inv_head in Heq. by simplify_eq. Qed.

Lemma sub_entry_ne (T : path) a b l l' : a ≠ b → (T ++ [a]) ++ [l] ≠ (T ++ [b]) ++ [l'].
Proof. intros Hne Heq. rewrite <- !app_assoc in Heq. apply app_inv_head in Heq. by simplify_eq. Qed.

Lemma sub_entry_ne_sub (T : path) a b l : (T ++ [a]) ++ [l] ≠ T ++ [b].
Proof. intros Heq. rewrite <- !app_assoc in Heq. apply app_inv_head in Heq. by simplify_eq. Qed.

Lemma lookupNode_insert_ne m (p k : path) n :
  p ≠ k → os.lookupNode (<[p := n]> m) k = os.lookupNode m k.
Proof. intros Hne. destruct k; [done|]. simpl. by rewrite lookup_insert_ne. Qed.

Section with_target.
Context (root : string) (Hroot : targetDirCleaned E = Ok root).

Local Abbreviation T := (os.locate E root).
Local Abbreviation groupsAt := (T ++ [exportToolGroupsDir]).
Local Abbreviation serversAt := (T ++ [exportMcpServersDir]).

Lemma root_names : Forall realName T ∧ root = "/" +:+ joinSep T.
Proof.
  destruct (targetDirCleaned_normalizedAbs E root Hroot) as (names & -> & Hn).
  by rewrite locate_normalized.
Qed.

Lemma groupsDir_eq : Join [root; exportToolGroupsDir] = "/" +:+ joinSep groupsAt.
Proof.
  destruct root_names as [Hn Heq]. rewrite Heq at 1.
  apply Join_name; [done|apply realName_groups].
Qed.

Lemma serversDir_eq : Join [root; exportMcpServersDir] = "/" +:+ joinSep serversAt.
Proof.
  destruct root_names as [Hn Heq]. rewrite Heq at 1.
  apply Join_name; [done|apply realName_servers].
Qed.

Lemma groupsAt_real : Forall realName groupsAt.
Proof.
  apply Forall_app. split; [apply root_names|apply Forall_singleton, realName_groups].
Qed.

Lemma serversAt_real : Forall realName serversAt.
Proof.
  apply Forall_app. split; [apply root_names|apply Forall_singleton, realName_servers].
Qed.

Lemma groupsDir_locate : os.locate E (Join [root; exportToolGroupsDir]) = groupsAt.
Proof. rewrite groupsDir_eq. apply locate_normalized, groupsAt_real. Qed.

Lemma serversDir_locate : os.locate E (Join [root; exportMcpServersDir]) = serversAt.
Proof. rewrite serversDir_eq. apply locate_normalized, serversAt_real. Qed.

(** What [prepareSubdirectories] can do, case by case. *)
Lemma prepare_inv w r w' :
  prepareSubdirectories E w = (r, w') →
  ∃ res w1, resolveTargetDirForExport E w = (res, w1) ∧
    match res with
    | Err err =>
        r = Err (wrapError "failed to resolve target directory for export: " err) ∧ w' = w1
    | Ok _ =>
        let text := "Creating subdirectories inside " +:+ root +:+ LF +:+ LF in
        (∃ no,
            r = Err (wrapError "failed to create groups directory: "
                       (PathError "mkdir" (Join [root; exportToolGroupsDir]) no)) ∧
            w' = World (fs w1) (stdout w1 ++ [text])
                   (journal w1 ++ [Sys (SysMkdir groupsAt) (Some no)])) ∨
        (∃ no,
            r = Err (wrapError "failed to create mcp servers directory: "
                       (PathError "mkdir" (Join [root; exportMcpServersDir]) no)) ∧
            w' = World (<[groupsAt := Dir]> (fs w1)) (stdout w1 ++ [text])
                   (journal w1 ++ [Sys (SysMkdir groupsAt) None;
                                   Sys (SysMkdir serversAt) (Some no)])) ∨
        (r = Ok (Join [root; exportToolGroupsDir], Join [root; exportMcpServersDir]) ∧
         w' = prepared T text w1)
    end.
Proof.
  unfold prepareSubdirectories, bind, ret.
  destruct (resolveTargetDirForExport E w) as [res w1] eqn:Hres.
  intros Hrun. exists res, w1. split; [done|]. revert Hrun.
  apply resolve_inv in Hres. rewrite Hroot in Hres.
  destruct res as [root'|err]; [|by intros [= <- <-]].
  destruct Hres as (_ & -> & _).
  unfold os.Mkdir, Printf, bind, ret. rewrite groupsDir_locate, serversDir_locate.
  set (text := "Creating subdirectories inside " +:+ root +:+ LF +:+ LF).
  set (w2 := World (fs w1) (stdout w1 ++ [text]) (journal w1)).
  destruct (os.mkdir E groupsAt w2) as [made w3] eqn:Hg.
  apply mkdir_inv in Hg. subst w3.
  destruct made as [no|[]]; [intros [= <- <-]; left; by exists no|].
  match goal with |- context [os.mkdir E serversAt ?w] => set (w3 := w) end.
  destruct (os.mkdir E serversAt w3) as [made w4] eqn:Hs.
  apply mkdir_inv in Hs. subst w4.
  destruct made as [no|[]]; intros [= <- <-]; right.
  - left. exists no. split; [done|]. simpl. by rewrite <- app_assoc.
  - right. split; [done|]. unfold prepared. simpl. by rewrite <- app_assoc.
Qed.

End with_target.
End phases.

(** ** One category *)

Section one_category.
Context {G V : Type} `{Named G, Marshaler G, Named V, Marshaler V}.
Context (E : environ G V).
Context (D : path) (HD : Forall realName D).
Context (dir : string) (Hdirname : dir = "/" +:+ joinSep D).

Lemma exportToolGroups_inv w r w' :
  exportToolGroups E dir w = (r, w') →
  (∃ texts new, stdout w' = stdout w ++ texts ∧
     journal w' = journal w ++ Fetch ToolGroup :: new ∧ Forall (writeWithin D) new ∧
     ∀ gErr, toolGroupConfigs E = Err gErr → warning ToolGroup gErr ∈ texts) ∧
  (∀ k, (∀ leaf, k ≠ D ++ [leaf]) → fs w' !! k = fs w !! k) ∧
  (r = None →
     fs w' = written D (fs w) (listed (toolGroupConfigs E)) ∧
     Forall encodable (listed (toolGroupConfigs E))).
Proof.
  rewrite exportToolGroups_eq.
  destruct (toolGroupConfigs E) as [[|g groups]|gErr] eqn:Hlist.
  - intros [= <- <-]. split; [|done]. eexists _, []. split; [done|]. by repeat split.
  - set (w0 := announced _ _ w). intros Hrun.
    pose proof (writeEach_frame E D HD dir Hdirname _ _ _ _ Hrun) as (Hout & (new & Hj & Hnew) & Hfs).
    split; [|split; [done|]].
    + eexists _, new. split; [by rewrite Hout|]. split; [|done].
      rewrite Hj. simpl. by rewrite <- app_assoc.
    + intros ->. apply (writeEach_inv E D HD dir Hdirname) in Hrun as (? & _ & _ & ? & _). done.
  - intros [= <- <-]. split; [|done]. eexists _, []. split; [done|]. split; [done|].
    split; [done|]. intros ? [= <-]. simpl. apply elem_of_cons. right. by apply list_elem_of_singleton.
Qed.

Lemma exportMcpServers_inv w r w' :
  exportMcpServers E dir w = (r, w') →
  (∃ texts new, stdout w' = stdout w ++ texts ∧
     journal w' = journal w ++ Fetch McpServer :: new ∧ Forall (writeWithin D) new ∧
     ∀ sErr, serverConfigs E = Err sErr → warning McpServer sErr ∈ texts) ∧
  (∀ k, (∀ leaf, k ≠ D ++ [leaf]) → fs w' !! k = fs w !! k) ∧
  (r = None →
     fs w' = written D (fs w) (listed (serverConfigs E)) ∧
     Forall encodable (listed (serverConfigs E))).
Proof.
  rewrite exportMcpServers_eq.
  destruct (serverConfigs E) as [[|s servers]|sErr] eqn:Hlist.
  - intros [= <- <-]. split; [|done]. eexists _, []. split; [done|]. by repeat split.
  - set (w0 := announced _ _ w). intros Hrun.
    pose proof (writeEach_frame E D HD dir Hdirname _ _ _ _ Hrun) as (Hout & (new & Hj & Hnew) & Hfs).
    split; [|split; [done|]].
    + eexists _, new. split; [by rewrite Hout|]. split; [|done].
      rewrite Hj. simpl. by rewrite <- app_assoc.
    + intros ->. apply (writeEach_inv E D HD dir Hdirname) in Hrun as (? & _ & _ & ? & _). done.
  - intros [= <- <-]. split; [|done]. eexists _, []. split; [done|]. split; [done|].
    split; [done|]. intros ? [= <-]. simpl. apply elem_of_cons. right. by apply list_elem_of_singleton.
Qed.

Lemma exportToolGroups_success w :
  compliant E → Forall encodable (listed (toolGroupConfigs E)) →
  os.lookupNode (fs w) D = Some Dir →
  (∀ leaf, fs w !! (D ++ [leaf]) ≠ Some Dir) →
  ∃ w', exportToolGroups E dir w = (None, w').
Proof.
  intros Hc Henc Hdir Hfiles. rewrite exportToolGroups_eq.
  destruct (toolGroupConfigs E) as [[|g groups]|gErr]; [by eexists| |by eexists].
  rewrite (writeEach_success E D HD dir Hdirname) by done. by eexists.
Qed.

Lemma exportMcpServers_success w :
  compliant E → Forall encodable (listed (serverConfigs E)) →
  os.lookupNode (fs w) D = Some Dir →
  (∀ leaf, fs w !! (D ++ [leaf]) ≠ Some Dir) →
  ∃ w', exportMcpServers E dir w = (None, w').
Proof.
  intros Hc Henc Hdir Hfiles. rewrite exportMcpServers_eq.
  destruct (serverConfigs E) as [[|s servers]|sErr]; [by eexists| |by eexists].
  rewrite (writeEach_success E D HD dir Hdirname) by done. by eexists.
Qed.

End one_category.

(** ** Runs *)

Section runs.
Context {G V : Type} `{Named G, Marshaler G, Named V, Marshaler V}.
Context (E : environ G V).
Context (root : string) (Hroot : targetDirCleaned E = Ok root).

Local Abbreviation T := (os.locate E root).
Local Abbreviation groupsAt := (T ++ [exportToolGroupsDir]).
Local Abbreviation serversAt := (T ++ [exportMcpServersDir]).
Local Abbreviation creating := ("Creating subdirectories inside " +:+ root +:+ LF +:+ LF).

Lemma below_ne_self (p k : path) : k ≠ [] → p ≠ p ++ k.
Proof.
  intros Hk Heq. rewrite <- (app_nil_r p) in Heq at 1. by apply app_inv_head in Heq.
Qed.

Lemma below_ne_other (p : path) a b k : a ≠ b → p ++ [a] ≠ (p ++ [b]) ++ k.
Proof.
  intros Hne Heq. rewrite <- app_assoc in Heq. apply app_inv_head in Heq.
  simpl in Heq. by simplify_eq.
Qed.

Lemma resolved_facts w root' w1 :
  resolveTargetDirForExport E w = (Ok root', w1) →
  root' = root ∧ dirStep T w w1 ∧ os.lookupNode (fs w1) T = Some Dir ∧
  ∀ name, fs w1 !! (T ++ [name]) = None.
Proof.
  intros Hres. apply resolve_inv in Hres. rewrite Hroot in Hres.
  by destruct Hres as (? & ? & ? & ?).
Qed.

Lemma prepare_success w w1 :
  compliant E → resolveTargetDirForExport E w = (Ok root, w1) →
  prepareSubdirectories E w
  = (Ok (Join [root; exportToolGroupsDir], Join [root; exportMcpServersDir]),
     prepared T creating w1).
Proof.
  intros Hc Hres. pose proof (resolved_facts _ _ _ Hres) as (_ & _ & Hdir & Hempty).
  unfold prepareSubdirectories, bind, ret. rewrite Hres.
  unfold os.Mkdir, Printf, bind, ret.
  rewrite (groupsDir_locate E root Hroot), (serversDir_locate E root Hroot).
  rewrite mkdir_success; simpl; [|done| |].
  - rewrite mkdir_success; simpl; [|done| |].
    + unfold prepared. by rewrite <- app_assoc.
    + rewrite lookupNode_snoc, lookup_insert_ne by (by apply sub_ne). apply Hempty.
    + rewrite removelast_snoc, lookupNode_insert_ne by apply snoc_ne. done.
  - rewrite lookupNode_snoc. apply Hempty.
  - by rewrite removelast_snoc.
Qed.

(** The two subdirectories right after their creation in an empty target. *)
Lemma prepared_groups w1 :
  fsWellFormed (fs w1) → (∀ name, fs w1 !! (T ++ [name]) = None) →
  os.lookupNode (fs (prepared T creating w1)) groupsAt = Some Dir ∧
  ∀ k, k ≠ [] → fs (prepared T creating w1) !! (groupsAt ++ k) = None.
Proof.
  intros Hwf Hempty. simpl. split.
  - rewrite lookupNode_snoc, lookup_insert_ne by (by apply sub_ne). by rewrite lookup_insert_eq.
  - intros k Hk. rewrite !lookup_insert_ne.
    + apply fsWellFormed_below; [done| |done]. by rewrite lookupNode_snoc, Hempty.
    + by apply below_ne_self.
    + by apply below_ne_other.
Qed.

Lemma prepared_servers w1 :
  fsWellFormed (fs w1) → (∀ name, fs w1 !! (T ++ [name]) = None) →
  os.lookupNode (fs (prepared T creating w1)) serversAt = Some Dir ∧
  ∀ k, k ≠ [] → fs (prepared T creating w1) !! (serversAt ++ k) = None.
Proof.
  intros Hwf Hempty. simpl. split.
  - by rewrite lookupNode_snoc, lookup_insert_eq.
  - intros k Hk. rewrite !lookup_insert_ne.
    + apply fsWellFormed_below; [done| |done]. by rewrite lookupNode_snoc, Hempty.
    + by apply below_ne_other.
    + by apply below_ne_self.
Qed.

(** A run that returns no error: what it leaves. *)
Lemma runExport_success_inv w w' :
  runExport E w = (None, w') →
  ∃ w1, resolveTargetDirForExport E w = (Ok root, w1) ∧
    fs w' = written serversAt
              (written groupsAt (fs (prepared T creating w1)) (listed (toolGroupConfigs E)))
              (listed (serverConfigs E)) ∧
    Forall encodable (listed (toolGroupConfigs E)) ∧
    Forall encodable (listed (serverConfigs E)) ∧
    (∀ gErr, toolGroupConfigs E = Err gErr → warning ToolGroup gErr ∈ stdout w') ∧
    (∀ sErr, serverConfigs E = Err sErr → warning McpServer sErr ∈ stdout w').
Proof.
  unfold runExport, bind, ret.
  destruct (prepareSubdirectories E w) as [r w2] eqn:Hprep.
  apply (prepare_inv E root Hroot) in Hprep as (res & w1 & Hres & Hprep).
  destruct res as [root'|err]; [|by destruct Hprep as [-> _]].
  apply resolved_facts in Hres as Hfacts. destruct Hfacts as (-> & _).
  destruct Hprep as [(no & -> & _)|[(no & -> & _)|[-> ->]]]; [done..|].
  destruct (exportToolGroups E _ (prepared T creating w1)) as [rg w3] eqn:Hg.
  apply (exportToolGroups_inv E groupsAt (groupsAt_real E root Hroot) _
           (groupsDir_eq E root Hroot)) in Hg
    as ((tg & ng & Hog & _ & _ & Hwg) & _ & Hgok).
  destruct rg as [err|]; [done|]. destruct (Hgok eq_refl) as [Hfsg Hencg].
  destruct (exportMcpServers E _ w3) as [rs w4] eqn:Hs.
  apply (exportMcpServers_inv E serversAt (serversAt_real E root Hroot) _
           (serversDir_eq E root Hroot)) in Hs
    as ((ts & ns & Hos & _ & _ & Hws) & _ & Hsok).
  destruct rs as [err|]; [done|]. destruct (Hsok eq_refl) as [Hfss Hencs].
  unfold Println, Printf. intros [= <-]. exists w1. cbn [fs stdout].
  rewrite Hfss, Hfsg. repeat split; [done..| |].
  - intros gErr Hg. rewrite Hos, Hog, !elem_of_app. left; left; right. by apply Hwg.
  - intros sErr Hs. rewrite Hos, !elem_of_app. left; right. by apply Hws.
Qed.

(** A run in which the system refuses nothing, from a well-formed file system
    in which the target resolves, with entities that can be encoded, returns
    no error. *)
Lemma runExport_success w w1 :
  compliant E → fsWellFormed (fs w) →
  resolveTargetDirForExport E w = (Ok root, w1) →
  Forall encodable (listed (toolGroupConfigs E)) →
  Forall encodable (listed (serverConfigs E)) →
  ∃ w', runExport E w = (None, w').
Proof.
  intros Hc Hwf Hres Hencg Hencs.
  pose proof (resolved_facts _ _ _ Hres) as (_ & (_ & _ & _ & Hwf1) & Hdir & Hempty).
  specialize (Hwf1 Hwf).
  destruct (prepared_groups w1 Hwf1 Hempty) as [Hgdir Hgempty].
  destruct (prepared_servers w1 Hwf1 Hempty) as [Hsdir Hsempty].
  unfold runExport, bind, ret. rewrite (prepare_success _ w1) by done.
  destruct (exportToolGroups_success E groupsAt (groupsAt_real E root Hroot) _
              (groupsDir_eq E root Hroot) (prepared T creating w1)) as [w3 Hg]; [done..| |].
  { intros leaf. by rewrite Hgempty. }
  rewrite Hg.
  apply (exportToolGroups_inv E groupsAt (groupsAt_real E root Hroot) _
           (groupsDir_eq E root Hroot)) in Hg as (_ & Hframe & _).
  destruct (exportMcpServers_success E serversAt (serversAt_real E root Hroot) _
              (serversDir_eq E root Hroot) w3) as [w4 Hs]; [done..| | |].
  - destruct T as [|t T'] eqn:HT.
    + simpl in *. rewrite Hframe; [done|]. intros leaf. by destruct leaf.
    + rewrite lookupNode_cons in Hsdir |- * by done.
      rewrite Hframe; [done|]. intros leaf. apply not_eq_sym, sub_entry_ne_sub.
  - intros leaf. rewrite Hframe by (intros leaf'; by apply sub_entry_ne).
    by rewrite Hsempty.
  - rewrite Hs. unfold Println, Printf. by eexists.
Qed.

End runs.

(** ** Names of entity files *)

Lemma append_inj_r (a b s : string) : a +:+ s = b +:+ s → a = b.
Proof.
  revert b. induction a as [|c a IH]; intros b Heq.
  - destruct b as [|d b]; [done|]. apply (f_equal String.length) in Heq.
    simpl in Heq. rewrite length_append in Heq. lia.
  - destruct b as [|d b].
    + apply (f_equal String.length) in Heq. simpl in Heq. rewrite length_append in Heq. lia.
    + simpl in Heq. injection Heq as -> Heq. f_equal. by apply IH.
Qed.

Lemma Base_nonempty name : Base name ≠ "".
Proof. destruct (Base_cases name) as [->|[? _]]; done. Qed.

(** Two entities share their file in a directory exactly when their names
    have the same base. *)
Lemma leafName_eq_iff n1 n2 : leafName n1 = leafName n2 ↔ Base n1 = Base n2.
Proof.
  split; [|unfold leafName; by intros ->].
  unfold leafName. pose proof (Base_nonempty n1). pose proof (Base_nonempty n2).
  repeat case_decide; try congruence.
  - intros Heq. apply (append_inj_r "" _ ".json") in Heq. congruence.
  - intros Heq. apply (append_inj_r _ "" ".json") in Heq. congruence.
  - apply append_inj_r.
Qed.

Lemma fsWellFormed_empty : fsWellFormed ∅.
Proof. intros k name [n Hn]. by rewrite lookup_empty in Hn. Qed.

Lemma sampleEnviron_compliant flagDir home groups servers :
  compliant (sampleEnviron flagDir home groups servers).
Proof. by intros n call. Qed.

(** ** Files of runs *)

Lemma sub_trees_ne (p : path) a b k1 k2 : a ≠ b → (p ++ [a]) ++ k1 ≠ (p ++ [b]) ++ k2.
Proof.
  intros Hne Heq. rewrite <- !app_assoc in Heq. apply app_inv_head in Heq.
  simpl in Heq. by simplify_eq.
Qed.

Section run_files.
Context {G V : Type} `{Named G, Marshaler G, Named V, Marshaler V}.
Context (E : environ G V).
Context (root : string) (Hroot : targetDirCleaned E = Ok root).

Local Abbreviation T := (os.locate E root).
Local Abbreviation groupsAt := (T ++ [exportToolGroupsDir]).
Local Abbreviation serversAt := (T ++ [exportMcpServersDir]).

Lemma encodable_encoded {A} `{Marshaler A} (x : A) : encodable x → encoding x = Ok (encoded x).
Proof. intros [data Hdata]. unfold encoded. by rewrite Hdata. Qed.

Lemma exported_group_file w w' pre g post :
  runExport E w = (None, w') →
  toolGroupConfigs E = Ok (pre ++ g :: post) →
  (∀ y, y ∈ post → leafName (Name y) ≠ leafName (Name g)) →
  encoding g = Ok (encoded g) ∧ fs w' !! entityFile groupsAt g = Some (File (encoded g)).
Proof.
  intros Hrun Hlist Hpost.
  apply (runExport_success_inv E root Hroot) in Hrun as (w1 & _ & -> & Hencg & _).
  rewrite Hlist in *. simpl in *. split.
  - apply encodable_encoded. rewrite Forall_app, Forall_cons in Hencg. tauto.
  - rewrite written_other; [by apply written_last|].
    intros y _. unfold entityFile. by apply sub_entry_ne.
Qed.

Lemma exported_server_file w w' pre s post :
  runExport E w = (None, w') →
  serverConfigs E = Ok (pre ++ s :: post) →
  (∀ y, y ∈ post → leafName (Name y) ≠ leafName (Name s)) →
  encoding s = Ok (encoded s) ∧ fs w' !! entityFile serversAt s = Some (File (encoded s)).
Proof.
  intros Hrun Hlist Hpost.
  apply (runExport_success_inv E root Hroot) in Hrun as (w1 & _ & -> & _ & Hencs & _).
  rewrite Hlist in *. simpl in *. split.
  - apply encodable_encoded. rewrite Forall_app, Forall_cons in Hencs. tauto.
  - by apply written_last.
Qed.

(** In a successful run nothing is written below the subdirectory of a
    category whose listing failed or was empty. *)
Lemma exported_nothing_groups w w1 w' k :
  fsWellFormed (fs w) → resolveTargetDirForExport E w = (Ok root, w1) →
  runExport E w = (None, w') → listed (toolGroupConfigs E) = [] →
  k ≠ [] → fs w' !! (groupsAt ++ k) = None.
Proof.
  intros Hwf Hres Hrun Hnone Hk.
  apply (runExport_success_inv E root Hroot) in Hrun as (w1' & Hres' & -> & _).
  rewrite Hres in Hres'. injection Hres' as <-. rewrite Hnone. simpl written at 2.
  pose proof (resolved_facts E root Hroot _ _ _ Hres) as (_ & (_ & _ & _ & Hwf1) & _ & Hempty).
  rewrite written_other.
  - by apply (prepared_groups E root w1 (Hwf1 Hwf) Hempty).
  - intros y _. unfold entityFile. by apply sub_trees_ne.
Qed.

Lemma exported_nothing_servers w w1 w' k :
  fsWellFormed (fs w) → resolveTargetDirForExport E w = (Ok root, w1) →
  runExport E w = (None, w') → listed (serverConfigs E) = [] →
  k ≠ [] → fs w' !! (serversAt ++ k) = None.
Proof.
  intros Hwf Hres Hrun Hnone Hk.
  apply (runExport_success_inv E root Hroot) in Hrun as (w1' & Hres' & -> & _).
  rewrite Hres in Hres'. injection Hres' as <-. rewrite Hnone. simpl written at 1.
  pose proof (resolved_facts E root Hroot _ _ _ Hres) as (_ & (_ & _ & _ & Hwf1) & _ & Hempty).
  rewrite written_other; [|intros y _; unfold entityFile; by apply sub_trees_ne].
  by apply (prepared_servers E root w1 (Hwf1 Hwf) Hempty).
Qed.

End run_files.

(** ** A target that is not empty *)

Section nonempty_target.
Context {G V : Type} (E : environ G V).

Lemma mkdirAll_existing rp w :
  refuse E (length (journal w)) (SysStat (rev rp)) = None →
  os.lookupNode (fs w) (rev rp) = Some Dir →
  os.mkdirAll E rp w
  = (None, World (fs w) (stdout w) (journal w ++ [Sys (SysStat (rev rp)) None])).
Proof.
  intros Href Hdir.
  destruct rp as [|x rp]; simpl in *; unfold bind, os.stat, os.perform;
    rewrite Href; simpl; by rewrite ?Hdir.
Qed.

Lemma readdir_existing p w :
  refuse E (length (journal w)) (SysReadDir p) = None →
  os.lookupNode (fs w) p = Some Dir →
  os.readdir E p w
  = (inr (os.entries (fs w) p),
     World (fs w) (stdout w) (journal w ++ [Sys (SysReadDir p) None])).
Proof. intros Href Hdir. unfold os.readdir, os.perform. by rewrite Href, Hdir. Qed.

End nonempty_target.

(** ** Failures of single writes *)

(** A failed call of [writeJSONConfigFile], in any directory: the
    serialization failed and the world is as before, or a step of
    [os.WriteFile] failed and the file is as this step left it. *)
Lemma writeJSONConfigFile_failure {G V A} `{Marshaler A} (E : environ G V)
    entityDir entityName (entity : A) w err w' :
  writeJSONConfigFile E entityDir entityName entity w = (Some err, w') →
  stdout w' = stdout w ∧
  ((∃ cause, encoding entity = Err cause ∧ w' = w ∧
      err = wrapError ("failed to serialize entity " +:+ entityDir +:+ "/"
                       +:+ entityName +:+ ": ") cause) ∨
   (∃ data op no, encoding entity = Ok data ∧
      err = wrapError ("failed to write entity file "
                       +:+ Join [entityDir; Base entityName +:+ ".json"] +:+ ": ")
              (PathError op (Join [entityDir; Base entityName +:+ ".json"]) no) ∧
      journal w' = journal w
                   ++ [Sys (SysWriteFile
                              (os.locate E (Join [entityDir; Base entityName +:+ ".json"])))
                         (Some no)] ∧
      leftBy op (os.locate E (Join [entityDir; Base entityName +:+ ".json"])) data
        (fs w) (fs w'))).
Proof.
  unfold writeJSONConfigFile, encoding.
  destruct (MarshalIndent entity "" "  ") as [data|cause].
  - unfold os.WriteFile, bind, ret.
    destruct (os.writefile E _ data w) as [res w1] eqn:Hwr.
    apply writefile_inv in Hwr as (Hout & Hj & Hres).
    destruct res as [[op no]|[]]; [|done]. intros [= <- <-]. split; [done|].
    right. by exists data, op, no.
  - intros [= <- <-]. split; [done|]. left. by exists cause.
Qed.

(** ** The order of the external calls *)

Lemma split_at_first {A} (l1 l2 pre post : list A) x :
  l1 ++ l2 = pre ++ x :: post → x ∉ l1 →
  ∃ b, pre = l1 ++ b ∧ l2 = b ++ x :: post.
Proof.
  revert pre. induction l1 as [|y l1 IH]; intros pre Heq Hx.
  - by exists pre.
  - destruct pre as [|z pre]; simpl in Heq.
    + injection Heq as -> _. exfalso. apply Hx. by left.
    + injection Heq as -> Heq. destruct (IH pre Heq) as (b & -> & ->).
      * intros Hin. apply Hx. by right.
      * by exists b.
Qed.

Ltac not_listed H :=
  repeat (apply elem_of_cons in H as [H|H]; [discriminate H|]);
  by apply elem_of_nil in H.

Lemma sysWithin_not_Fetch D new c : Forall (sysWithin D) new → Fetch c ∉ new.
Proof. intros Hnew Hin. rewrite Forall_forall in Hnew. by apply Hnew in Hin. Qed.

Lemma sysWithin_not_below D new call res name :
  Forall (sysWithin D) new → target call = D ++ [name] → Sys call res ∉ new.
Proof.
  intros Hnew Htarget Hin. rewrite Forall_forall in Hnew. apply Hnew in Hin.
  simpl in Hin. rewrite Htarget in Hin. destruct Hin as [k Hk].
  apply (f_equal length) in Hk. rewrite !length_app in Hk. simpl in Hk. lia.
Qed.

Lemma writeWithin_exportEvent D new : Forall (writeWithin D) new → Forall exportEvent new.
Proof.
  intros Hnew. eapply Forall_impl; [exact Hnew|]. intros [[]|]; simpl; tauto.
Qed.

Lemma exportEvent_not_Mkdir new p res : Forall exportEvent new → Sys (SysMkdir p) res ∉ new.
Proof. intros Hnew Hin. rewrite Forall_forall in Hnew. by apply Hnew in Hin. Qed.

Section order.
Context {G V : Type} `{Named G, Marshaler G, Named V, Marshaler V}.
Context (E : environ G V).

Lemma runExport_unresolved err w :
  targetDirCleaned E = Err err →
  runExport E w
  = (Some (wrapError "failed to resolve target directory for export: " err), w).
Proof.
  intros Herr. unfold runExport, prepareSubdirectories, resolveTargetDirForExport, bind, ret.
  by rewrite Herr.
Qed.

Context (root : string) (Hroot : targetDirCleaned E = Ok root).

Local Abbreviation T := (os.locate E root).
Local Abbreviation madeGroups := (Sys (SysMkdir (T ++ [exportToolGroupsDir]))).
Local Abbreviation madeServers := (Sys (SysMkdir (T ++ [exportMcpServersDir]))).

(** The journal of a run: calls about the target directory and the
    directories above it, then the creation of the two subdirectories, which
    ends the run when it fails, then only listing calls and writes. *)
Lemma runExport_journal w r w' :
  runExport E w = (r, w') →
  ∃ n1 tail, journal w' = journal w ++ n1 ++ tail ∧ Forall (sysWithin T) n1 ∧
    ((is_Some r ∧
      (tail = [] ∨ (∃ no, tail = [madeGroups (Some no)]) ∨
       (∃ no, tail = [madeGroups None; madeServers (Some no)]))) ∨
     (∃ rest, tail = madeGroups None :: madeServers None :: rest ∧ Forall exportEvent rest)).
Proof.
  unfold runExport, bind, ret.
  destruct (prepareSubdirectories E w) as [prep w2] eqn:Hprep.
  apply (prepare_inv E root Hroot) in Hprep as (res & w1 & Hres & Hprep).
  apply resolve_inv in Hres. rewrite Hroot in Hres.
  destruct Hres as [(_ & (n1 & Hj1 & Hn1) & _) _].
  intros Hrun. exists n1. revert Hrun. destruct res as [root'|err].
  - destruct Hprep as [(no & -> & ->)|[(no & -> & ->)|[-> ->]]].
    + intros [= <- <-]. eexists. simpl. rewrite Hj1, <- app_assoc.
      split; [done|]. split; [done|]. left. split; [done|]. right. left. by exists no.
    + intros [= <- <-]. eexists. simpl. rewrite Hj1, <- app_assoc.
      split; [done|]. split; [done|]. left. split; [done|]. right. right. by exists no.
    + destruct (exportToolGroups E _ _) as [rg w3] eqn:Hg.
      apply (exportToolGroups_inv E _ (groupsAt_real E root Hroot) _
               (groupsDir_eq E root Hroot)) in Hg as ((_ & ng & _ & Hjg & Hng & _) & _).
      apply writeWithin_exportEvent in Hng.
      destruct rg as [err|].
      * intros [= <- <-]. eexists. rewrite Hjg. simpl. rewrite Hj1, <- !app_assoc.
        split; [done|]. split; [done|]. right. eexists. split; [done|]. by constructor.
      * destruct (exportMcpServers E _ w3) as [rs w4] eqn:Hs.
        apply (exportMcpServers_inv E _ (serversAt_real E root Hroot) _
                 (serversDir_eq E root Hroot)) in Hs as ((_ & ns & _ & Hjs & Hns & _) & _).
        apply writeWithin_exportEvent in Hns.
        assert (journal w4 = journal w ++ n1
                  ++ madeGroups None :: madeServers None
                     :: (Fetch ToolGroup :: ng) ++ Fetch McpServer :: ns) as Hj4.
        { rewrite Hjs, Hjg. simpl. rewrite Hj1, <- !app_assoc. done. }
        assert (Forall exportEvent ((Fetch ToolGroup :: ng) ++ Fetch McpServer :: ns)).
        { apply Forall_app. split; by constructor. }
        destruct rs as [err|]; intros [= <- <-]; eexists; (split; [exact Hj4|]);
          (split; [done|]); right; eexists; by split.
  - destruct Hprep as [-> ->]. intros [= <- <-]. exists []. rewrite app_nil_r.
    split; [done|]. split; [done|]. left. split; [done|]. by left.
Qed.

(** The same, with the worlds: when the two subdirectories were made, they
    were missing after the resolution, and they are directories when each
    listing is called and at the end of the run. *)
Lemma runExport_listing w r w' :
  runExport E w = (r, w') →
  ∃ n1 tail, journal w' = journal w ++ n1 ++ tail ∧ Forall (sysWithin T) n1 ∧
    ((is_Some r ∧
      (tail = [] ∨ (∃ no, tail = [madeGroups (Some no)]) ∨
       (∃ no, tail = [madeGroups None; madeServers (Some no)]))) ∨
     (∃ rest w0, tail = madeGroups None :: madeServers None :: rest ∧
        Forall exportEvent rest ∧
        resolveTargetDirForExport E w = (Ok root, w0) ∧
        journal w0 = journal w ++ n1 ∧
        fs w0 !! (T ++ [exportToolGroupsDir]) = None ∧
        fs w0 !! (T ++ [exportMcpServersDir]) = None ∧
        prepareSubdirectories E w
        = (Ok (Join [root; exportToolGroupsDir], Join [root; exportMcpServersDir]),
           prepared T (creatingLine root) w0) ∧
        (∀ rg w2,
           exportToolGroups E (Join [root; exportToolGroupsDir])
             (prepared T (creatingLine root) w0) = (rg, w2) →
           fs w2 !! (T ++ [exportToolGroupsDir]) = Some Dir ∧
           fs w2 !! (T ++ [exportMcpServersDir]) = Some Dir) ∧
        fs w' !! (T ++ [exportToolGroupsDir]) = Some Dir ∧
        fs w' !! (T ++ [exportMcpServersDir]) = Some Dir)).
Proof.
  unfold runExport, bind, ret.
  destruct (prepareSubdirectories E w) as [prep w2] eqn:Hprep.
  pose proof (prepare_inv E root Hroot _ _ _ Hprep) as (res & w1 & Hres & Hcases).
  pose proof (resolve_inv E _ _ _ Hres) as Hinv. rewrite Hroot in Hinv.
  destruct Hinv as [(_ & (n1 & Hj1 & Hn1) & _) Hok].
  intros Hrun. exists n1. revert Hrun. destruct res as [root'|err].
  - destruct Hok as (-> & _ & Hnone).
    destruct Hcases as [(no & -> & ->)|[(no & -> & ->)|[-> ->]]].
    + intros [= <- <-]. eexists. simpl. rewrite Hj1, <- app_assoc.
      split; [done|]. split; [done|]. left. split; [done|]. right. left. by exists no.
    + intros [= <- <-]. eexists. simpl. rewrite Hj1, <- app_assoc.
      split; [done|]. split; [done|]. left. split; [done|]. right. right. by exists no.
    + fold (creatingLine root) in *.
      destruct (exportToolGroups E _ (prepared T (creatingLine root) w1)) as [rg w3] eqn:Hg.
      pose proof Hg as Hg'.
      apply (exportToolGroups_inv E _ (groupsAt_real E root Hroot) _
               (groupsDir_eq E root Hroot)) in Hg as ((_ & ng & _ & Hjg & Hng & _) & Hframe & _).
      apply writeWithin_exportEvent in Hng.
      assert (fs w3 !! (T ++ [exportToolGroupsDir]) = Some Dir ∧
              fs w3 !! (T ++ [exportMcpServersDir]) = Some Dir) as [Hg3 Hs3].
      { rewrite !Hframe.
        - simpl. rewrite lookup_insert_ne by (by apply sub_ne). by rewrite !lookup_insert_eq.
        - intros leaf Heq. symmetry in Heq. by apply sub_entry_ne_sub in Heq.
        - intros leaf Heq. symmetry in Heq. by apply snoc_ne in Heq. }
      destruct rg as [err|].
      * intros [= <- <-]. eexists. rewrite Hjg. simpl. rewrite Hj1, <- !app_assoc.
        split; [done|]. split; [done|]. right. exists (Fetch ToolGroup :: ng), w1.
        split; [done|]. split; [by constructor|]. split_and!; auto.
        intros rg' w2' Hx. rewrite Hg' in Hx. by injection Hx as <- <-.
      * destruct (exportMcpServers E _ w3) as [rs w4] eqn:Hs.
        apply (exportMcpServers_inv E _ (serversAt_real E root Hroot) _
                 (serversDir_eq E root Hroot)) in Hs
          as ((_ & ns & _ & Hjs & Hns & _) & Hframe' & _).
        apply writeWithin_exportEvent in Hns.
        assert (journal w4 = journal w ++ n1
                  ++ madeGroups None :: madeServers None
                     :: (Fetch ToolGroup :: ng) ++ Fetch McpServer :: ns) as Hj4.
        { rewrite Hjs, Hjg. simpl. rewrite Hj1, <- !app_assoc. done. }
        assert (Forall exportEvent ((Fetch ToolGroup :: ng) ++ Fetch McpServer :: ns)).
        { apply Forall_app. split; by constructor. }
        assert (fs w4 !! (T ++ [exportToolGroupsDir]) = Some Dir ∧
                fs w4 !! (T ++ [exportMcpServersDir]) = Some Dir) as [Hg4 Hs4].
        { rewrite !Hframe'; [done| |].
          - intros leaf Heq. symmetry in Heq. by apply snoc_ne in Heq.
          - intros leaf Heq. symmetry in Heq. by apply sub_entry_ne_sub in Heq. }
        destruct rs as [err|]; intros [= <- <-]; eexists; (split; [exact Hj4|]);
          (split; [done|]); right; eexists _, w1; simpl; split_and!; auto;
          intros rg' w2' Hx; rewrite Hg' in Hx; by injection Hx as <- <-.
  - destruct Hcases as [-> ->]. intros [= <- <-]. exists []. rewrite app_nil_r.
    split; [done|]. split; [done|]. left. split; [done|]. by left.
Qed.

End order.

(** ** Location of joined paths *)

Section location.
Context {G V : Type} (E : environ G V).

(** The kernel finds a cleaned name where it finds the name. *)
Lemma locate_Clean p : p ≠ "" → os.locate E (Clean p) = os.locate E p.
Proof.
  intros Hp. destruct (IsAbs p) eqn:Habs.
  - rewrite Clean_rooted by done. rewrite locate_normalized.
    + unfold os.locate. by rewrite Habs.
    + apply Forall_rev, cleanElems_rooted_real; [done|apply splitSep_elems].
  - unfold os.locate. rewrite Clean_relative, Habs by done.
    by rewrite cleanElems_Clean.
Qed.

Lemma locate_append d x :
  d ≠ "" →
  os.locate E (d +:+ String Separator x)
  = rev (cleanElems true (rev (os.locate E d)) (splitSep x)).
Proof.
  intros Hd. unfold os.locate. rewrite IsAbs_append by done.
  by rewrite splitSep_app, cleanElems_app, rev_involutive.
Qed.

(** The file of an entity is an immediate entry of wherever the kernel finds
    the entity's directory. *)
Lemma locate_Join_leaf entityDir entityName :
  entityDir ≠ "" →
  os.locate E (Join [entityDir; Base entityName +:+ ".json"])
  = os.locate E entityDir ++ [leafName entityName].
Proof.
  intros Hd. rewrite Join_pair by done.
  rewrite locate_Clean by (by destruct entityDir).
  rewrite locate_append by done. unfold leafName. case_decide as Hroot.
  - rewrite Hroot.
    change (splitSep ("/" +:+ ".json")) with ([""; ".json"]).
    change (cleanElems true (rev (os.locate E entityDir)) [""; ".json"])
      with (".json" :: rev (os.locate E entityDir)).
    simpl. by rewrite rev_involutive.
  - assert (realName (Base entityName +:+ ".json")) as Hreal.
    { destruct (Base_cases entityName) as [?|[_ Hsep]]; [done|]. by apply json_suffix_real. }
    rewrite splitSep_noSep by (by apply realName_noSep).
    rewrite (cleanElems_real true _ [_]) by (by apply Forall_singleton).
    simpl. by rewrite rev_involutive.
Qed.

(** A call of [writeJSONConfigFile] touches the file of the entity and
    nothing else. *)
Lemma writeJSONConfigFile_frame {A} `{Marshaler A} entityDir entityName (entity : A) w r w' :
  writeJSONConfigFile E entityDir entityName entity w = (r, w') →
  ∀ k, k ≠ os.locate E (Join [entityDir; Base entityName +:+ ".json"]) →
       fs w' !! k = fs w !! k.
Proof.
  unfold writeJSONConfigFile. destruct (MarshalIndent entity "" "  ") as [data|cause].
  - unfold os.WriteFile, bind, ret.
    destruct (os.writefile E _ data w) as [res w1] eqn:Hwr.
    apply writefile_inv in Hwr as (_ & _ & Hres).
    destruct res as [[op no]|[]]; intros [= <- <-] k Hk; [by eapply leftBy_frame|].
    destruct Hres as (_ & _ & ->). by rewrite lookup_insert_ne.
  - by intros [= <- <-].
Qed.

End location.

(** ** The files of the two categories *)

(** What [prepareSubdirectories] returns are the two subdirectories of the
    cleaned target. *)
Lemma prepared_dirs {G V} (E : environ G V) w groupsDir serversDir w1 :
  prepareSubdirectories E w = (Ok (groupsDir, serversDir), w1) →
  ∃ root, targetDirCleaned E = Ok root ∧
    groupsDir = Join [root; exportToolGroupsDir] ∧
    serversDir = Join [root; exportMcpServersDir].
Proof.
  intros Hprep. destruct (targetDirCleaned E) as [root|err] eqn:Hroot.
  - exists root. split; [done|].
    pose proof (prepare_inv E root Hroot _ _ _ Hprep) as (res & w0 & Hres & Hcases).
    destruct res as [root'|e].
    + by destruct Hcases as [(no & [=] & _)|[(no & [=] & _)|[[= -> ->] _]]].
    + by destruct Hcases as [[=] _].
  - exfalso. revert Hprep.
    unfold prepareSubdirectories, resolveTargetDirForExport, bind, ret. by rewrite Hroot.
Qed.

(** Entities with different base names have different files. *)
Lemma entity_files_differ {G V} (E : environ G V) dir n1 n2 :
  dir ≠ "" → Base n1 ≠ Base n2 →
  os.locate E (Join [dir; Base n1 +:+ ".json"]) ≠ os.locate E (Join [dir; Base n2 +:+ ".json"]).
Proof.
  intros Hd Hne. rewrite !locate_Join_leaf by done. intros Heq%app_inv_head.
  injection Heq as Heq. by apply leafName_eq_iff in Heq.
Qed.

(** The files of the groups are not files of the servers. *)
Lemma category_files_differ {G V} (E : environ G V) root n1 n2 :
  targetDirCleaned E = Ok root →
  os.locate E (Join [Join [root; exportToolGroupsDir]; Base n1 +:+ ".json"])
  ≠ os.locate E (Join [Join [root; exportMcpServersDir]; Base n2 +:+ ".json"]).
Proof.
  intros Hroot.
  rewrite !locate_Join_leaf
    by (rewrite ?(groupsDir_eq E root Hroot), ?(serversDir_eq E root Hroot); done).
  rewrite (groupsDir_locate E root Hroot), (serversDir_locate E root Hroot).
  by apply sub_entry_ne.
Qed.

(** * The claims *)

(** C1. In a run in which the system refuses nothing, from a well-formed file
    system in which the target resolves: when the listing of one category
    fails and the listing of the other gives the encodable entities [a] and
    [b], the run reports success, the files of [a] and [b] exist in the
    subdirectory of their category ([b] in its file, [a] in its file unless
    [b] has the same file), there is nothing below the subdirectory of the
    failed category, and the warning of the failed category, with the error of
    the listing, was printed. *)
Theorem listing_failure_tolerated {G V} `{Named G, Marshaler G, Named V, Marshaler V}
    (E : environ G V) (w w1 : world) (root : string) :
  compliant E → fsWellFormed (fs w) →
  resolveTargetDirForExport E w = (Ok root, w1) →
  (∀ gErr (a b : V),
     toolGroupConfigs E = Err gErr → serverConfigs E = Ok [a; b] →
     encodable a → encodable b →
     ∃ w', runExport E w = (None, w') ∧
       (∃ data, fs w' !! (os.locate E root ++ [exportMcpServersDir; leafName (Name a)])
                = Some (File data) ∧
                (Base (Name a) ≠ Base (Name b) → encoding a = Ok data)) ∧
       (∃ data, fs w' !! (os.locate E root ++ [exportMcpServersDir; leafName (Name b)])
                = Some (File data) ∧ encoding b = Ok data) ∧
       fs w' !! (os.locate E root ++ [exportToolGroupsDir]) = Some Dir ∧
       (∀ k, k ≠ [] → fs w' !! (os.locate E root ++ exportToolGroupsDir :: k) = None) ∧
       warning ToolGroup gErr ∈ stdout w') ∧
  (∀ sErr (a b : G),
     serverConfigs E = Err sErr → toolGroupConfigs E = Ok [a; b] →
     encodable a → encodable b →
     ∃ w', runExport E w = (None, w') ∧
       (∃ data, fs w' !! (os.locate E root ++ [exportToolGroupsDir; leafName (Name a)])
                = Some (File data) ∧
                (Base (Name a) ≠ Base (Name b) → encoding a = Ok data)) ∧
       (∃ data, fs w' !! (os.locate E root ++ [exportToolGroupsDir; leafName (Name b)])
                = Some (File data) ∧ encoding b = Ok data) ∧
       fs w' !! (os.locate E root ++ [exportMcpServersDir]) = Some Dir ∧
       (∀ k, k ≠ [] → fs w' !! (os.locate E root ++ exportMcpServersDir :: k) = None) ∧
       warning McpServer sErr ∈ stdout w').
Proof.
  intros Hc Hwf Hres.
  assert (targetDirCleaned E = Ok root) as Hroot.
  { pose proof (resolve_inv E _ _ _ Hres) as Hinv.
    destruct (targetDirCleaned E) as [p|err]; [|by destruct Hinv].
    by destruct Hinv as (_ & -> & _). }
  split.
  - intros gErr a b Hg Hs Ha Hb.
    destruct (runExport_success E root Hroot w w1) as [w' Hrun]; [done..| | |].
    { by rewrite Hg. } { rewrite Hs. by repeat constructor. }
    exists w'. split; [done|].
    destruct (exported_server_file E root Hroot w w' [a] b [] Hrun Hs) as [Hencb Hfileb].
    { intros y Hy. inversion Hy. }
    unfold entityFile in Hfileb. rewrite <- app_assoc in Hfileb.
    split; [|split; [by exists (encoded b)|split; [|split]]].
    + destruct (decide (Base (Name a) = Base (Name b))) as [Heq|Hne].
      * exists (encoded b). rewrite (proj2 (leafName_eq_iff _ _) Heq). by split.
      * destruct (exported_server_file E root Hroot w w' [] a [b] Hrun Hs) as [Henca Hfilea].
        { intros y ->%list_elem_of_singleton. rewrite leafName_eq_iff. congruence. }
        unfold entityFile in Hfilea. rewrite <- app_assoc in Hfilea. by exists (encoded a).
    + pose proof (runExport_success_inv E root Hroot _ _ Hrun) as (w1' & Hres' & -> & _).
      rewrite Hres in Hres'. injection Hres' as <-. rewrite Hg. simpl written at 2.
      pose proof (resolved_facts E root Hroot _ _ _ Hres)
        as (_ & (_ & _ & _ & Hwf1) & _ & Hempty).
      rewrite written_other.
      * rewrite <- lookupNode_snoc. by apply (prepared_groups E root w1 (Hwf1 Hwf) Hempty).
      * intros y _. unfold entityFile. apply sub_entry_ne_sub.
    + intros k Hk. rewrite (app_assoc _ [exportToolGroupsDir] k).
      eapply (exported_nothing_groups E root Hroot); [done..|by rewrite Hg|done].
    + pose proof (runExport_success_inv E root Hroot _ _ Hrun) as (_ & _ & _ & _ & _ & Hw & _).
      by apply Hw.
  - intros sErr a b Hs Hg Ha Hb.
    destruct (runExport_success E root Hroot w w1) as [w' Hrun]; [done..| | |].
    { rewrite Hg. by repeat constructor. } { by rewrite Hs. }
    exists w'. split; [done|].
    destruct (exported_group_file E root Hroot w w' [a] b [] Hrun Hg) as [Hencb Hfileb].
    { intros y Hy. inversion Hy. }
    unfold entityFile in Hfileb. rewrite <- app_assoc in Hfileb.
    split; [|split; [by exists (encoded b)|split; [|split]]].
    + destruct (decide (Base (Name a) = Base (Name b))) as [Heq|Hne].
      * exists (encoded b). rewrite (proj2 (leafName_eq_iff _ _) Heq). by split.
      * destruct (exported_group_file E root Hroot w w' [] a [b] Hrun Hg) as [Henca Hfilea].
        { intros y ->%list_elem_of_singleton. rewrite leafName_eq_iff. congruence. }
        unfold entityFile in Hfilea. rewrite <- app_assoc in Hfilea. by exists (encoded a).
    + pose proof (runExport_success_inv E root Hroot _ _ Hrun) as (w1' & Hres' & -> & _).
      rewrite Hres in Hres'. injection Hres' as <-. rewrite Hs. simpl written at 1.
      pose proof (resolved_facts E root Hroot _ _ _ Hres)
        as (_ & (_ & _ & _ & Hwf1) & _ & Hempty).
      rewrite written_other.
      * rewrite <- lookupNode_snoc. by apply (prepared_servers E root w1 (Hwf1 Hwf) Hempty).
      * intros y _. unfold entityFile. apply sub_entry_ne_sub.
    + intros k Hk. rewrite (app_assoc _ [exportMcpServersDir] k).
      eapply (exported_nothing_servers E root Hroot); [done..|by rewrite Hs|done].
    + pose proof (runExport_success_inv E root Hroot _ _ Hrun) as (_ & _ & _ & _ & _ & _ & Hw).
      by apply Hw.
Qed.

Lemma listing_failure_tolerated_witness :
  let E := sampleEnviron "/t" "/home/u" (Err (errorString "connection refused"))
             (Ok [serverA; serverB]) in
  ∃ w', runExport E emptyWorld = (None, w') ∧
    fs w' !! ["t"; "servers"; "A.json"] = Some (File (encoded serverA)) ∧
    fs w' !! ["t"; "servers"; "B.json"] = Some (File (encoded serverB)) ∧
    (∀ k, k ≠ [] → fs w' !! (["t"; "groups"] ++ k) = None) ∧
    "warning: failed to fetch tool group configurations: connection refused" +:+ LF
    ∈ stdout w'.
Proof.
  intros E.
  destruct (listing_failure_tolerated E emptyWorld
              (resolveTargetDirForExport E emptyWorld).2 "/t") as [Hgroups _].
  - apply sampleEnviron_compliant.
  - apply fsWellFormed_empty.
  - vm_compute. reflexivity.
  - destruct (Hgroups (errorString "connection refused") serverA serverB)
      as (w' & Hrun & (da & Ha & Hda) & (db & Hb & Hdb) & _ & Hnone & Hwarn);
      [reflexivity|reflexivity|eexists; reflexivity|eexists; reflexivity|].
    exists w'. split; [exact Hrun|].
    assert (encoding serverA = Ok da) as Hda' by (apply Hda; discriminate).
    injection Hda' as <-. injection Hdb as <-.
    split; [exact Ha|]. split; [exact Hb|]. split; [exact Hnone|exact Hwarn].
Defined.

(** C2. When the resolved target directory exists already and holds at least
    one entry (and the system answers the two calls that look at it),
    resolution fails with the error that names the directory as not empty,
    the run returns this error wrapped, and the file system is as before: no
    file or subdirectory was created or changed.  In any case all that
    resolution may do to the file system is to add the target directory and
    missing directories above it. *)
Theorem nonempty_target_rejected {G V} `{Named G, Marshaler G, Named V, Marshaler V}
    (E : environ G V) (w : world) (root : string) :
  targetDirCleaned E = Ok root →
  os.lookupNode (fs w) (os.locate E root) = Some Dir →
  (∃ name, is_Some (fs w !! (os.locate E root ++ [name]))) →
  refuse E (length (journal w)) (SysStat (os.locate E root)) = None →
  refuse E (S (length (journal w))) (SysReadDir (os.locate E root)) = None →
  (∃ w',
     resolveTargetDirForExport E w
     = (Err (errorString ("target directory " +:+ root +:+ " is not empty")), w') ∧
     runExport E w
     = (Some (wrapError "failed to resolve target directory for export: "
                (errorString ("target directory " +:+ root +:+ " is not empty"))), w') ∧
     fs w' = fs w ∧ stdout w' = stdout w ∧
     journal w' = journal w ++ [Sys (SysStat (os.locate E root)) None;
                                Sys (SysReadDir (os.locate E root)) None]) ∧
  (∀ w0 r w0', resolveTargetDirForExport E w0 = (r, w0') →
     onlyAddsDirs (os.locate E root) (fs w0) (fs w0')).
Proof.
  intros Hroot Hdir [name [n Hentry]] Hstat Hread. split.
  - assert (resolveTargetDirForExport E w
            = (Err (errorString ("target directory " +:+ root +:+ " is not empty")),
               World (fs w) (stdout w)
                 (journal w ++ [Sys (SysStat (os.locate E root)) None;
                                Sys (SysReadDir (os.locate E root)) None]))) as Hres.
    { unfold resolveTargetDirForExport. rewrite Hroot.
      unfold os.MkdirAll, os.ReadDir, bind, ret.
      rewrite mkdirAll_existing; rewrite rev_involutive; [|done..].
      rewrite readdir_existing; simpl; [|by rewrite length_app, Nat.add_1_r|done].
      rewrite decide_True.
      - by rewrite <- app_assoc.
      - destruct (os.entries (fs w) (os.locate E root)) eqn:Hnil; [|simpl; lia].
        apply (entries_nil _ _ name) in Hnil. congruence. }
    eexists. split; [done|]. split; [|done].
    unfold runExport, prepareSubdirectories, bind, ret. by rewrite Hres.
  - intros w0 r w0' Hres. apply resolve_inv in Hres. rewrite Hroot in Hres.
    by destruct Hres as [(_ & _ & ? & _) _].
Qed.

Lemma nonempty_target_rejected_witness :
  let E := sampleEnviron "/t" "/home/u" (Ok [prodGroup]) (Ok [serverA]) in
  ∃ w', runExport E occupiedWorld
        = (Some (wrapError "failed to resolve target directory for export: "
                   (errorString "target directory /t is not empty")), w') ∧
        fs w' = fs occupiedWorld.
Proof.
  intros E.
  destruct (nonempty_target_rejected E occupiedWorld "/t")
    as [(w' & _ & Hrun & Hfs & _) _].
  - reflexivity.
  - reflexivity.
  - exists "test.txt". eexists. reflexivity.
  - reflexivity.
  - reflexivity.
  - exists w'. split; [exact Hrun|exact Hfs].
Defined.

(** C3, as the code has it.  For an input that starts with [~] and is neither
    [~] nor prefixed by [~/]: when the home directory can be determined the
    input is left untouched and resolved as an ordinary relative path; when it
    cannot, resolution fails with the error of the lookup, although nothing is
    expanded. *)
Theorem tilde_other_form {G V} (E : environ G V) :
  strings.HasPrefix (exportCmdTargetDir E) "~" = true →
  exportCmdTargetDir E ≠ "~" →
  strings.HasPrefix (exportCmdTargetDir E) "~/" = false →
  (HOME E ≠ "" →
     targetDirExpanded E = Ok (exportCmdTargetDir E) ∧
     targetDirCleaned E = match os.Getwd E with
                          | Ok wd => Ok (Clean (Join [wd; exportCmdTargetDir E]))
                          | Err err => Err err
                          end) ∧
  (HOME E = "" →
     targetDirExpanded E = Err (errorString "$HOME is not defined") ∧
     targetDirCleaned E = Err (errorString "$HOME is not defined")).
Proof.
  intros Htilde Hne Hslash.
  assert (exportCmdTargetDir E ≠ "") as Hne0 by (by intros Heq; rewrite Heq in Htilde).
  assert (IsAbs (exportCmdTargetDir E) = false) as Hrel.
  { apply HasPrefix_inv in Htilde as (t & -> & _).
    unfold IsAbs. by rewrite HasPrefix_String_ne. }
  split; intros Hhome.
  - assert (targetDirExpanded E = Ok (exportCmdTargetDir E)) as Hexp.
    { unfold targetDirExpanded, os.UserHomeDir.
      rewrite (decide_False (P := exportCmdTargetDir E = "")) by done.
      rewrite Htilde, Hslash. by rewrite !decide_False. }
    split; [done|]. unfold targetDirCleaned. rewrite Hexp. unfold Abs. rewrite Hrel.
    by destruct (os.Getwd E).
  - assert (targetDirExpanded E = Err (errorString "$HOME is not defined")) as Hexp.
    { unfold targetDirExpanded, os.UserHomeDir.
      rewrite (decide_False (P := exportCmdTargetDir E = "")) by done.
      rewrite Htilde. by rewrite decide_True. }
    split; [done|]. unfold targetDirCleaned. by rewrite Hexp.
Qed.

Lemma tilde_other_form_witness :
  targetDirCleaned (sampleEnviron "~foo" "/home/u" (Ok []) (Ok [])) = Ok "/work/~foo".
Proof.
  pose proof (tilde_other_form (sampleEnviron "~foo" "/home/u" (Ok []) (Ok [])))
    as Hform.
  destruct Hform as [Hset _]; [reflexivity|discriminate|reflexivity|].
  destruct Hset as [_ Hcleaned]; [discriminate|].
  rewrite Hcleaned. reflexivity.
Defined.

(** C3 as stated fails: with [HOME] unset, the input [~foo], for which no
    expansion is requested, makes resolution fail with the error of the home
    lookup. *)
Lemma home_failure_without_expansion :
  let E := sampleEnviron "~foo" "" (Ok []) (Ok []) in
  exportCmdTargetDir E ≠ "~" ∧
  strings.HasPrefix (exportCmdTargetDir E) "~/" = false ∧
  targetDirCleaned E = Err (errorString "$HOME is not defined") ∧
  ∀ w, resolveTargetDirForExport E w = (Err (errorString "$HOME is not defined"), w).
Proof. repeat split; discriminate. Qed.

(** C4, as the code has it.  With the home directory [home] determined: the
    input [~] expands to exactly [home]; the input [~/rest] expands to
    [filepath.Join(home, rest)], which is [home/rest] cleaned already, so that
    [rest] is kept verbatim only when [home/rest] is a clean path; after
    "make absolute and clean" the path is the one that [home/rest] verbatim
    gives. *)
Theorem tilde_expansion {G V} (E : environ G V) :
  HOME E ≠ "" →
  (exportCmdTargetDir E = "~" →
     targetDirExpanded E = Ok (HOME E) ∧
     (normalizedAbs (HOME E) → targetDirCleaned E = Ok (HOME E))) ∧
  (∀ rest, exportCmdTargetDir E = "~/" +:+ rest →
     targetDirExpanded E = Ok (Clean (HOME E +:+ "/" +:+ rest)) ∧
     (normalizedAbs (HOME E +:+ "/" +:+ rest) →
        targetDirExpanded E = Ok (HOME E +:+ "/" +:+ rest)) ∧
     targetDirCleaned E = match Abs E (HOME E +:+ "/" +:+ rest) with
                          | Ok absDir => Ok (Clean absDir)
                          | Err err => Err err
                          end).
Proof.
  intros Hhome. split.
  - intros Hin.
    assert (targetDirExpanded E = Ok (HOME E)) as Hexp.
    { unfold targetDirExpanded, os.UserHomeDir. rewrite Hin. simpl.
      by rewrite decide_False. }
    split; [done|]. intros Hn. unfold targetDirCleaned, Abs. rewrite Hexp.
    rewrite (normalizedAbs_IsAbs _ Hn). by rewrite !(Clean_fixes_normalizedAbs (HOME E)) by done.
  - intros rest Hin.
    assert (targetDirExpanded E = Ok (Clean (HOME E +:+ "/" +:+ rest))) as Hexp.
    { unfold targetDirExpanded, os.UserHomeDir. rewrite Hin. simpl.
      rewrite decide_False by done. rewrite HasPrefix_empty, sliceFrom_0.
      by rewrite Join_pair. }
    split; [done|]. split.
    + intros Hn. by rewrite Hexp, Clean_fixes_normalizedAbs.
    + unfold targetDirCleaned. rewrite Hexp. apply Abs_Clean. by destruct (HOME E).
Qed.

Lemma tilde_expansion_witness :
  targetDirCleaned (sampleEnviron "~/a//b/../c" "/home/u" (Ok []) (Ok [])) = Ok "/home/u/a/c".
Proof.
  pose proof (tilde_expansion (sampleEnviron "~/a//b/../c" "/home/u" (Ok []) (Ok [])))
    as Hexp.
  destruct Hexp as [_ Hrest]; [discriminate|].
  destruct (Hrest "a//b/../c") as (_ & _ & Hcleaned); [reflexivity|].
  rewrite Hcleaned. reflexivity.
Defined.

(** C4 as stated fails: for the input [~/a//b] the path before "make absolute
    and clean" is [/home/u/a/b], not [home + "/" + rest] with [rest]
    verbatim. *)
Lemma tilde_rest_not_verbatim :
  let E := sampleEnviron "~/a//b" "/home/u" (Ok []) (Ok []) in
  exportCmdTargetDir E = "~/" +:+ "a//b" ∧
  targetDirExpanded E = Ok "/home/u/a/b" ∧
  targetDirExpanded E ≠ Ok (HOME E +:+ "/" +:+ "a//b").
Proof. repeat split; discriminate. Qed.

(** C5, as the code has it.  Once the subdirectories are there: when the
    write of an entity fails (its serialization or a step of the write of its
    file), the run returns the error of this write at once, in the world that
    the failed write left, and nothing later is attempted.  Nothing is rolled
    back: every path other than the file of the failing entity holds what the
    earlier writes had produced, so the files of the entities with another
    file name and the files of the earlier category are unchanged.  The file
    of the failing entity itself is as the failed step left it: as before when
    the serialization or the open failed, and truncated to the bytes written
    so far when the write failed after the open, also when an earlier entity
    of the same file name had written it. *)
Theorem write_failure_aborts {G V} `{Named G, Marshaler G, Named V, Marshaler V}
    (E : environ G V) (w w1 : world) (groupsDir serversDir : string) :
  prepareSubdirectories E w = (Ok (groupsDir, serversDir), w1) →
  (∀ pre x post w2 err w3,
     toolGroupConfigs E = Ok (pre ++ x :: post) →
     writeEach E groupsDir pre
       (announced ["Fetching Tool Group configurations..." +:+ LF;
                   "Writing Tool Groups configurations to " +:+ groupsDir +:+ LF]
          (Fetch ToolGroup) w1) = (None, w2) →
     writeJSONConfigFile E groupsDir (Name x) x w2 = (Some err, w3) →
     runExport E w = (Some err, w3) ∧ stdout w3 = stdout w2 ∧
     (∀ k, k ≠ os.locate E (Join [groupsDir; Base (Name x) +:+ ".json"]) →
           fs w3 !! k = fs w2 !! k) ∧
     (∀ name, Base name ≠ Base (Name x) →
              fs w3 !! os.locate E (Join [groupsDir; Base name +:+ ".json"])
              = fs w2 !! os.locate E (Join [groupsDir; Base name +:+ ".json"])) ∧
     ((∃ cause, encoding x = Err cause ∧ w3 = w2) ∨
      (∃ data op no, encoding x = Ok data ∧
         err = wrapError ("failed to write entity file "
                          +:+ Join [groupsDir; Base (Name x) +:+ ".json"] +:+ ": ")
                 (PathError op (Join [groupsDir; Base (Name x) +:+ ".json"]) no) ∧
         leftBy op (os.locate E (Join [groupsDir; Base (Name x) +:+ ".json"])) data
           (fs w2) (fs w3)))) ∧
  (∀ w2 pre x post w3 err w4,
     exportToolGroups E groupsDir w1 = (None, w2) →
     serverConfigs E = Ok (pre ++ x :: post) →
     writeEach E serversDir pre
       (announced ["Fetching MCP Server configurations..." +:+ LF;
                   "Writing MCP Server configurations to " +:+ serversDir +:+ LF]
          (Fetch McpServer) w2) = (None, w3) →
     writeJSONConfigFile E serversDir (Name x) x w3 = (Some err, w4) →
     runExport E w = (Some err, w4) ∧ stdout w4 = stdout w3 ∧
     (∀ k, k ≠ os.locate E (Join [serversDir; Base (Name x) +:+ ".json"]) →
           fs w4 !! k = fs w3 !! k) ∧
     (∀ name, Base name ≠ Base (Name x) →
              fs w4 !! os.locate E (Join [serversDir; Base name +:+ ".json"])
              = fs w3 !! os.locate E (Join [serversDir; Base name +:+ ".json"])) ∧
     (∀ name, fs w4 !! os.locate E (Join [groupsDir; Base name +:+ ".json"])
              = fs w3 !! os.locate E (Join [groupsDir; Base name +:+ ".json"])) ∧
     ((∃ cause, encoding x = Err cause ∧ w4 = w3) ∨
      (∃ data op no, encoding x = Ok data ∧
         err = wrapError ("failed to write entity file "
                          +:+ Join [serversDir; Base (Name x) +:+ ".json"] +:+ ": ")
                 (PathError op (Join [serversDir; Base (Name x) +:+ ".json"]) no) ∧
         leftBy op (os.locate E (Join [serversDir; Base (Name x) +:+ ".json"])) data
           (fs w3) (fs w4)))).
Proof.
  intros Hprep.
  destruct (prepared_dirs E _ _ _ _ Hprep) as (root & Hroot & Hgroups & Hservers).
  assert (groupsDir ≠ "" ∧ serversDir ≠ "") as [Hg Hs].
  { rewrite Hgroups, Hservers, (groupsDir_eq E root Hroot), (serversDir_eq E root Hroot).
    done. }
  assert (∀ (A : Type) `(Marshaler A) dir name (x : A) wa err wb,
            dir ≠ "" →
            writeJSONConfigFile E dir name x wa = (Some err, wb) →
            stdout wb = stdout wa ∧
            (∀ k, k ≠ os.locate E (Join [dir; Base name +:+ ".json"]) →
                  fs wb !! k = fs wa !! k) ∧
            (∀ other, Base other ≠ Base name →
                      fs wb !! os.locate E (Join [dir; Base other +:+ ".json"])
                      = fs wa !! os.locate E (Join [dir; Base other +:+ ".json"])) ∧
            ((∃ cause, encoding x = Err cause ∧ wb = wa) ∨
             (∃ data op no, encoding x = Ok data ∧
                err = wrapError ("failed to write entity file "
                                 +:+ Join [dir; Base name +:+ ".json"] +:+ ": ")
                        (PathError op (Join [dir; Base name +:+ ".json"]) no) ∧
                leftBy op (os.locate E (Join [dir; Base name +:+ ".json"])) data
                  (fs wa) (fs wb)))) as Hfail.
  { intros A HA dir name x wa err wb Hdir Hx.
    pose proof (writeJSONConfigFile_frame E _ _ _ _ _ _ Hx) as Hframe.
    apply writeJSONConfigFile_failure in Hx
      as (Hout & [(cause & Hc & -> & _)|(data & op & no & Hd & -> & _ & Hleft)]).
    - split; [done|]. split; [done|]. split; [done|]. left. by exists cause.
    - split; [done|]. split; [done|].
      split; [intros other Hother; by apply Hframe, entity_files_differ|].
      right. by exists data, op, no. }
  split.
  - intros pre x post w2 err w3 Hlist Hpre Hx.
    split; [|by eapply Hfail].
    unfold runExport, bind, ret. rewrite Hprep, exportToolGroups_eq, Hlist.
    rewrite (writeEach_abort E groupsDir pre x post _ w2 err w3 Hpre Hx).
    by destruct pre.
  - intros w2 pre x post w3 err w4 Hgroups' Hlist Hpre Hx.
    split.
    { unfold runExport, bind, ret. rewrite Hprep, Hgroups', exportMcpServers_eq, Hlist.
      rewrite (writeEach_abort E serversDir pre x post _ w3 err w4 Hpre Hx).
      by destruct pre. }
    destruct (Hfail _ _ serversDir (Name x) x w3 err w4 Hs Hx)
      as (Hout & Hframe & Hothers & Hfile).
    split; [done|]. split; [done|]. split; [done|]. split; [|done].
    intros name. apply Hframe. rewrite Hgroups, Hservers.
    by apply category_files_differ.
Qed.

Lemma write_failure_aborts_witness :
  let E := sampleEnviron "/t" "/home/u" (Ok [prodGroup])
             (Ok [serverA; unencodable; serverB]) in
  (runExport E emptyWorld).1
  = Some (wrapError "failed to serialize entity /t/servers/C: "
            (errorString "json: unsupported value")) ∧
  fs (runExport E emptyWorld).2 !! ["t"; "groups"; "prod-group.json"]
  = Some (File (encoded prodGroup)) ∧
  fs (runExport E emptyWorld).2 !! ["t"; "servers"; "A.json"] = Some (File (encoded serverA)) ∧
  fs (runExport E emptyWorld).2 !! ["t"; "servers"; "B.json"] = None.
Proof.
  intros E.
  pose (w1 := (prepareSubdirectories E emptyWorld).2).
  pose (w2 := (exportToolGroups E "/t/groups" w1).2).
  pose (w3 := (writeEach E "/t/servers" [serverA]
                 (announced ["Fetching MCP Server configurations..." +:+ LF;
                             "Writing MCP Server configurations to " +:+ "/t/servers" +:+ LF]
                    (Fetch McpServer) w2)).2).
  destruct (write_failure_aborts E emptyWorld w1 "/t/groups" "/t/servers") as [_ Hservers];
    [vm_compute; reflexivity|].
  destruct (Hservers w2 [serverA] unencodable [serverB] w3
              (wrapError "failed to serialize entity /t/servers/C: "
                 (errorString "json: unsupported value")) w3) as (Hrun & _);
    [vm_compute; reflexivity..|].
  rewrite Hrun. vm_compute. repeat split.
Defined.

(** C5 as stated fails: the second of two groups with the same file name
    ([A] and [team/A]) is written after the first; when its write is refused
    after the open (here with [ENOSPC], no byte written), the run returns this
    error and the file that the first group had written is left empty. *)
Lemma failed_write_truncates_earlier_file :
  let E := failingEnviron 8 (AtWrite 0) "/t" (Ok [serverA; otherA]) (Ok []) in
  let before :=
    (writeEach E "/t/groups" [serverA]
       (announced ["Fetching Tool Group configurations..." +:+ LF;
                   "Writing Tool Groups configurations to " +:+ "/t/groups" +:+ LF]
          (Fetch ToolGroup) (prepareSubdirectories E emptyWorld).2)).2 in
  fs before !! ["t"; "groups"; "A.json"] = Some (File (encoded serverA)) ∧
  (writeJSONConfigFile E "/t/groups" (Name otherA) otherA before).1
  = Some (wrapError "failed to write entity file /t/groups/A.json: "
            (PathError "write" "/t/groups/A.json" ENOSPC)) ∧
  runExport E emptyWorld
  = (writeJSONConfigFile E "/t/groups" (Name otherA) otherA before) ∧
  fs (runExport E emptyWorld).2 !! ["t"; "groups"; "A.json"] = Some (File "") ∧
  encoded serverA ≠ "".
Proof. vm_compute. repeat split. discriminate. Qed.

(** A write that the system refuses at the open ends the run in the same way
    and leaves no file. *)
Example refused_write_aborts :
  let E := refusingEnviron (SysWriteFile ["t"; "servers"; "B.json"]) "/t" "/home/u"
             (Ok [prodGroup]) (Ok [serverA; serverB; otherA]) in
  (runExport E emptyWorld).1
  = Some (wrapError "failed to write entity file /t/servers/B.json: "
            (PathError "open" "/t/servers/B.json" EACCES)) ∧
  fs (runExport E emptyWorld).2 !! ["t"; "servers"; "A.json"] = Some (File (encoded serverA)) ∧
  fs (runExport E emptyWorld).2 !! ["t"; "servers"; "B.json"] = None.
Proof. vm_compute. repeat split. Qed.

(** C6. In every run, a listing call of the API client comes after the
    creation of the subdirectory [groups] and then of the subdirectory
    [servers] of the resolved target, with no listing call before them: the
    two calls of [os.Mkdir] stand before it in the journal and returned no
    error; the two directories, which were missing after the resolution, are
    directories of the file system that [prepareSubdirectories] leaves (in
    which the listing of the tool groups is called), of the one that
    [exportToolGroups] leaves (in which the listing of the servers is called)
    and of the one at the end of the run.  And when the creation of one of the
    two subdirectories fails, the run returns an error and its journal has no
    listing call. *)
Theorem subdirectories_before_fetch {G V} `{Named G, Marshaler G, Named V, Marshaler V}
    (E : environ G V) (w : world) (r : option error) (w' : world) :
  runExport E w = (r, w') →
  ∃ new, journal w' = journal w ++ new ∧
    (∀ pre c post, new = pre ++ Fetch c :: post →
       ∃ root before after,
         targetDirCleaned E = Ok root ∧
         pre = before
               ++ Sys (SysMkdir (os.locate E root ++ [exportToolGroupsDir])) None
               :: Sys (SysMkdir (os.locate E root ++ [exportMcpServersDir])) None
               :: after ∧
         (∀ c', Fetch c' ∉ before) ∧
         ∃ w0 w1,
           resolveTargetDirForExport E w = (Ok root, w0) ∧
           fs w0 !! (os.locate E root ++ [exportToolGroupsDir]) = None ∧
           fs w0 !! (os.locate E root ++ [exportMcpServersDir]) = None ∧
           prepareSubdirectories E w
           = (Ok (Join [root; exportToolGroupsDir], Join [root; exportMcpServersDir]), w1) ∧
           journal w1
           = journal w ++ before
             ++ [Sys (SysMkdir (os.locate E root ++ [exportToolGroupsDir])) None;
                 Sys (SysMkdir (os.locate E root ++ [exportMcpServersDir])) None] ∧
           fs w1 = <[os.locate E root ++ [exportMcpServersDir] := Dir]>
                     (<[os.locate E root ++ [exportToolGroupsDir] := Dir]> (fs w0)) ∧
           (∀ rg w2,
              exportToolGroups E (Join [root; exportToolGroupsDir]) w1 = (rg, w2) →
              fs w2 !! (os.locate E root ++ [exportToolGroupsDir]) = Some Dir ∧
              fs w2 !! (os.locate E root ++ [exportMcpServersDir]) = Some Dir) ∧
           fs w' !! (os.locate E root ++ [exportToolGroupsDir]) = Some Dir ∧
           fs w' !! (os.locate E root ++ [exportMcpServersDir]) = Some Dir) ∧
    (∀ root sub no,
       targetDirCleaned E = Ok root →
       sub = exportToolGroupsDir ∨ sub = exportMcpServersDir →
       Sys (SysMkdir (os.locate E root ++ [sub])) (Some no) ∈ new →
       is_Some r ∧ ∀ c, Fetch c ∉ new).
Proof.
  intros Hrun. destruct (targetDirCleaned E) as [root|err] eqn:Hroot.
  - pose proof (runExport_listing E root Hroot w r w' Hrun) as (n1 & tail & Hj & Hn1 & Htail).
    exists (n1 ++ tail). split; [done|]. split.
    + intros pre c post Heq.
      destruct Htail
        as [[_ Hfailed]
           |(rest & w0 & -> & Hrest & Hres & Hj0 & Hng & Hns & Hprep & Hkept & Hg & Hs)].
      * exfalso.
        assert (Fetch c ∈ n1 ++ tail) as Hin.
        { rewrite Heq. apply elem_of_app. right. by left. }
        apply elem_of_app in Hin as [Hin|Hin]; [by eapply sysWithin_not_Fetch|].
        destruct Hfailed as [->|[[no ->]|[no ->]]]; not_listed Hin.
      * change (n1 ++ Sys (SysMkdir (os.locate E root ++ [exportToolGroupsDir])) None
                   :: Sys (SysMkdir (os.locate E root ++ [exportMcpServersDir])) None :: rest)
          with (n1 ++ [Sys (SysMkdir (os.locate E root ++ [exportToolGroupsDir])) None;
                       Sys (SysMkdir (os.locate E root ++ [exportMcpServersDir])) None]
                   ++ rest) in Heq.
        rewrite app_assoc in Heq.
        apply split_at_first in Heq as (b & -> & _).
        -- exists root, n1, b. split; [done|]. split; [by rewrite <- app_assoc|].
           split; [intros c'; by eapply sysWithin_not_Fetch|].
           exists w0, (prepared (os.locate E root) (creatingLine root) w0).
           split_and!; try done. simpl. by rewrite Hj0, <- app_assoc.
        -- intros [Hin|Hin]%elem_of_app; [by eapply sysWithin_not_Fetch|]. not_listed Hin.
    + intros root' sub no [= <-] Hsub Hin.
      assert (Sys (SysMkdir (os.locate E root ++ [sub])) (Some no) ∉ n1) as Hn1'.
      { by eapply sysWithin_not_below. }
      apply elem_of_app in Hin as [Hin|Hin]; [done|].
      destruct Htail as [[Hr Hfailed]|(rest & w0 & -> & Hrest & _)].
      * split; [done|]. intros c [Hc|Hc]%elem_of_app; [by eapply sysWithin_not_Fetch|].
        destruct Hfailed as [->|[[no' ->]|[no' ->]]]; not_listed Hc.
      * exfalso. apply elem_of_cons in Hin as [[=]|Hin].
        apply elem_of_cons in Hin as [[=]|Hin].
        by eapply exportEvent_not_Mkdir.
  - rewrite (runExport_unresolved E err w Hroot) in Hrun. injection Hrun as <- <-.
    exists []. split; [by rewrite app_nil_r|]. split.
    + intros pre c post Heq. by destruct pre.
    + intros root sub no [=].
Qed.

Lemma subdirectories_before_fetch_witness :
  let E := refusingEnviron (SysMkdir ["t"; "servers"]) "/t" "/home/u"
             (Ok [prodGroup]) (Ok [serverA]) in
  let E' := sampleEnviron "/t" "/home/u" (Ok [prodGroup]) (Ok [serverA]) in
  (runExport E emptyWorld).1
  = Some (wrapError "failed to create mcp servers directory: "
            (PathError "mkdir" "/t/servers" EACCES)) ∧
  (∀ c, Fetch c ∉ journal (runExport E emptyWorld).2) ∧
  fs (runExport E' emptyWorld).2 !! ["t"; "groups"] = Some Dir ∧
  fs (runExport E' emptyWorld).2 !! ["t"; "servers"] = Some Dir.
Proof.
  intros E E'. split; [reflexivity|]. split.
  - destruct (subdirectories_before_fetch E emptyWorld (runExport E emptyWorld).1
                (runExport E emptyWorld).2) as (new & Hj & _ & Hfailed);
      [vm_compute; reflexivity|].
    simpl in Hj. rewrite Hj.
    apply (Hfailed "/t" "servers" EACCES); [reflexivity|by right|].
    rewrite <- Hj. vm_compute. repeat constructor.
  - destruct (subdirectories_before_fetch E' emptyWorld (runExport E' emptyWorld).1
                (runExport E' emptyWorld).2) as (new & Hj & Hlisted & _);
      [vm_compute; reflexivity|].
    simpl in Hj.
    destruct (Hlisted [Sys (SysStat ["t"]) (Some ENOENT); Sys (SysStat []) None;
                       Sys (SysMkdir ["t"]) None; Sys (SysReadDir ["t"]) None;
                       Sys (SysMkdir ["t"; "groups"]) None;
                       Sys (SysMkdir ["t"; "servers"]) None]
                ToolGroup
                [Sys (SysWriteFile ["t"; "groups"; "prod-group.json"]) None;
                 Fetch McpServer; Sys (SysWriteFile ["t"; "servers"; "A.json"]) None])
      as (root & before & after & Hroot & _ & _ & w0 & w1 & Hfacts).
    { rewrite <- Hj. vm_compute. reflexivity. }
    vm_compute in Hroot. injection Hroot as <-.
    destruct Hfacts as (_ & _ & _ & _ & _ & _ & _ & Hg & Hs).
    split; [exact Hg|exact Hs].
Defined.

(** In a run without failure the journal shows the order. *)
Example journal_of_a_run :
  let E := sampleEnviron "/t" "/home/u" (Ok [prodGroup]) (Ok [serverA]) in
  journal (runExport E emptyWorld).2
  = [Sys (SysStat ["t"]) (Some ENOENT); Sys (SysStat []) None; Sys (SysMkdir ["t"]) None;
     Sys (SysReadDir ["t"]) None;
     Sys (SysMkdir ["t"; "groups"]) None; Sys (SysMkdir ["t"; "servers"]) None;
     Fetch ToolGroup; Sys (SysWriteFile ["t"; "groups"; "prod-group.json"]) None;
     Fetch McpServer; Sys (SysWriteFile ["t"; "servers"; "A.json"]) None].
Proof. vm_compute. reflexivity. Qed.

(** C7. Whatever the input (with or without [.] and [..] segments or repeated
    separators), the path that resolution computes is absolute and lexically
    normalized: the root followed by names, none of them empty, [.] or [..],
    and cleaning it again changes nothing.  The computation reads the input,
    [HOME] and the working directory only, never the file system, and a
    resolution that succeeds returns this very path. *)
Theorem resolved_path_normalized {G V} (E : environ G V) (p : string) :
  targetDirCleaned E = Ok p →
  IsAbs p = true ∧ normalizedAbs p ∧ Clean p = p ∧
  (∀ e, e ∈ splitSep p → e ≠ "." ∧ e ≠ "..") ∧
  (p = "/" ∨ ∀ e, e ∈ List.tail (splitSep p) → e ≠ "") ∧
  (∀ w q w', resolveTargetDirForExport E w = (Ok q, w') → q = p).
Proof.
  intros Hp. apply targetDirCleaned_normalizedAbs in Hp as Hn.
  assert (∀ w q w', resolveTargetDirForExport E w = (Ok q, w') → q = p) as Hreturned.
  { intros w q w' Hres. apply resolve_inv in Hres. rewrite Hp in Hres.
    by destruct Hres as [_ [-> _]]. }
  split; [by apply normalizedAbs_IsAbs|]. split; [done|].
  split; [by apply Clean_fixes_normalizedAbs|].
  destruct Hn as (names & -> & Hn). rewrite splitSep_normalizedAbs by done.
  rewrite Forall_forall in Hn. split; [|split; [|done]].
  - intros e [->|He]%elem_of_cons; [done|].
    case_decide; [by apply list_elem_of_singleton in He as ->|].
    destruct (Hn e) as (? & ? & ? & _); done.
  - case_decide as Hnil; [left; by subst|right]. simpl. intros e He.
    destruct (Hn e) as (? & ? & ? & _); done.
Qed.

Lemma resolved_path_normalized_witness :
  let E := sampleEnviron "/tmp/test/../test/./export//" "/home/u" (Ok []) (Ok []) in
  targetDirCleaned E = Ok "/tmp/test/export" ∧ Clean "/tmp/test/export" = "/tmp/test/export".
Proof.
  split; [reflexivity|].
  apply (resolved_path_normalized
           (sampleEnviron "/tmp/test/../test/./export//" "/home/u" (Ok []) (Ok []))).
  reflexivity.
Defined.

(** C8. In a run in which the system refuses nothing and every listed entity
    can be encoded, two entities of a category whose names have the same base
    do not make the run fail: they have the same file, the later write
    replaces the earlier one, and in the end the file holds the encoding of
    the later entity (the last one with this base). *)
Theorem colliding_names_overwrite {G V} `{Named G, Marshaler G, Named V, Marshaler V}
    (E : environ G V) (w w1 : world) (root : string) :
  compliant E → fsWellFormed (fs w) →
  resolveTargetDirForExport E w = (Ok root, w1) →
  Forall encodable (listed (toolGroupConfigs E)) →
  Forall encodable (listed (serverConfigs E)) →
  ∃ w', runExport E w = (None, w') ∧
    (∀ l1 a l2 b l3,
       toolGroupConfigs E = Ok (l1 ++ a :: l2 ++ b :: l3) →
       Base (Name a) = Base (Name b) →
       (∀ y, y ∈ l3 → Base (Name y) ≠ Base (Name b)) →
       entityFile (os.locate E root ++ [exportToolGroupsDir]) a
       = entityFile (os.locate E root ++ [exportToolGroupsDir]) b ∧
       ∃ data, MarshalIndent b "" "  " = Ok data ∧
         fs w' !! entityFile (os.locate E root ++ [exportToolGroupsDir]) a
         = Some (File data)) ∧
    (∀ l1 a l2 b l3,
       serverConfigs E = Ok (l1 ++ a :: l2 ++ b :: l3) →
       Base (Name a) = Base (Name b) →
       (∀ y, y ∈ l3 → Base (Name y) ≠ Base (Name b)) →
       entityFile (os.locate E root ++ [exportMcpServersDir]) a
       = entityFile (os.locate E root ++ [exportMcpServersDir]) b ∧
       ∃ data, MarshalIndent b "" "  " = Ok data ∧
         fs w' !! entityFile (os.locate E root ++ [exportMcpServersDir]) a
         = Some (File data)).
Proof.
  intros Hc Hwf Hres Hencg Hencs.
  assert (targetDirCleaned E = Ok root) as Hroot.
  { pose proof (resolve_inv E _ _ _ Hres) as Hinv.
    destruct (targetDirCleaned E) as [p|err]; [|by destruct Hinv].
    by destruct Hinv as (_ & -> & _). }
  destruct (runExport_success E root Hroot w w1) as [w' Hrun]; [done..|].
  exists w'. split; [done|]. split.
  - intros l1 a l2 b l3 Hlist Hbase Hlast.
    assert (entityFile (os.locate E root ++ [exportToolGroupsDir]) a
            = entityFile (os.locate E root ++ [exportToolGroupsDir]) b) as Hsame.
    { unfold entityFile. f_equal. f_equal. by apply leafName_eq_iff. }
    split; [done|]. rewrite Hsame.
    destruct (exported_group_file E root Hroot w w' (l1 ++ a :: l2) b l3 Hrun)
      as [Henc Hfile].
    + by rewrite <- app_assoc.
    + intros y Hy. rewrite leafName_eq_iff. by apply Hlast.
    + by exists (encoded b).
  - intros l1 a l2 b l3 Hlist Hbase Hlast.
    assert (entityFile (os.locate E root ++ [exportMcpServersDir]) a
            = entityFile (os.locate E root ++ [exportMcpServersDir]) b) as Hsame.
    { unfold entityFile. f_equal. f_equal. by apply leafName_eq_iff. }
    split; [done|]. rewrite Hsame.
    destruct (exported_server_file E root Hroot w w' (l1 ++ a :: l2) b l3 Hrun)
      as [Henc Hfile].
    + by rewrite <- app_assoc.
    + intros y Hy. rewrite leafName_eq_iff. by apply Hlast.
    + by exists (encoded b).
Qed.

Lemma colliding_names_overwrite_witness :
  let E := sampleEnviron "/t" "/home/u" (Ok []) (Ok [serverA; serverB; otherA]) in
  (runExport E emptyWorld).1 = None ∧
  fs (runExport E emptyWorld).2 !! ["t"; "servers"; "A.json"] = Some (File (encoded otherA)).
Proof.
  intros E.
  destruct (colliding_names_overwrite E emptyWorld
              (resolveTargetDirForExport E emptyWorld).2 "/t") as (w' & Hrun & _ & Hservers).
  - apply sampleEnviron_compliant.
  - apply fsWellFormed_empty.
  - vm_compute. reflexivity.
  - constructor.
  - repeat constructor; eexists; reflexivity.
  - rewrite Hrun. split; [reflexivity|].
    destruct (Hservers [] serverA [serverB] otherA []) as (_ & data & Hdata & Hfile);
      [reflexivity|reflexivity|intros y Hy; inversion Hy|].
    assert (entityFile (os.locate E "/t" ++ [exportMcpServersDir]) serverA
            = ["t"; "servers"; "A.json"]) as Hpath by reflexivity.
    rewrite Hpath in Hfile. cbn [snd]. rewrite Hfile.
    unfold encoded, encoding. by rewrite Hdata.
Defined.

(** C9. In a run that reports success, every listed entity that no later
    entity of its category shadows is in the file [<subdir>/<base of its
    name>.json] of its category's subdirectory, and the file holds what
    [json.MarshalIndent] gives for this entity with the empty prefix and an
    indentation of two spaces; a second such run, in any environment and
    target, leaves the same bytes in its file for the same entity. *)
Theorem entity_file_content {G V} `{Named G, Marshaler G, Named V, Marshaler V}
    (E E' : environ G V) (w w1 w' w1' : world) (root root' : string) :
  runExport E w = (None, w1) → targetDirCleaned E = Ok root →
  runExport E' w' = (None, w1') → targetDirCleaned E' = Ok root' →
  (∀ pre g post pre' post',
     toolGroupConfigs E = Ok (pre ++ g :: post) →
     toolGroupConfigs E' = Ok (pre' ++ g :: post') →
     (∀ y, y ∈ post ++ post' → Base (Name y) ≠ Base (Name g)) →
     ∃ data, MarshalIndent g "" "  " = Ok data ∧
       os.locate E (Join [Join [root; exportToolGroupsDir]; Base (Name g) +:+ ".json"])
       = os.locate E root ++ [exportToolGroupsDir; leafName (Name g)] ∧
       fs w1 !! (os.locate E root ++ [exportToolGroupsDir; leafName (Name g)])
       = Some (File data) ∧
       fs w1' !! (os.locate E' root' ++ [exportToolGroupsDir; leafName (Name g)])
       = Some (File data)) ∧
  (∀ pre s post pre' post',
     serverConfigs E = Ok (pre ++ s :: post) →
     serverConfigs E' = Ok (pre' ++ s :: post') →
     (∀ y, y ∈ post ++ post' → Base (Name y) ≠ Base (Name s)) →
     ∃ data, MarshalIndent s "" "  " = Ok data ∧
       os.locate E (Join [Join [root; exportMcpServersDir]; Base (Name s) +:+ ".json"])
       = os.locate E root ++ [exportMcpServersDir; leafName (Name s)] ∧
       fs w1 !! (os.locate E root ++ [exportMcpServersDir; leafName (Name s)])
       = Some (File data) ∧
       fs w1' !! (os.locate E' root' ++ [exportMcpServersDir; leafName (Name s)])
       = Some (File data)).
Proof.
  intros Hrun Hroot Hrun' Hroot'. split.
  - intros pre g post pre' post' Hlist Hlist' Hlast.
    destruct (exported_group_file E root Hroot w w1 pre g post Hrun Hlist) as [Henc Hfile].
    { intros y Hy. rewrite leafName_eq_iff. apply Hlast, elem_of_app. by left. }
    destruct (exported_group_file E' root' Hroot' w' w1' pre' g post' Hrun' Hlist')
      as [_ Hfile'].
    { intros y Hy. rewrite leafName_eq_iff. apply Hlast, elem_of_app. by right. }
    exists (encoded g). split; [done|]. unfold entityFile in *.
    rewrite <- !app_assoc in Hfile, Hfile'. split; [|done].
    rewrite (entityFile_locate E _ (groupsAt_real E root Hroot) _ (groupsDir_eq E root Hroot)).
    by rewrite <- app_assoc.
  - intros pre s post pre' post' Hlist Hlist' Hlast.
    destruct (exported_server_file E root Hroot w w1 pre s post Hrun Hlist) as [Henc Hfile].
    { intros y Hy. rewrite leafName_eq_iff. apply Hlast, elem_of_app. by left. }
    destruct (exported_server_file E' root' Hroot' w' w1' pre' s post' Hrun' Hlist')
      as [_ Hfile'].
    { intros y Hy. rewrite leafName_eq_iff. apply Hlast, elem_of_app. by right. }
    exists (encoded s). split; [done|]. unfold entityFile in *.
    rewrite <- !app_assoc in Hfile, Hfile'. split; [|done].
    rewrite (entityFile_locate E _ (serversAt_real E root Hroot) _ (serversDir_eq E root Hroot)).
    by rewrite <- app_assoc.
Qed.

Lemma entity_file_content_witness :
  let E := sampleEnviron "/t" "/home/u" (Ok [prodGroup]) (Ok []) in
  let E' := sampleEnviron "~/export" "/home/u" (Ok [prodGroup]) (Ok [serverA]) in
  ∃ data, MarshalIndent prodGroup "" "  " = Ok data ∧
    fs (runExport E emptyWorld).2 !! ["t"; "groups"; "prod-group.json"] = Some (File data) ∧
    fs (runExport E' emptyWorld).2 !! ["home"; "u"; "export"; "groups"; "prod-group.json"]
    = Some (File data).
Proof.
  intros E E'.
  destruct (entity_file_content E E' emptyWorld (runExport E emptyWorld).2
              emptyWorld (runExport E' emptyWorld).2 "/t" "/home/u/export")
    as [Hgroups _]; [vm_compute; reflexivity..|].
  destruct (Hgroups [] prodGroup [] [] []) as (data & Hdata & _ & Hfile & Hfile');
    [reflexivity| reflexivity | intros y Hy; inversion Hy |].
  exists data. split; [exact Hdata|]. split; [exact Hfile|exact Hfile'].
Defined.

(** C10. Whatever the name of the entity (separators and [..] components
    included), the file that [writeJSONConfigFile] writes is an immediate
    entry of the given subdirectory: only the base of the entity name,
    followed by [.json], names it there, and this is a name without separator
    that is neither [.] nor [..]; the call changes no other path of the file
    system. *)
Theorem entity_file_inside_subdirectory {G V A} `{Marshaler A} (E : environ G V)
    (entityDir entityName : string) (entity : A) (w : world) :
  entityDir ≠ "" →
  os.locate E (Join [entityDir; Base entityName +:+ ".json"])
  = os.locate E entityDir ++ [leafName entityName] ∧
  realName (leafName entityName) ∧
  (Base entityName ≠ "/" → leafName entityName = Base entityName +:+ ".json") ∧
  ∀ r w', writeJSONConfigFile E entityDir entityName entity w = (r, w') →
    ∀ k, k ≠ os.locate E entityDir ++ [leafName entityName] → fs w' !! k = fs w !! k.
Proof.
  intros Hdir. split; [by apply locate_Join_leaf|]. split; [apply leafName_real|].
  split; [intros Hbase; unfold leafName; by rewrite decide_False|].
  intros r w' Hrun k Hk. eapply writeJSONConfigFile_frame; [done|].
  by rewrite locate_Join_leaf.
Qed.

Lemma entity_file_inside_subdirectory_witness :
  os.locate (sampleEnviron "" "" (Ok []) (Ok []))
    (Join ["/t/groups"; Base "../../etc/passwd" +:+ ".json"])
  = ["t"; "groups"; "passwd.json"].
Proof.
  pose proof (entity_file_inside_subdirectory (sampleEnviron "" "" (Ok []) (Ok []))
                "/t/groups" "../../etc/passwd" prodGroup emptyWorld)
    as Hinside.
  destruct Hinside as [Hfile _]; [discriminate|].
  rewrite Hfile. reflexivity.
Defined.

(** With an empty directory name the claim would fail: the name [/] then
    gives a file at the root. *)
Example empty_directory_name :
  Join [""; Base "/" +:+ ".json"] = "/.json".
Proof. reflexivity. Qed.

(** * Further properties *)

(** ** The path of the target directory *)

Section target_path.
Context {G V : Type} (E : environ G V).

Lemma IsAbs_not_tilde p : IsAbs p = true → p ≠ "" ∧ strings.HasPrefix p "~" = false.
Proof.
  intros Habs. apply HasPrefix_inv in Habs as (t & -> & _).
  split; [done|]. by apply HasPrefix_String_ne.
Qed.

(** Without [~] in front, the input is not expanded. *)
Lemma targetDirExpanded_plain :
  exportCmdTargetDir E ≠ "" → strings.HasPrefix (exportCmdTargetDir E) "~" = false →
  targetDirExpanded E = Ok (exportCmdTargetDir E).
Proof.
  intros Hne Htilde. unfold targetDirExpanded.
  rewrite (decide_False (P := exportCmdTargetDir E = "")) by done. by rewrite Htilde.
Qed.

Lemma targetDirCleaned_absolute :
  IsAbs (exportCmdTargetDir E) = true →
  targetDirCleaned E = Ok (Clean (exportCmdTargetDir E)).
Proof.
  intros Habs. destruct (IsAbs_not_tilde _ Habs) as [Hne Htilde].
  unfold targetDirCleaned, Abs. rewrite targetDirExpanded_plain, Habs by done.
  by rewrite !(Clean_idempotent_abs (exportCmdTargetDir E)).
Qed.

Lemma Getwd_nonempty wd : os.Getwd E = Ok wd → wd ≠ "".
Proof. intros Hwd%Getwd_IsAbs. by intros ->. Qed.

(** What [filepath.Abs] returns is clean already. *)
Lemma Abs_cleaned t absDir : Abs E t = Ok absDir → Clean absDir = absDir.
Proof.
  unfold Abs. destruct (IsAbs t) eqn:Ht.
  - intros [= <-]. by apply Clean_idempotent_abs.
  - destruct (os.Getwd E) as [wd|] eqn:Hwd; [|done]. intros [= <-].
    rewrite Join_pair by (by eapply Getwd_nonempty).
    apply Clean_idempotent_abs. rewrite IsAbs_append by (by eapply Getwd_nonempty).
    by eapply Getwd_IsAbs.
Qed.

End target_path.

(** X1. With the flag left empty, the target is the directory [.mcpjungle]
    of the working directory, whatever [HOME] is; when the working directory
    cannot be determined, resolution fails with the error of [os.Getwd]. *)
Theorem default_target_dir {G V} (E : environ G V) :
  exportCmdTargetDir E = "" →
  (∀ err, os.Getwd E = Err err → targetDirCleaned E = Err err) ∧
  (∀ names, os.Getwd E = Ok ("/" +:+ joinSep names) → Forall realName names →
     targetDirCleaned E = Ok ("/" +:+ joinSep (names ++ [defaultExportTargetDir]))).
Proof.
  intros Hflag.
  assert (targetDirExpanded E = Ok defaultExportTargetDir) as Hexp.
  { unfold targetDirExpanded. by rewrite Hflag. }
  unfold targetDirCleaned, Abs. rewrite Hexp.
  change (IsAbs defaultExportTargetDir) with false. cbv iota.
  split; [by intros err ->|]. intros names -> Hnames.
  assert (realName defaultExportTargetDir) as Hreal by (by repeat split).
  rewrite Join_name by done. rewrite Clean_fixes_normalizedAbs; [done|].
  eexists. split; [done|]. apply Forall_app. split; [done|by apply Forall_singleton].
Qed.

Lemma default_target_dir_witness :
  targetDirCleaned (sampleEnviron "" "" (Ok []) (Ok [])) = Ok "/work/.mcpjungle".
Proof.
  destruct (default_target_dir (sampleEnviron "" "" (Ok []) (Ok []))) as [_ Hwd];
    [reflexivity|].
  apply (Hwd ["work"]); [reflexivity|].
  apply Forall_singleton. by repeat split.
Defined.

(** X2. An absolute input resolves to its cleaned form, whatever [HOME] and
    the working directory are, also when neither can be determined. *)
Theorem absolute_input_cleaned {G V} (E : environ G V) :
  IsAbs (exportCmdTargetDir E) = true →
  targetDirCleaned E = Ok (Clean (exportCmdTargetDir E)).
Proof. apply targetDirCleaned_absolute. Qed.

Lemma absolute_input_cleaned_witness :
  targetDirCleaned (strandedEnviron "/tmp//a/../b/") = Ok "/tmp/b".
Proof.
  rewrite (absolute_input_cleaned (strandedEnviron "/tmp//a/../b/")); reflexivity.
Defined.

(** X3. A relative input that does not start with [~] resolves to the
    cleaned path of the input below the working directory; a failure of
    [os.Getwd] is then the error of resolution. *)
Theorem relative_input_below_workdir {G V} (E : environ G V) :
  exportCmdTargetDir E ≠ "" →
  IsAbs (exportCmdTargetDir E) = false →
  strings.HasPrefix (exportCmdTargetDir E) "~" = false →
  targetDirCleaned E
  = match os.Getwd E with
    | Ok wd => Ok (Clean (wd +:+ "/" +:+ exportCmdTargetDir E))
    | Err err => Err err
    end.
Proof.
  intros Hne Hrel Htilde. unfold targetDirCleaned, Abs.
  rewrite targetDirExpanded_plain, Hrel by done.
  destruct (os.Getwd E) as [wd|err] eqn:Hwd; [|done].
  rewrite Join_pair by (by eapply Getwd_nonempty).
  rewrite Clean_idempotent_abs; [done|].
  rewrite IsAbs_append by (by eapply Getwd_nonempty). by eapply Getwd_IsAbs.
Qed.

Lemma relative_input_below_workdir_witness :
  targetDirCleaned (sampleEnviron "out/../export/." "" (Ok []) (Ok [])) = Ok "/work/export" ∧
  targetDirCleaned (strandedEnviron "out") = Err (SyscallError "getwd" ENOENT).
Proof.
  split.
  - rewrite (relative_input_below_workdir (sampleEnviron "out/../export/." "" (Ok []) (Ok [])));
      [reflexivity|discriminate|reflexivity|reflexivity].
  - rewrite (relative_input_below_workdir (strandedEnviron "out"));
      [reflexivity|discriminate|reflexivity|reflexivity].
Defined.

(** X4. The resolved path is a fixed point of resolution: given as the
    input of a run, in any environment, it resolves to itself. *)
Theorem resolution_fixed_point {G V G' V'} (E : environ G V) (E' : environ G' V')
    (p : string) :
  targetDirCleaned E = Ok p → exportCmdTargetDir E' = p → targetDirCleaned E' = Ok p.
Proof.
  intros Hp%targetDirCleaned_normalizedAbs Hflag.
  rewrite targetDirCleaned_absolute; rewrite Hflag.
  - by rewrite Clean_fixes_normalizedAbs.
  - by apply normalizedAbs_IsAbs.
Qed.

Lemma resolution_fixed_point_witness :
  targetDirCleaned (strandedEnviron "/home/u/a/c") = Ok "/home/u/a/c".
Proof.
  apply (resolution_fixed_point (sampleEnviron "~/a//b/../c" "/home/u" (Ok []) (Ok []))
           (strandedEnviron "/home/u/a/c")); reflexivity.
Defined.

(** X5. The call of [filepath.Clean] that follows [filepath.Abs] changes
    nothing: the resolved path is what [filepath.Abs] returns for the expanded
    input. *)
Theorem clean_after_abs_redundant {G V} (E : environ G V) :
  targetDirCleaned E
  = match targetDirExpanded E with
    | Ok targetDir => Abs E targetDir
    | Err err => Err err
    end.
Proof.
  unfold targetDirCleaned. destruct (targetDirExpanded E) as [t|err]; [|done].
  destruct (Abs E t) as [absDir|err] eqn:Habs; [|done].
  by rewrite (Abs_cleaned E t).
Qed.

(** ** The target directory in the file system *)

Lemma entryName_Some dir : ∀ k name, os.entryName dir k = Some name → k = dir ++ [name].
Proof.
  induction dir as [|d dir IH]; intros [|e k] name; simpl; try done.
  - destruct k; [by intros [= ->]|done].
  - case_decide as Heq; [|done]. subst e. intros Hk%IH. by rewrite Hk.
Qed.

Lemma entries_empty m dir : (∀ name, m !! (dir ++ [name]) = None) → os.entries m dir = [].
Proof.
  intros Hnone. destruct (os.entries m dir) as [|x l] eqn:Hent; [done|].
  assert (x ∈ os.entries m dir) as Hin by (rewrite Hent; left).
  unfold os.entries in Hin. apply list_elem_of_omap in Hin as (k & Hk & Hname).
  apply entryName_Some in Hname as ->.
  apply list_elem_of_fmap in Hk as ([k n] & Hfst & Hkn). simpl in Hfst. subst k.
  apply elem_of_map_to_list in Hkn. by rewrite Hnone in Hkn.
Qed.

Lemma snoc_not_prefix {A} (l : list A) x : ¬ (l ++ [x]) `prefix_of` l.
Proof. intros Hp%prefix_length. rewrite length_app in Hp. simpl in Hp. lia. Qed.

Lemma onlyAddsDirs_keeps D m m' k n : onlyAddsDirs D m m' → m !! k = Some n → m' !! k = Some n.
Proof. intros Hadd Hk. destruct (Hadd k) as [->|[Hnone _]]; congruence. Qed.

Lemma onlyAddsDirs_outside D m m' k : onlyAddsDirs D m m' → ¬ k `prefix_of` D → m' !! k = m !! k.
Proof. intros Hadd Hk. by destruct (Hadd k) as [->|(_ & _ & ?)]. Qed.

Section target_directory.
Context {G V : Type} (E : environ G V).

Lemma stat_eq p w :
  refuse E (length (journal w)) (SysStat p) = None →
  os.stat E p w
  = match os.lookupNode (fs w) p with
    | Some n => (inr n, World (fs w) (stdout w) (journal w ++ [Sys (SysStat p) None]))
    | None => (inl (os.missing (fs w) p),
               World (fs w) (stdout w)
                 (journal w ++ [Sys (SysStat p) (Some (os.missing (fs w) p))]))
    end.
Proof.
  intros Href. unfold os.stat, os.perform. rewrite Href.
  by destruct (os.lookupNode (fs w) p).
Qed.

(** [os.MkdirAll] on a path that is a file. *)
Lemma mkdirAll_file rp w data :
  refuse E (length (journal w)) (SysStat (rev rp)) = None →
  os.lookupNode (fs w) (rev rp) = Some (File data) →
  os.mkdirAll E rp w
  = (Some (rev rp, ENOTDIR),
     World (fs w) (stdout w) (journal w ++ [Sys (SysStat (rev rp)) None])).
Proof.
  intros Href Hfile.
  destruct rp as [|x rp]; simpl in *; unfold bind; rewrite stat_eq by done;
    by rewrite ?Hfile.
Qed.

(** When the system refuses nothing and no file is in the way, [os.MkdirAll]
    makes the directory. *)
Lemma mkdirAll_creates rp :
  compliant E →
  ∀ w, (∀ k data, k `prefix_of` rev rp → os.lookupNode (fs w) k ≠ Some (File data)) →
       ∃ w', os.mkdirAll E rp w = (None, w') ∧ os.lookupNode (fs w') (rev rp) = Some Dir.
Proof.
  intros Hc. induction rp as [|x rparent IH]; intros w Hfiles; simpl; unfold bind, ret.
  - rewrite stat_eq by apply Hc. simpl. by eexists.
  - simpl in Hfiles. rewrite stat_eq by apply Hc.
    destruct (os.lookupNode (fs w) (rev rparent ++ [x])) as [[|data]|] eqn:Hnode.
    + by eexists.
    + by destruct (Hfiles (rev rparent ++ [x]) data).
    + set (w1 := World (fs w) (stdout w) _).
      destruct (IH w1) as (w2 & Hup & Hdir).
      { intros k data Hk. apply Hfiles. by apply prefix_app_r. }
      rewrite Hup. apply mkdirAll_step in Hup as (_ & _ & Hadd & _).
      rewrite mkdir_success.
      * eexists. split; [done|]. simpl. by rewrite lookupNode_snoc, lookup_insert_eq.
      * apply Hc.
      * rewrite lookupNode_snoc, (onlyAddsDirs_outside _ _ _ _ Hadd) by apply snoc_not_prefix.
        by rewrite <- lookupNode_snoc.
      * by rewrite removelast_snoc.
Qed.

Context (root : string) (Hroot : targetDirCleaned E = Ok root).

Local Abbreviation T := (os.locate E root).

(** Resolution in a world in which [os.MkdirAll] and [os.ReadDir] go
    through. *)
Lemma resolve_listed w w1 :
  os.mkdirAll E (rev T) w = (None, w1) →
  refuse E (length (journal w1)) (SysReadDir T) = None →
  os.lookupNode (fs w1) T = Some Dir →
  resolveTargetDirForExport E w
  = (if decide (0 < length (os.entries (fs w1) T))
     then Err (errorString ("target directory " +:+ root +:+ " is not empty"))
     else Ok root,
     World (fs w1) (stdout w1) (journal w1 ++ [Sys (SysReadDir T) None])).
Proof.
  intros Hmk Href Hdir. unfold resolveTargetDirForExport. rewrite Hroot.
  unfold os.MkdirAll, os.ReadDir, bind, ret. rewrite Hmk.
  rewrite readdir_existing by done. by case_decide.
Qed.

End target_directory.

(** Resolution goes through when nothing is in its way. *)
Lemma resolve_absent_or_empty {G V} (E : environ G V) (w : world) (root : string) :
  compliant E →
  targetDirCleaned E = Ok root →
  (∀ k data, k `prefix_of` os.locate E root → os.lookupNode (fs w) k ≠ Some (File data)) →
  (∀ name, fs w !! (os.locate E root ++ [name]) = None) →
  ∃ w', resolveTargetDirForExport E w = (Ok root, w') ∧
        os.lookupNode (fs w') (os.locate E root) = Some Dir ∧
        onlyAddsDirs (os.locate E root) (fs w) (fs w').
Proof.
  intros Hc Hroot Hfiles Hnone.
  destruct (mkdirAll_creates E (rev (os.locate E root)) Hc w) as (w1 & Hmk & Hdir).
  { by rewrite rev_involutive. }
  rewrite rev_involutive in Hdir.
  pose proof (mkdirAll_step E _ _ _ _ Hmk) as (_ & _ & Hadd & _).
  rewrite rev_involutive in Hadd.
  assert (os.entries (fs w1) (os.locate E root) = []) as Hent.
  { apply entries_empty. intros name.
    rewrite (onlyAddsDirs_outside _ _ _ _ Hadd) by apply snoc_not_prefix. apply Hnone. }
  exists (World (fs w1) (stdout w1)
            (journal w1 ++ [Sys (SysReadDir (os.locate E root)) None])).
  split; [|split; [exact Hdir|exact Hadd]].
  rewrite (resolve_listed E root Hroot w w1); [|done|apply Hc|done].
  by rewrite Hent.
Qed.

(** X6. When the system refuses nothing, no file is in the way and the
    target has no entry (it is missing, with or without the directories above
    it, or it is an empty directory), resolution succeeds with the cleaned
    path; afterwards the target is a directory, and all that was added to the
    file system are directories on the way to it. *)
Theorem absent_or_empty_target_resolves {G V} (E : environ G V) (w : world) (root : string) :
  compliant E →
  targetDirCleaned E = Ok root →
  (∀ k data, k `prefix_of` os.locate E root → os.lookupNode (fs w) k ≠ Some (File data)) →
  (∀ name, fs w !! (os.locate E root ++ [name]) = None) →
  ∃ w', resolveTargetDirForExport E w = (Ok root, w') ∧
        os.lookupNode (fs w') (os.locate E root) = Some Dir ∧
        onlyAddsDirs (os.locate E root) (fs w) (fs w').
Proof. apply resolve_absent_or_empty. Qed.

Lemma absent_or_empty_target_resolves_witness :
  let E := sampleEnviron "/a/b/c" "" (Ok []) (Ok []) in
  ∃ w', resolveTargetDirForExport E emptyWorld = (Ok "/a/b/c", w') ∧
        os.lookupNode (fs w') ["a"; "b"; "c"] = Some Dir.
Proof.
  intros E.
  destruct (absent_or_empty_target_resolves E emptyWorld "/a/b/c")
    as (w' & Hres & Hdir & _).
  - apply sampleEnviron_compliant.
  - reflexivity.
  - intros k data _. destruct k; [done|]. simpl. by rewrite lookup_empty.
  - intros name. apply lookup_empty.
  - exists w'. split; [exact Hres|exact Hdir].
Defined.

(** X7. When the target is an empty directory already and the system
    answers the [Stat] of [os.MkdirAll] and the [os.ReadDir] on it, resolution
    succeeds with the cleaned path, and the file system and the output are as
    before. *)
Theorem existing_empty_target_accepted {G V} (E : environ G V) (w : world) (root : string) :
  targetDirCleaned E = Ok root →
  os.lookupNode (fs w) (os.locate E root) = Some Dir →
  (∀ name, fs w !! (os.locate E root ++ [name]) = None) →
  refuse E (length (journal w)) (SysStat (os.locate E root)) = None →
  refuse E (S (length (journal w))) (SysReadDir (os.locate E root)) = None →
  ∃ w', resolveTargetDirForExport E w = (Ok root, w') ∧
        fs w' = fs w ∧ stdout w' = stdout w.
Proof.
  intros Hroot Hdir Hnone Hstat Hread. eexists. split.
  - rewrite (resolve_listed E root Hroot w
               (World (fs w) (stdout w)
                  (journal w ++ [Sys (SysStat (os.locate E root)) None]))).
    + simpl. by rewrite entries_empty by done.
    + rewrite mkdirAll_existing; rewrite rev_involutive; done.
    + simpl. by rewrite length_app, Nat.add_1_r.
    + done.
  - done.
Qed.

Lemma existing_empty_target_accepted_witness :
  ∃ w', resolveTargetDirForExport (sampleEnviron "/t" "" (Ok []) (Ok [])) emptyDirWorld
        = (Ok "/t", w') ∧
        fs w' = fs emptyDirWorld ∧ stdout w' = [].
Proof.
  apply (existing_empty_target_accepted (sampleEnviron "/t" "" (Ok []) (Ok []))
           emptyDirWorld "/t"); try reflexivity.
  intros name. simpl. rewrite lookup_insert_ne by (by destruct name). apply lookup_empty.
Defined.

(** X8. When the target path is an existing file, resolution fails with
    the error [mkdir <path>: not a directory] of [os.MkdirAll], the run
    returns it wrapped, and nothing is changed, printed or listed. *)
Theorem file_target_rejected {G V} `{Named G, Marshaler G, Named V, Marshaler V}
    (E : environ G V) (w : world) (root data : string) :
  targetDirCleaned E = Ok root →
  os.lookupNode (fs w) (os.locate E root) = Some (File data) →
  refuse E (length (journal w)) (SysStat (os.locate E root)) = None →
  resolveTargetDirForExport E w
  = (Err (PathError "mkdir" root ENOTDIR),
     World (fs w) (stdout w) (journal w ++ [Sys (SysStat (os.locate E root)) None])) ∧
  runExport E w
  = (Some (wrapError "failed to resolve target directory for export: "
             (PathError "mkdir" root ENOTDIR)),
     World (fs w) (stdout w) (journal w ++ [Sys (SysStat (os.locate E root)) None])).
Proof.
  intros Hroot Hfile Hstat.
  assert (resolveTargetDirForExport E w
          = (Err (PathError "mkdir" root ENOTDIR),
             World (fs w) (stdout w) (journal w ++ [Sys (SysStat (os.locate E root)) None])))
    as Hres.
  { unfold resolveTargetDirForExport. rewrite Hroot. unfold os.MkdirAll, bind, ret.
    rewrite (mkdirAll_file E _ w data); rewrite rev_involutive; [|done..].
    by rewrite decide_True. }
  split; [done|]. unfold runExport, prepareSubdirectories, bind, ret. by rewrite Hres.
Qed.

Lemma file_target_rejected_witness :
  let E := sampleEnviron "/t" "" (Ok [prodGroup]) (Ok [serverA]) in
  option_map Error (runExport E fileWorld).1
  = Some "failed to resolve target directory for export: mkdir /t: not a directory" ∧
  fs (runExport E fileWorld).2 = fs fileWorld.
Proof.
  intros E.
  destruct (file_target_rejected E fileWorld "/t" "x") as [_ Hrun]; [reflexivity..|].
  rewrite Hrun. split; reflexivity.
Defined.

(** X9. What a successful resolution guarantees, whatever the system did on
    the way: nothing was printed, the returned path is a directory without
    entries, and from a well-formed file system nothing at all is below it. *)
Theorem resolved_target_is_empty_directory {G V} (E : environ G V)
    (w w' : world) (root : string) :
  resolveTargetDirForExport E w = (Ok root, w') →
  stdout w' = stdout w ∧
  os.lookupNode (fs w') (os.locate E root) = Some Dir ∧
  os.entries (fs w') (os.locate E root) = [] ∧
  (fsWellFormed (fs w) → ∀ k, k ≠ [] → fs w' !! (os.locate E root ++ k) = None).
Proof.
  intros Hres. apply resolve_inv in Hres.
  destruct (targetDirCleaned E) as [p|err]; [|by destruct Hres].
  destruct Hres as ((Hout & _ & _ & Hwf) & -> & Hdir & Hnone).
  split; [done|]. split; [done|]. split; [by apply entries_empty|].
  intros Hw [|name k] Hk; [done|]. destruct k as [|name' k]; [apply Hnone|].
  change (name :: name' :: k) with ([name] ++ name' :: k). rewrite app_assoc.
  apply fsWellFormed_below; [by apply Hwf| |done].
  by rewrite lookupNode_snoc, Hnone.
Qed.

Lemma resolved_target_is_empty_directory_witness :
  let E := sampleEnviron "/a/b" "" (Ok []) (Ok []) in
  os.lookupNode (fs (resolveTargetDirForExport E emptyWorld).2) ["a"; "b"] = Some Dir ∧
  os.entries (fs (resolveTargetDirForExport E emptyWorld).2) ["a"; "b"] = [].
Proof.
  intros E.
  destruct (resolved_target_is_empty_directory E emptyWorld
              (resolveTargetDirForExport E emptyWorld).2 "/a/b")
    as (_ & Hdir & Hent & _); [vm_compute; reflexivity|].
  split; [exact Hdir|exact Hent].
Defined.

(** ** The errors of resolution *)

Lemma Abs_errors {G V} (E : environ G V) t err :
  Abs E t = Err err → os.Getwd E = Err err.
Proof.
  unfold Abs. destruct (IsAbs t); [done|].
  destruct (os.Getwd E) as [wd|e] eqn:Hwd; [done|]. by intros [= <-].
Qed.

Lemma targetDirCleaned_errors {G V} (E : environ G V) err :
  targetDirCleaned E = Err err →
  (err = errorString "$HOME is not defined" ∧ HOME E = "") ∨ os.Getwd E = Err err.
Proof.
  unfold targetDirCleaned. destruct (targetDirExpanded E) as [t|e] eqn:Hexp.
  - destruct (Abs E t) as [absDir|e] eqn:Habs; [done|]. intros [= <-]. right.
    by eapply Abs_errors.
  - intros [= <-]. left. revert Hexp. unfold targetDirExpanded, os.UserHomeDir.
    destruct (strings.HasPrefix _ "~"); [|done].
    destruct (decide (HOME E = "")) as [Hhome|Hhome]; [by intros [= <-]|].
    by repeat case_match.
Qed.

(** X10. Every error of resolution is one of five: [$HOME] is not defined
    (then the world is as before), [os.Getwd] failed and its error is
    returned as it is (then the file system is as before), [os.MkdirAll]
    failed with a [*PathError] of [mkdir], [os.ReadDir] failed with a
    [*PathError] of its open or of its read, which is wrapped, or the
    directory has entries.  In each case nothing was printed and nothing that
    existed was changed or removed. *)
Theorem resolution_errors {G V} (E : environ G V) (w w' : world) (err : error) :
  resolveTargetDirForExport E w = (Err err, w') →
  stdout w' = stdout w ∧
  (∀ k n, fs w !! k = Some n → fs w' !! k = Some n) ∧
  ((err = errorString "$HOME is not defined" ∧ w' = w) ∨
   (os.Getwd E = Err err ∧ fs w' = fs w) ∨
   (∃ p no, err = PathError "mkdir" p no) ∨
   (∃ p op no, targetDirCleaned E = Ok p ∧ (op = "open" ∨ op = "readdirent") ∧
      err = wrapError ("failed to read contents of target directory " +:+ p +:+ ": ")
              (PathError op p no)) ∨
   (∃ p, targetDirCleaned E = Ok p ∧
      err = errorString ("target directory " +:+ p +:+ " is not empty") ∧
      os.entries (fs w') (os.locate E p) ≠ [])).
Proof.
  intros Hres. apply resolve_inv in Hres.
  destruct (targetDirCleaned E) as [p|err'] eqn:Hp.
  - destruct Hres as ((Hout & _ & Hadd & _) & Herr). split; [done|].
    split; [intros k n; by eapply onlyAddsDirs_keeps|].
    destruct Herr as [(q & no & ->)|[(op & no & Hop & ->)|(-> & _ & Hent)]].
    + right; right; left. by exists q, no.
    + right; right; right; left. by exists p, op, no.
    + right; right; right; right. by exists p.
  - destruct Hres as [[= <-] ->]. split; [done|]. split; [done|].
    apply targetDirCleaned_errors in Hp as [(-> & _)|Hwd]; [by left|].
    right; left. done.
Qed.

Lemma resolution_errors_witness :
  let E := sampleEnviron "/t" "" (Ok []) (Ok []) in
  fs (resolveTargetDirForExport E occupiedWorld).2 !! ["t"; "test.txt"] = Some (File "test").
Proof.
  intros E.
  destruct (resolution_errors E occupiedWorld (resolveTargetDirForExport E occupiedWorld).2
              (errorString "target directory /t is not empty"))
    as (_ & Hkept & _); [vm_compute; reflexivity|].
  apply Hkept. reflexivity.
Defined.

(** ** Single writes in any directory *)

Section single_write.
Context {G V A : Type} `{Marshaler A} (E : environ G V).
Context (entityDir entityName : string) (Hdir : entityDir ≠ "") (entity : A).

Local Abbreviation filename := (Join [entityDir; Base entityName +:+ ".json"]).
Local Abbreviation file := (os.locate E entityDir ++ [leafName entityName]).

(** The call, case by case. *)
Lemma writeJSONConfigFile_cases w r w' :
  writeJSONConfigFile E entityDir entityName entity w = (r, w') →
  match encoding entity with
  | Err cause =>
      r = Some (wrapError ("failed to serialize entity " +:+ entityDir +:+ "/"
                           +:+ entityName +:+ ": ") cause) ∧ w' = w
  | Ok data =>
      ∃ res, os.writefile E file data w = (res, w') ∧
        r = match res with
            | inl (op, no) =>
                Some (wrapError ("failed to write entity file " +:+ filename +:+ ": ")
                        (PathError op filename no))
            | inr _ => None
            end
  end.
Proof.
  unfold writeJSONConfigFile, encoding.
  destruct (MarshalIndent entity "" "  ") as [data|cause]; [|by intros [= <- <-]].
  unfold os.WriteFile, bind, ret. rewrite locate_Join_leaf by done.
  destruct (os.writefile E file data w) as [res w1].
  destruct res as [[op no]|[]]; intros [= <- <-]; by eexists.
Qed.

End single_write.

(** X11. A call of [writeJSONConfigFile] that the system does not refuse
    returns no error exactly when the entity can be serialized, the directory
    exists and the name of the file is not taken by a directory; the world
    after it then differs by this one file, which holds the serialization
    (whatever the file held before), and by the journal entry of the write. *)
Theorem write_succeeds_iff {G V A} `{Marshaler A} (E : environ G V)
    (entityDir entityName : string) (entity : A) (w w' : world) :
  entityDir ≠ "" →
  refuse E (length (journal w))
    (SysWriteFile (os.locate E entityDir ++ [leafName entityName])) = None →
  writeJSONConfigFile E entityDir entityName entity w = (None, w')
  ↔ (encodable entity ∧
     os.lookupNode (fs w) (os.locate E entityDir) = Some Dir ∧
     fs w !! (os.locate E entityDir ++ [leafName entityName]) ≠ Some Dir ∧
     w' = World (<[os.locate E entityDir ++ [leafName entityName] := File (encoded entity)]>
                   (fs w))
                (stdout w)
                (journal w
                 ++ [Sys (SysWriteFile (os.locate E entityDir ++ [leafName entityName])) None])).
Proof.
  intros Hdir Href. split.
  - intros Hrun. apply writeJSONConfigFile_cases in Hrun; [|done].
    unfold encodable, encoded. destruct (encoding entity) as [data|cause]; [|by destruct Hrun].
    destruct Hrun as (res & Hwr & Hres). destruct res as [[op no]|[]]; [done|].
    apply writefile_inv in Hwr as (Hout & Hj & Hfile & Hup & Hfs).
    rewrite removelast_snoc in Hup. rewrite lookupNode_snoc in Hfile.
    split; [by exists data|]. split; [done|]. split; [done|].
    destruct w' as [m out j]. simpl in *. by subst.
  - intros ([data Hdata] & Hup & Hfile & ->). unfold writeJSONConfigFile, encoded.
    unfold encoding in *. rewrite Hdata.
    unfold os.WriteFile, bind, ret. rewrite locate_Join_leaf by done.
    rewrite writefile_success; [done..| |].
    + by rewrite lookupNode_snoc.
    + by rewrite removelast_snoc.
Qed.

Lemma write_succeeds_iff_witness :
  let E := sampleEnviron "" "" (Ok []) (Ok []) in
  writeJSONConfigFile E "/t" "a/b/prod-group" prodGroup emptyDirWorld
  = (None, World (<[["t"; "prod-group.json"] := File (encoded prodGroup)]> (fs emptyDirWorld))
             [] [Sys (SysWriteFile ["t"; "prod-group.json"]) None]).
Proof.
  intros E. apply (write_succeeds_iff E "/t" "a/b/prod-group" prodGroup emptyDirWorld);
    [discriminate|reflexivity|].
  split; [eexists; reflexivity|]. split; [reflexivity|]. split; [|reflexivity].
  vm_compute. discriminate.
Defined.

(** The error number of a path that is not there. *)
Lemma walkError_nofile m names :
  ∀ above,
    (∀ s data, s `prefix_of` names → os.lookupNode m (above ++ s) ≠ Some (File data)) →
    os.walkError m above names = ENOENT.
Proof.
  induction names as [|name rest IH]; intros above Hno; [done|]. simpl.
  destruct (os.lookupNode m (above ++ [name])) as [[|data]|] eqn:Hnode; [|exfalso|done].
  - apply IH. intros s data Hs. rewrite <- app_assoc. apply Hno. by apply prefix_cons.
  - apply (Hno [name] data); [|done]. apply prefix_cons, prefix_nil.
Qed.

Lemma fsWellFormed_above m a b n :
  fsWellFormed m → b ≠ [] → os.lookupNode m (a ++ b) = Some n → os.lookupNode m a = Some Dir.
Proof.
  intros Hwf Hb Hn. rewrite lookupNode_cons in Hn by (by destruct a, b).
  destruct (os.lookupNode m a) as [[|d]|] eqn:Ha; [done|exfalso..];
    by rewrite (fsWellFormed_below m a Hwf) in Hn by (by rewrite ?Ha).
Qed.

Lemma walkError_file m names :
  fsWellFormed m →
  ∀ above s data,
    s `prefix_of` names → os.lookupNode m (above ++ s) = Some (File data) →
    os.lookupNode m above = Some Dir →
    os.walkError m above names = ENOTDIR.
Proof.
  intros Hwf. induction names as [|name rest IH]; intros above s data Hs Hfile Hdir.
  - apply prefix_nil_inv in Hs as ->. rewrite app_nil_r in Hfile. congruence.
  - destruct s as [|name' s'].
    { rewrite app_nil_r in Hfile. congruence. }
    apply prefix_cons_inv_1 in Hs as Hname. apply prefix_cons_inv_2 in Hs. subst name'.
    simpl. change (name :: s') with ([name] ++ s') in Hfile. rewrite app_assoc in Hfile.
    destruct s' as [|x s'].
    + rewrite app_nil_r in Hfile. by rewrite Hfile.
    + pose proof (fsWellFormed_above m (above ++ [name]) (x :: s') _ Hwf ltac:(done) Hfile)
        as Hnext.
      rewrite Hnext. by eapply IH.
Qed.

(** X12. [writeJSONConfigFile] never creates the directory: from a
    well-formed file system in which the directory is missing, the call fails
    with the error of the failed open in the context that names the file, and
    the file system is as before.  The open fails with [not a directory] when
    a file lies on the way to the directory, and with [no such file or
    directory] when none does. *)
Theorem write_needs_directory {G V A} `{Marshaler A} (E : environ G V)
    (entityDir entityName : string) (entity : A) (w : world) :
  entityDir ≠ "" →
  encodable entity →
  fsWellFormed (fs w) →
  os.lookupNode (fs w) (os.locate E entityDir) = None →
  refuse E (length (journal w))
    (SysWriteFile (os.locate E entityDir ++ [leafName entityName])) = None →
  writeJSONConfigFile E entityDir entityName entity w
  = (Some (wrapError ("failed to write entity file "
                      +:+ Join [entityDir; Base entityName +:+ ".json"] +:+ ": ")
             (PathError "open" (Join [entityDir; Base entityName +:+ ".json"])
                (os.missing (fs w) (os.locate E entityDir)))),
     World (fs w) (stdout w)
       (journal w ++ [Sys (SysWriteFile (os.locate E entityDir ++ [leafName entityName]))
                        (Some (os.missing (fs w) (os.locate E entityDir)))])) ∧
  ((∃ k data, k `prefix_of` os.locate E entityDir ∧
              os.lookupNode (fs w) k = Some (File data)) →
   os.missing (fs w) (os.locate E entityDir) = ENOTDIR) ∧
  ((∀ k data, k `prefix_of` os.locate E entityDir →
              os.lookupNode (fs w) k ≠ Some (File data)) →
   os.missing (fs w) (os.locate E entityDir) = ENOENT).
Proof.
  intros Hdir [data Hdata] Hwf Hnone Href. split; [|split].
  - unfold writeJSONConfigFile. unfold encoding in Hdata. rewrite Hdata.
    unfold os.WriteFile, bind, ret. rewrite locate_Join_leaf by done.
    unfold os.writefile. rewrite Href.
    rewrite removelast_snoc, Hnone, lookupNode_snoc.
    rewrite (fsWellFormed_below _ _ Hwf) by (by rewrite ?Hnone).
    by destruct (stage E (length (journal w))).
  - intros (k & content & Hk & Hfile). unfold os.missing.
    by apply (walkError_file _ _ Hwf [] k content).
  - intros Hno. unfold os.missing. apply walkError_nofile. intros s content Hs.
    by apply Hno.
Qed.

Lemma write_needs_directory_witness :
  let E := sampleEnviron "" "" (Ok []) (Ok []) in
  option_map Error (writeJSONConfigFile E "/t/groups" "prod-group" prodGroup emptyDirWorld).1
  = Some ("failed to write entity file /t/groups/prod-group.json: "
          +:+ "open /t/groups/prod-group.json: no such file or directory") ∧
  fs (writeJSONConfigFile E "/t/groups" "prod-group" prodGroup emptyDirWorld).2
  = fs emptyDirWorld.
Proof.
  intros E.
  destruct (write_needs_directory E "/t/groups" "prod-group" prodGroup emptyDirWorld)
    as (Hrun & _ & _).
  - discriminate.
  - eexists; reflexivity.
  - intros k name [n Hn]. simpl in Hn.
    destruct (decide (["t"] = k ++ [name])) as [Heq|Hne].
    + destruct k as [|? [|? ?]]; by simplify_eq.
    + rewrite lookup_insert_ne in Hn by done. by rewrite lookup_empty in Hn.
  - reflexivity.
  - reflexivity.
  - rewrite Hrun. split; reflexivity.
Defined.

(** Below a file the open fails with [not a directory]. *)
Example write_below_a_file :
  let E := sampleEnviron "" "" (Ok []) (Ok []) in
  option_map Error (writeJSONConfigFile E "/t/groups" "prod-group" prodGroup fileWorld).1
  = Some ("failed to write entity file /t/groups/prod-group.json: "
          +:+ "open /t/groups/prod-group.json: not a directory") ∧
  fs (writeJSONConfigFile E "/t/groups" "prod-group" prodGroup fileWorld).2 = fs fileWorld.
Proof. vm_compute. by split. Qed.

(** X13. Every error of [writeJSONConfigFile] is one of two.  The
    serialization failed: then the world is as before (a file of this name
    keeps what it held).  Or a step of [os.WriteFile] failed: then the error
    is the [*PathError] of this step (the open, the write or the close) in the
    context that names the file, nothing was printed, and the file system
    differs in this file at most: it is as before when the open failed, the
    file holds the bytes written so far when the write failed, and the whole
    serialization when the close failed. *)
Theorem write_failure_forms {G V A} `{Marshaler A} (E : environ G V)
    (entityDir entityName : string) (entity : A) (w w' : world) (err : error) :
  entityDir ≠ "" →
  writeJSONConfigFile E entityDir entityName entity w = (Some err, w') →
  (∃ cause, encoding entity = Err cause ∧
     err = wrapError ("failed to serialize entity " +:+ entityDir +:+ "/"
                      +:+ entityName +:+ ": ") cause ∧
     w' = w) ∨
  (∃ data op no, encoding entity = Ok data ∧
     (op = "open" ∨ op = "write" ∨ op = "close") ∧
     err = wrapError ("failed to write entity file "
                      +:+ Join [entityDir; Base entityName +:+ ".json"] +:+ ": ")
             (PathError op (Join [entityDir; Base entityName +:+ ".json"]) no) ∧
     stdout w' = stdout w ∧
     journal w' = journal w
                  ++ [Sys (SysWriteFile (os.locate E entityDir ++ [leafName entityName]))
                        (Some no)] ∧
     leftBy op (os.locate E entityDir ++ [leafName entityName]) data (fs w) (fs w')).
Proof.
  intros Hdir Hrun.
  apply writeJSONConfigFile_failure in Hrun
    as (Hout & [(cause & Hc & -> & ->)|(data & op & no & Hd & -> & Hj & Hleft)]).
  - left. by exists cause.
  - right. rewrite locate_Join_leaf in Hj, Hleft by done.
    exists data, op, no. split; [done|]. split; [|done].
    destruct Hleft as [[-> _]|[[-> _]|[-> _]]]; auto.
Qed.

Lemma write_failure_forms_witness :
  let E := sampleEnviron "" "" (Ok []) (Ok []) in
  (writeJSONConfigFile E "/t" "C" unencodable emptyDirWorld).2 = emptyDirWorld.
Proof.
  intros E.
  destruct (write_failure_forms E "/t" "C" unencodable emptyDirWorld
              (writeJSONConfigFile E "/t" "C" unencodable emptyDirWorld).2
              (wrapError "failed to serialize entity /t/C: "
                 (errorString "json: unsupported value")))
    as [(cause & _ & _ & Hw)|(data & op & no & Hdata & _)];
    [discriminate|reflexivity|exact Hw|discriminate Hdata].
Defined.

(** A write that fails after four bytes leaves these four bytes. *)
Example write_fails_midway :
  let E := failingEnviron 0 (AtWrite 4) "" (Ok []) (Ok []) in
  writeJSONConfigFile E "/t" "A" serverA emptyDirWorld
  = (Some (wrapError "failed to write entity file /t/A.json: "
             (PathError "write" "/t/A.json" ENOSPC)),
     World (<[["t"; "A.json"] := File (String.substring 0 4 (encoded serverA))]>
              (fs emptyDirWorld))
       [] [Sys (SysWriteFile ["t"; "A.json"]) (Some ENOSPC)]).
Proof. vm_compute. reflexivity. Qed.

(** ** What a category prints and journals *)

Section category_report.
Context {G V : Type} `{Named G, Marshaler G, Named V, Marshaler V}.
Context (E : environ G V).
Context (D : path) (HD : Forall realName D).
Context (dir : string) (Hdirname : dir = "/" +:+ joinSep D).

Lemma exportToolGroups_report w r w' :
  exportToolGroups E dir w = (r, w') →
  stdout w' = stdout w ++ ["Fetching Tool Group configurations..." +:+ LF;
                           groupsReport (toolGroupConfigs E) dir].
Proof.
  rewrite exportToolGroups_eq.
  destruct (toolGroupConfigs E) as [[|g groups]|gErr]; try by intros [= <- <-].
  intros Hrun. by apply (writeEach_frame E D HD dir Hdirname) in Hrun as (-> & _).
Qed.

Lemma exportMcpServers_report w r w' :
  exportMcpServers E dir w = (r, w') →
  stdout w' = stdout w ++ ["Fetching MCP Server configurations..." +:+ LF;
                           serversReport (serverConfigs E) dir].
Proof.
  rewrite exportMcpServers_eq.
  destruct (serverConfigs E) as [[|s servers]|sErr]; try by intros [= <- <-].
  intros Hrun. by apply (writeEach_frame E D HD dir Hdirname) in Hrun as (-> & _).
Qed.

Lemma exportToolGroups_journal w w' :
  exportToolGroups E dir w = (None, w') →
  journal w' = journal w ++ Fetch ToolGroup :: writeEvents D (listed (toolGroupConfigs E)).
Proof.
  rewrite exportToolGroups_eq.
  destruct (toolGroupConfigs E) as [[|g groups]|gErr]; try by intros [= <-].
  intros Hrun. apply (writeEach_inv E D HD dir Hdirname) in Hrun as (_ & _ & -> & _).
  simpl. by rewrite <- app_assoc.
Qed.

Lemma exportMcpServers_journal w w' :
  exportMcpServers E dir w = (None, w') →
  journal w' = journal w ++ Fetch McpServer :: writeEvents D (listed (serverConfigs E)).
Proof.
  rewrite exportMcpServers_eq.
  destruct (serverConfigs E) as [[|s servers]|sErr]; try by intros [= <-].
  intros Hrun. apply (writeEach_inv E D HD dir Hdirname) in Hrun as (_ & _ & -> & _).
  simpl. by rewrite <- app_assoc.
Qed.

(** The error of a loop is the error of the write of one of its entities. *)
Lemma writeEach_error {A} `{Named A, Marshaler A} (xs : list A) w err w' :
  writeEach E dir xs w = (Some err, w') →
  ∃ x, x ∈ xs ∧
    ((∃ cause, err = wrapError ("failed to serialize entity " +:+ dir +:+ "/"
                                +:+ Name x +:+ ": ") cause) ∨
     (∃ op no, (op = "open" ∨ op = "write" ∨ op = "close") ∧
        err = wrapError ("failed to write entity file "
                         +:+ Join [dir; Base (Name x) +:+ ".json"] +:+ ": ")
                (PathError op (Join [dir; Base (Name x) +:+ ".json"]) no))).
Proof.
  revert w. induction xs as [|y xs IH]; intros w; simpl; unfold bind, ret; [done|].
  destruct (writeJSONConfigFile E dir (Name y) y w) as [[e|] w0] eqn:Hy.
  - intros [= <- <-]. exists y. split; [by left|].
    apply writeJSONConfigFile_failure in Hy
      as (_ & [(cause & _ & _ & ->)|(data & op & no & _ & -> & _ & Hleft)]); [eauto|].
    right. exists op, no. split; [|done].
    destruct Hleft as [[-> _]|[[-> _]|[-> _]]]; auto.
  - intros (x & Hx & Herr)%IH. exists x. split; [by right|done].
Qed.

Lemma exportToolGroups_error w err w' :
  exportToolGroups E dir w = (Some err, w') →
  ∃ g, g ∈ listed (toolGroupConfigs E) ∧
    ((∃ cause, err = wrapError ("failed to serialize entity " +:+ dir +:+ "/"
                                +:+ Name g +:+ ": ") cause) ∨
     (∃ op no, (op = "open" ∨ op = "write" ∨ op = "close") ∧
        err = wrapError ("failed to write entity file "
                         +:+ Join [dir; Base (Name g) +:+ ".json"] +:+ ": ")
                (PathError op (Join [dir; Base (Name g) +:+ ".json"]) no))).
Proof.
  rewrite exportToolGroups_eq.
  destruct (toolGroupConfigs E) as [[|g groups]|gErr]; [done| |done]. apply writeEach_error.
Qed.

Lemma exportMcpServers_error w err w' :
  exportMcpServers E dir w = (Some err, w') →
  ∃ s, s ∈ listed (serverConfigs E) ∧
    ((∃ cause, err = wrapError ("failed to serialize entity " +:+ dir +:+ "/"
                                +:+ Name s +:+ ": ") cause) ∨
     (∃ op no, (op = "open" ∨ op = "write" ∨ op = "close") ∧
        err = wrapError ("failed to write entity file "
                         +:+ Join [dir; Base (Name s) +:+ ".json"] +:+ ": ")
                (PathError op (Join [dir; Base (Name s) +:+ ".json"]) no))).
Proof.
  rewrite exportMcpServers_eq.
  destruct (serverConfigs E) as [[|s servers]|sErr]; [done| |done]. apply writeEach_error.
Qed.

End category_report.

(** ** Runs, case by case *)

Section run_cases.
Context {G V : Type} `{Named G, Marshaler G, Named V, Marshaler V}.
Context (E : environ G V).
Context (root : string) (Hroot : targetDirCleaned E = Ok root).

Local Abbreviation T := (os.locate E root).
Local Abbreviation groupsAt := (T ++ [exportToolGroupsDir]).
Local Abbreviation serversAt := (T ++ [exportMcpServersDir]).
Local Abbreviation groupsDir := (Join [root; exportToolGroupsDir]).
Local Abbreviation serversDir := (Join [root; exportMcpServersDir]).

Lemma runExport_inv w r w' :
  runExport E w = (r, w') →
  ∃ res w1, resolveTargetDirForExport E w = (res, w1) ∧
    match res with
    | Err err =>
        r = Some (wrapError "failed to resolve target directory for export: " err) ∧ w' = w1
    | Ok _ =>
        (∃ no,
            r = Some (wrapError "failed to create groups directory: "
                        (PathError "mkdir" groupsDir no)) ∧
            w' = World (fs w1) (stdout w1 ++ [creatingLine root])
                   (journal w1 ++ [Sys (SysMkdir groupsAt) (Some no)])) ∨
        (∃ no,
            r = Some (wrapError "failed to create mcp servers directory: "
                        (PathError "mkdir" serversDir no)) ∧
            w' = World (<[groupsAt := Dir]> (fs w1)) (stdout w1 ++ [creatingLine root])
                   (journal w1 ++ [Sys (SysMkdir groupsAt) None;
                                   Sys (SysMkdir serversAt) (Some no)])) ∨
        (∃ rg w2,
            exportToolGroups E groupsDir (prepared T (creatingLine root) w1) = (rg, w2) ∧
            match rg with
            | Some err => r = Some err ∧ w' = w2
            | None =>
                ∃ rs w3, exportMcpServers E serversDir w2 = (rs, w3) ∧
                  match rs with
                  | Some err => r = Some err ∧ w' = w3
                  | None =>
                      r = None ∧
                      w' = World (fs w3) (stdout w3 ++ [completionLine]) (journal w3)
                  end
            end)
    end.
Proof.
  unfold runExport, bind, ret.
  destruct (prepareSubdirectories E w) as [prep w2] eqn:Hprep.
  apply (prepare_inv E root Hroot) in Hprep as (res & w1 & Hres & Hprep).
  intros Hrun. exists res, w1. split; [done|]. revert Hrun.
  destruct res as [root'|err].
  - destruct Hprep as [(no & -> & ->)|[(no & -> & ->)|[-> ->]]].
    + intros [= <- <-]. left. by exists no.
    + intros [= <- <-]. right; left. by exists no.
    + intros Hrun. right; right.
      destruct (exportToolGroups E _ _) as [rg w3] eqn:Hg. exists rg, w3. split; [done|].
      destruct rg as [err|]; [by injection Hrun as <- <-|].
      destruct (exportMcpServers E _ w3) as [rs w4] eqn:Hs. exists rs, w4. split; [done|].
      destruct rs as [err|]; by injection Hrun as <- <-.
  - destruct Hprep as [-> ->]. by intros [= <- <-].
Qed.

End run_cases.

(** ** What a run prints *)

(** Telling texts apart by their first character. *)
Lemma first_char_ne (a b : string) : String.get 0 a ≠ String.get 0 b → a ≠ b.
Proof. by intros Hne ->. Qed.

Ltac other_text := apply first_char_ne; vm_compute; discriminate.

Lemma creatingLine_ne root : creatingLine root ≠ completionLine.
Proof. other_text. Qed.

Lemma groupsReport_ne {A} (listing : result (list A)) dir :
  groupsReport listing dir ≠ completionLine.
Proof. destruct listing as [[|x xs]|err]; other_text. Qed.

Lemma serversReport_ne {A} (listing : result (list A)) dir :
  serversReport listing dir ≠ completionLine.
Proof. destruct listing as [[|x xs]|err]; other_text. Qed.

Section run_output.
Context {G V : Type} `{Named G, Marshaler G, Named V, Marshaler V}.
Context (E : environ G V).
Context (root : string) (Hroot : targetDirCleaned E = Ok root).

Local Abbreviation T := (os.locate E root).
Local Abbreviation groupsAt := (T ++ [exportToolGroupsDir]).
Local Abbreviation serversAt := (T ++ [exportMcpServersDir]).
Local Abbreviation groupsDir := (Join [root; exportToolGroupsDir]).
Local Abbreviation serversDir := (Join [root; exportMcpServersDir]).

(** The texts of a run, by how far it came. *)
Lemma runExport_stdout w r w' :
  runExport E w = (r, w') →
  ∃ texts, stdout w' = stdout w ++ texts ++ (if r is None then [completionLine] else []) ∧
    texts `prefix_of` [creatingLine root;
                       "Fetching Tool Group configurations..." +:+ LF;
                       groupsReport (toolGroupConfigs E) groupsDir;
                       "Fetching MCP Server configurations..." +:+ LF;
                       serversReport (serverConfigs E) serversDir] ∧
    (r = None → length texts = 5).
Proof.
  intros Hrun. apply (runExport_inv E root Hroot) in Hrun as (res & w1 & Hres & Hrun).
  apply resolve_inv in Hres. rewrite Hroot in Hres. destruct Hres as [(Hout1 & _) _].
  destruct res as [root'|err].
  - destruct Hrun as [(no & -> & ->)|[(no & -> & ->)|(rg & w2 & Hg & Hrun)]].
    + exists [creatingLine root]. simpl. rewrite Hout1. split; [done|].
      split; [by eexists|done].
    + exists [creatingLine root]. simpl. rewrite Hout1. split; [done|].
      split; [by eexists|done].
    + apply (exportToolGroups_report E groupsAt (groupsAt_real E root Hroot) _
               (groupsDir_eq E root Hroot)) in Hg. simpl in Hg.
      destruct rg as [err|].
      * destruct Hrun as [-> ->]. eexists (_ :: _ :: _ :: []).
        rewrite Hg, Hout1, <- !app_assoc. simpl. split; [done|]. split; [by eexists|done].
      * destruct Hrun as (rs & w3 & Hs & Hrun).
        apply (exportMcpServers_report E serversAt (serversAt_real E root Hroot) _
                 (serversDir_eq E root Hroot)) in Hs.
        eexists (_ :: _ :: _ :: _ :: _ :: []).
        destruct rs as [err|]; destruct Hrun as [-> ->]; simpl;
          rewrite Hs, Hg, Hout1, <- !app_assoc; simpl; (split; [done|]);
          (split; [by exists []|done]).
  - destruct Hrun as [-> ->]. exists []. rewrite Hout1, app_nil_r.
    split; [done|]. split; [apply prefix_nil|done].
Qed.

End run_output.

(** X14. A run that returns no error has printed exactly six texts: the
    announcement of the subdirectories, and for each category the
    announcement of the listing call and one report (the warning of the failed
    listing, the notice that nothing was found, or the directory that is
    written to), then the line of completion. *)
Theorem output_of_successful_run {G V} `{Named G, Marshaler G, Named V, Marshaler V}
    (E : environ G V) (w w' : world) (root : string) :
  targetDirCleaned E = Ok root →
  runExport E w = (None, w') →
  stdout w'
  = stdout w ++ [creatingLine root;
                 "Fetching Tool Group configurations..." +:+ LF;
                 groupsReport (toolGroupConfigs E) (Join [root; exportToolGroupsDir]);
                 "Fetching MCP Server configurations..." +:+ LF;
                 serversReport (serverConfigs E) (Join [root; exportMcpServersDir]);
                 completionLine].
Proof.
  intros Hroot Hrun.
  apply (runExport_stdout E root Hroot) in Hrun as (texts & -> & [rest Hpre] & Hlen).
  specialize (Hlen eq_refl). f_equal.
  assert (rest = []) as ->.
  { apply (f_equal length) in Hpre. rewrite length_app, Hlen in Hpre. simpl in Hpre.
    destruct rest; [done|simpl in Hpre; lia]. }
  rewrite app_nil_r in Hpre. by rewrite <- Hpre.
Qed.

Lemma output_of_successful_run_witness :
  let E := sampleEnviron "/t" "" (Err (errorString "connection refused")) (Ok []) in
  stdout (runExport E emptyWorld).2
  = ["Creating subdirectories inside /t" +:+ LF +:+ LF;
     "Fetching Tool Group configurations..." +:+ LF;
     "warning: failed to fetch tool group configurations: connection refused" +:+ LF;
     "Fetching MCP Server configurations..." +:+ LF;
     "No MCP Servers found." +:+ LF;
     LF +:+ "Export complete!" +:+ LF].
Proof.
  intros E.
  rewrite (output_of_successful_run E emptyWorld (runExport E emptyWorld).2 "/t");
    [reflexivity|reflexivity|vm_compute; reflexivity].
Defined.

(** X15. The line of completion is among the texts of a run exactly when
    the run returns no error, and it is then the last one. *)
Theorem completion_line_iff_success {G V} `{Named G, Marshaler G, Named V, Marshaler V}
    (E : environ G V) (w w' : world) (r : option error) :
  runExport E w = (r, w') →
  ∃ new, stdout w' = stdout w ++ new ∧
    (completionLine ∈ new ↔ r = None) ∧
    (r = None → List.last new "" = completionLine).
Proof.
  intros Hrun. destruct (targetDirCleaned E) as [root|err] eqn:Hroot.
  - pose proof (runExport_stdout E root Hroot _ _ _ Hrun) as (texts & Hout & Hpre & _).
    assert (completionLine ∉ texts) as Hno.
    { intros Hin. eapply elem_of_prefix in Hin; [|exact Hpre].
      repeat (apply elem_of_cons in Hin as [Hin|Hin];
              [symmetry in Hin; revert Hin;
               first [apply creatingLine_ne|apply groupsReport_ne
                     |apply serversReport_ne|other_text]|]).
      by apply elem_of_nil in Hin. }
    eexists. split; [exact Hout|]. destruct r as [err|].
    + rewrite app_nil_r. split; [|done]. split; [done|done].
    + split; [|intros _; by rewrite last_last].
      split; [done|]. intros _. apply elem_of_app. right. by left.
  - rewrite (runExport_unresolved E err w Hroot) in Hrun. injection Hrun as <- <-.
    exists []. split; [by rewrite app_nil_r|]. split; [|done].
    split; [by intros ?%elem_of_nil|done].
Qed.

Lemma completion_line_iff_success_witness :
  let E := refusingEnviron (SysMkdir ["t"; "servers"]) "/t" "" (Ok [prodGroup]) (Ok []) in
  stdout (runExport E emptyWorld).2 = ["Creating subdirectories inside /t" +:+ LF +:+ LF] ∧
  completionLine ∉ stdout (runExport E emptyWorld).2.
Proof.
  intros E. split; [reflexivity|].
  destruct (completion_line_iff_success E emptyWorld (runExport E emptyWorld).2
              (runExport E emptyWorld).1) as (new & Hout & Hiff & _);
    [vm_compute; reflexivity|].
  simpl in Hout. rewrite Hout. intros Hin. apply Hiff in Hin. discriminate Hin.
Defined.

(** ** The journal of a run *)

Lemma sysWithin_other D new c : Forall (sysWithin D) new → Forall (λ ev, ev ≠ Fetch c) new.
Proof. intros Hnew. eapply Forall_impl; [exact Hnew|]. by intros [call res|c'] Hev. Qed.

Lemma writeWithin_other D new c : Forall (writeWithin D) new → Forall (λ ev, ev ≠ Fetch c) new.
Proof. intros Hnew. eapply Forall_impl; [exact Hnew|]. by intros [call res|c'] Hev. Qed.

Lemma none_is_not_found {A} (l pre post : list A) x :
  Forall (λ y, y ≠ x) l → l ≠ pre ++ x :: post.
Proof.
  intros Hl ->. rewrite Forall_app, Forall_cons in Hl. by destruct Hl as (_ & ? & _).
Qed.

(** Where the only occurrence of an element splits a list. *)
Lemma split_at_only {A} (l1 l2 pre post : list A) x :
  Forall (λ y, y ≠ x) l1 → Forall (λ y, y ≠ x) l2 →
  l1 ++ x :: l2 = pre ++ x :: post → pre = l1 ∧ post = l2.
Proof.
  intros H1 H2 Heq. apply split_at_first in Heq as (b & -> & Heq).
  - destruct b as [|y b]; simpl in Heq.
    + injection Heq as <-. by rewrite app_nil_r.
    + injection Heq as <- ->. rewrite Forall_app, Forall_cons in H2.
      by destruct H2 as (_ & ? & _).
  - intros Hin. rewrite Forall_forall in H1. by apply H1 in Hin.
Qed.

Section run_journal.
Context {G V : Type} `{Named G, Marshaler G, Named V, Marshaler V}.
Context (E : environ G V).
Context (root : string) (Hroot : targetDirCleaned E = Ok root).

Local Abbreviation T := (os.locate E root).
Local Abbreviation groupsAt := (T ++ [exportToolGroupsDir]).
Local Abbreviation serversAt := (T ++ [exportMcpServersDir]).
Local Abbreviation groupsDir := (Join [root; exportToolGroupsDir]).
Local Abbreviation serversDir := (Join [root; exportMcpServersDir]).

(** The journal of a run, by how far it came: either the listing of the
    servers was not called, or it was called after the groups were written. *)
Lemma runExport_fetches w r w' :
  runExport E w = (r, w') →
  ∃ new, journal w' = journal w ++ new ∧
    ((is_Some r ∧ Forall (λ ev, ev ≠ Fetch McpServer) new) ∨
     ∃ n1 ns,
       new = (n1 ++ [Sys (SysMkdir groupsAt) None; Sys (SysMkdir serversAt) None]
              ++ Fetch ToolGroup :: writeEvents groupsAt (listed (toolGroupConfigs E)))
             ++ Fetch McpServer :: ns ∧
       Forall (sysWithin T) n1 ∧ Forall (writeWithin serversAt) ns ∧
       Forall encodable (listed (toolGroupConfigs E)) ∧
       (r = None → ns = writeEvents serversAt (listed (serverConfigs E)))).
Proof.
  intros Hrun. apply (runExport_inv E root Hroot) in Hrun as (res & w1 & Hres & Hrun).
  apply resolve_inv in Hres. rewrite Hroot in Hres.
  destruct Hres as [(_ & (n1 & Hj1 & Hn1) & _) _].
  pose proof (sysWithin_other _ _ McpServer Hn1) as Hn1'.
  destruct res as [root'|err].
  - destruct Hrun as [(no & -> & ->)|[(no & -> & ->)|(rg & w2 & Hg & Hrun)]].
    + eexists. simpl. rewrite Hj1, <- app_assoc. split; [done|]. left. split; [done|].
      apply Forall_app. split; [done|]. by apply Forall_singleton.
    + eexists. simpl. rewrite Hj1, <- app_assoc. split; [done|]. left. split; [done|].
      apply Forall_app. split; [done|]. by repeat constructor.
    + destruct rg as [err|].
      * destruct Hrun as [-> ->].
        apply (exportToolGroups_inv E groupsAt (groupsAt_real E root Hroot) _
                 (groupsDir_eq E root Hroot)) in Hg as ((_ & ng & _ & -> & Hng & _) & _).
        eexists. simpl. rewrite Hj1, <- !app_assoc. split; [done|]. left. split; [done|].
        apply Forall_app. split; [done|]. repeat (constructor; [done|]).
        by eapply writeWithin_other.
      * destruct Hrun as (rs & w3 & Hs & Hrun).
        pose proof (exportToolGroups_journal E groupsAt (groupsAt_real E root Hroot) _
                      (groupsDir_eq E root Hroot) _ _ Hg) as Hjg.
        apply (exportToolGroups_inv E groupsAt (groupsAt_real E root Hroot) _
                 (groupsDir_eq E root Hroot)) in Hg as (_ & _ & Hok).
        destruct (Hok eq_refl) as [_ Henc].
        pose proof (exportMcpServers_inv E serversAt (serversAt_real E root Hroot) _
                      (serversDir_eq E root Hroot) _ _ _ Hs)
          as ((_ & ns & _ & Hjs & Hns & _) & _).
        exists ((n1 ++ [Sys (SysMkdir groupsAt) None; Sys (SysMkdir serversAt) None]
                 ++ Fetch ToolGroup :: writeEvents groupsAt (listed (toolGroupConfigs E)))
                ++ Fetch McpServer :: ns).
        assert (journal w3
                = journal w
                  ++ (n1 ++ [Sys (SysMkdir groupsAt) None; Sys (SysMkdir serversAt) None]
                      ++ Fetch ToolGroup :: writeEvents groupsAt (listed (toolGroupConfigs E)))
                  ++ Fetch McpServer :: ns) as Hj3.
        { rewrite Hjs, Hjg. simpl. rewrite Hj1, <- !app_assoc. done. }
        split.
        { by destruct rs as [err|]; destruct Hrun as [-> ->]. }
        right. exists n1, ns. split; [done|]. split; [done|]. split; [done|]. split; [done|].
        intros ->. destruct rs as [err|]; [by destruct Hrun|].
        apply (exportMcpServers_journal E serversAt (serversAt_real E root Hroot) _
                 (serversDir_eq E root Hroot)) in Hs.
        rewrite Hjs in Hs. by apply app_inv_head in Hs as [= ->].
  - destruct Hrun as [-> ->]. exists n1. split; [done|]. by left.
Qed.

End run_journal.

(** X16. The journal of a run that returns no error continues the journal
    of the resolution of the target with, in this order: the creation of the
    two subdirectories, the listing of the tool groups, one write for each
    listed group in the order of the listing, the listing of the servers, and
    one write for each listed server in the order of the listing. *)
Theorem journal_of_successful_run {G V} `{Named G, Marshaler G, Named V, Marshaler V}
    (E : environ G V) (w w' : world) (root : string) :
  targetDirCleaned E = Ok root →
  runExport E w = (None, w') →
  ∃ w0, resolveTargetDirForExport E w = (Ok root, w0) ∧
    journal w'
    = journal w0
      ++ [Sys (SysMkdir (os.locate E root ++ [exportToolGroupsDir])) None;
          Sys (SysMkdir (os.locate E root ++ [exportMcpServersDir])) None]
      ++ Fetch ToolGroup
         :: writeEvents (os.locate E root ++ [exportToolGroupsDir]) (listed (toolGroupConfigs E))
      ++ Fetch McpServer
         :: writeEvents (os.locate E root ++ [exportMcpServersDir]) (listed (serverConfigs E)).
Proof.
  intros Hroot Hrun.
  apply (runExport_inv E root Hroot) in Hrun as (res & w0 & Hres & Hrun).
  pose proof (resolve_inv E _ _ _ Hres) as Hinv. rewrite Hroot in Hinv.
  destruct res as [root'|err]; [|by destruct Hrun].
  destruct Hinv as (_ & -> & _). exists w0. split; [done|].
  destruct Hrun as [(no & [=] & _)|[(no & [=] & _)|(rg & w2 & Hg & Hrun)]].
  destruct rg as [err|]; [by destruct Hrun|].
  destruct Hrun as (rs & w3 & Hs & Hrun). destruct rs as [err|]; [by destruct Hrun|].
  destruct Hrun as [_ ->]. simpl.
  apply (exportToolGroups_journal E _ (groupsAt_real E root Hroot) _
           (groupsDir_eq E root Hroot)) in Hg.
  apply (exportMcpServers_journal E _ (serversAt_real E root Hroot) _
           (serversDir_eq E root Hroot)) in Hs.
  rewrite Hs, Hg. simpl. by rewrite <- !app_assoc.
Qed.

Lemma journal_of_successful_run_witness :
  let E := sampleEnviron "/t" "" (Ok [serverB; serverA]) (Ok [otherA]) in
  journal (runExport E emptyDirWorld).2
  = journal (resolveTargetDirForExport E emptyDirWorld).2
    ++ [Sys (SysMkdir ["t"; "groups"]) None; Sys (SysMkdir ["t"; "servers"]) None;
        Fetch ToolGroup;
        Sys (SysWriteFile ["t"; "groups"; "B.json"]) None;
        Sys (SysWriteFile ["t"; "groups"; "A.json"]) None;
        Fetch McpServer;
        Sys (SysWriteFile ["t"; "servers"; "A.json"]) None].
Proof.
  intros E.
  destruct (journal_of_successful_run E emptyDirWorld (runExport E emptyDirWorld).2 "/t")
    as (w0 & Hres & Hj); [reflexivity|vm_compute; reflexivity|].
  rewrite Hj, Hres. reflexivity.
Defined.

(** X17. In every run the listing of the servers is called at most once,
    and only after the listing of the tool groups and after every listed
    tool group was serialized and written; what follows it are writes into the
    subdirectory of the servers only. *)
Theorem servers_listed_after_groups_written {G V}
    `{Named G, Marshaler G, Named V, Marshaler V}
    (E : environ G V) (w w' : world) (r : option error) (root : string) :
  targetDirCleaned E = Ok root →
  runExport E w = (r, w') →
  ∃ new, journal w' = journal w ++ new ∧
    ∀ pre post, new = pre ++ Fetch McpServer :: post →
      Fetch ToolGroup ∈ pre ∧ (Fetch McpServer ∉ pre) ∧
      Forall encodable (listed (toolGroupConfigs E)) ∧
      (∀ g, g ∈ listed (toolGroupConfigs E) →
            (Sys (SysWriteFile (entityFile (os.locate E root ++ [exportToolGroupsDir]) g)) None)
            ∈ pre) ∧
      Forall (writeWithin (os.locate E root ++ [exportMcpServersDir])) post.
Proof.
  intros Hroot Hrun.
  apply (runExport_fetches E root Hroot) in Hrun
    as (new & -> & [[_ Hnone]|(n1 & ns & -> & Hn1 & Hns & Henc & _)]).
  - exists new. split; [done|]. intros pre post Heq.
    by apply none_is_not_found in Heq.
  - eexists. split; [done|]. intros pre post Heq.
    assert (Forall (λ ev, ev ≠ Fetch McpServer)
              (n1 ++ [Sys (SysMkdir (os.locate E root ++ [exportToolGroupsDir])) None;
                      Sys (SysMkdir (os.locate E root ++ [exportMcpServersDir])) None]
               ++ Fetch ToolGroup
                  :: writeEvents (os.locate E root ++ [exportToolGroupsDir])
                       (listed (toolGroupConfigs E)))) as Hl1.
    { apply Forall_app. split; [by eapply sysWithin_other|].
      repeat (constructor; [done|]). apply Forall_fmap, Forall_true. done. }
    apply split_at_only in Heq as [-> ->]; [|done|by eapply writeWithin_other].
    split; [|split; [|split; [done|split; [|done]]]].
    + apply elem_of_app. right. simpl. do 2 (apply elem_of_cons; right). by left.
    + intros Hin. rewrite Forall_forall in Hl1. by apply Hl1 in Hin.
    + intros g Hg. apply elem_of_app. right. simpl. do 3 (apply elem_of_cons; right).
      apply list_elem_of_fmap. by exists g.
Qed.

Lemma servers_listed_after_groups_written_witness :
  let E := sampleEnviron "/t" "" (Ok [serverA; unencodable]) (Ok [serverB]) in
  is_Some (runExport E emptyWorld).1 ∧ Fetch McpServer ∉ journal (runExport E emptyWorld).2.
Proof.
  intros E. split; [eexists; vm_compute; reflexivity|].
  destruct (servers_listed_after_groups_written E emptyWorld (runExport E emptyWorld).2
              (runExport E emptyWorld).1 "/t") as (new & Hj & Hnew);
    [reflexivity|vm_compute; reflexivity|].
  simpl in Hj. rewrite Hj. intros (pre & post & Heq)%list_elem_of_split.
  destruct (Hnew pre post Heq) as (_ & _ & Henc & _).
  apply Forall_cons in Henc as [_ Henc]. apply Forall_cons in Henc as [[data Hdata] _].
  discriminate Hdata.
Defined.

(** ** The errors of a run *)

(** X18. Every error of a run carries the context of the step that failed:
    the resolution of the target, the creation of one of the two
    subdirectories (with the [*PathError] of [mkdir] on the subdirectory), or
    the serialization or the write of one entity of a listing (with the
    directory and the name of the entity, or with the file and the
    [*PathError] of the step of [os.WriteFile] that failed: its open, its
    write or its close). *)
Theorem run_errors_have_context {G V} `{Named G, Marshaler G, Named V, Marshaler V}
    (E : environ G V) (w w' : world) (err : error) :
  runExport E w = (Some err, w') →
  (∃ cause, err = wrapError "failed to resolve target directory for export: " cause) ∨
  ∃ root, targetDirCleaned E = Ok root ∧
    ((∃ no, err = wrapError "failed to create groups directory: "
                    (PathError "mkdir" (Join [root; exportToolGroupsDir]) no)) ∨
     (∃ no, err = wrapError "failed to create mcp servers directory: "
                    (PathError "mkdir" (Join [root; exportMcpServersDir]) no)) ∨
     (∃ g, g ∈ listed (toolGroupConfigs E) ∧
        ((∃ cause, err = wrapError ("failed to serialize entity "
                                    +:+ Join [root; exportToolGroupsDir] +:+ "/"
                                    +:+ Name g +:+ ": ") cause) ∨
         (∃ op no, (op = "open" ∨ op = "write" ∨ op = "close") ∧
            err = wrapError ("failed to write entity file "
                             +:+ Join [Join [root; exportToolGroupsDir];
                                       Base (Name g) +:+ ".json"] +:+ ": ")
                    (PathError op (Join [Join [root; exportToolGroupsDir];
                                         Base (Name g) +:+ ".json"]) no)))) ∨
     (∃ s, s ∈ listed (serverConfigs E) ∧
        ((∃ cause, err = wrapError ("failed to serialize entity "
                                    +:+ Join [root; exportMcpServersDir] +:+ "/"
                                    +:+ Name s +:+ ": ") cause) ∨
         (∃ op no, (op = "open" ∨ op = "write" ∨ op = "close") ∧
            err = wrapError ("failed to write entity file "
                             +:+ Join [Join [root; exportMcpServersDir];
                                       Base (Name s) +:+ ".json"] +:+ ": ")
                    (PathError op (Join [Join [root; exportMcpServersDir];
                                         Base (Name s) +:+ ".json"]) no))))).
Proof.
  intros Hrun. destruct (targetDirCleaned E) as [root|err'] eqn:Hroot.
  - pose proof (runExport_inv E root Hroot _ _ _ Hrun) as (res & w1 & Hres & Hcases).
    destruct res as [root'|cause]; [|destruct Hcases as [[= ->] _]; left; by exists cause].
    right. exists root. split; [done|].
    destruct Hcases as [(no & [= ->] & _)|[(no & [= ->] & _)|(rg & w2 & Hg & Hcases)]].
    + left. by exists no.
    + right; left. by exists no.
    + right; right. destruct rg as [e|].
      * destruct Hcases as [[= ->] ->]. left.
        by apply exportToolGroups_error in Hg.
      * destruct Hcases as (rs & w3 & Hs & Hcases). destruct rs as [e|]; [|by destruct Hcases].
        destruct Hcases as [[= ->] ->]. right.
        by apply exportMcpServers_error in Hs.
  - rewrite (runExport_unresolved E err' w Hroot) in Hrun. injection Hrun as <- <-.
    left. by exists err'.
Qed.

Lemma run_errors_have_context_witness :
  let E := sampleEnviron "/t" "" (Ok [prodGroup]) (Ok [serverA; unencodable]) in
  option_map Error (runExport E emptyWorld).1
  = Some "failed to serialize entity /t/servers/C: json: unsupported value".
Proof.
  intros E.
  destruct (run_errors_have_context E emptyWorld (runExport E emptyWorld).2
              (wrapError "failed to serialize entity /t/servers/C: "
                 (errorString "json: unsupported value")))
    as [[cause Hcause]|(root & Hroot & _)]; [reflexivity|discriminate Hcause|].
  reflexivity.
Defined.

(** ** Runs without faults *)

(** X19. When the system refuses nothing, the file system is well formed,
    no file is in the way of the target and the target has no entry, the run
    returns no error exactly when every listed entity can be serialized. *)
Theorem fault_free_run_succeeds_iff {G V} `{Named G, Marshaler G, Named V, Marshaler V}
    (E : environ G V) (w : world) (root : string) :
  compliant E →
  fsWellFormed (fs w) →
  targetDirCleaned E = Ok root →
  (∀ k data, k `prefix_of` os.locate E root → os.lookupNode (fs w) k ≠ Some (File data)) →
  (∀ name, fs w !! (os.locate E root ++ [name]) = None) →
  (∃ w', runExport E w = (None, w'))
  ↔ (Forall encodable (listed (toolGroupConfigs E)) ∧
     Forall encodable (listed (serverConfigs E))).
Proof.
  intros Hc Hwf Hroot Hfiles Hnone. split.
  - intros [w' Hrun].
    by apply (runExport_success_inv E root Hroot) in Hrun as (_ & _ & _ & ? & ? & _).
  - intros [Hg Hs].
    destruct (resolve_absent_or_empty E w root) as (w1 & Hres & _); [done..|].
    by eapply (runExport_success E root Hroot).
Qed.

Lemma fault_free_run_succeeds_iff_witness :
  let E := sampleEnviron "export" "" (Ok [prodGroup]) (Ok [serverA; serverB]) in
  ∃ w', runExport E emptyWorld = (None, w').
Proof.
  intros E. apply (fault_free_run_succeeds_iff E emptyWorld "/work/export").
  - apply sampleEnviron_compliant.
  - apply fsWellFormed_empty.
  - reflexivity.
  - intros k data _. destruct k; [done|]. simpl. by rewrite lookup_empty.
  - intros name. apply lookup_empty.
  - split; repeat constructor; eexists; reflexivity.
Defined.

(** ** What a run leaves in the file system *)

Lemma written_lookup {A} `{Named A, Marshaler A} (D : path) m (xs : list A) k n :
  written D m xs !! k = Some n →
  m !! k = Some n ∨ ∃ x, x ∈ xs ∧ k = entityFile D x ∧ n = File (encoded x).
Proof.
  induction xs as [|x xs IH] using rev_ind; [by left|].
  unfold written. rewrite foldl_app. simpl. fold (written D m xs).
  destruct (decide (entityFile D x = k)) as [<-|Hne].
  - rewrite lookup_insert_eq. intros [= <-]. right. exists x.
    split; [|done]. apply elem_of_app. right. by left.
  - rewrite lookup_insert_ne by done. intros [Hm|(y & Hy & ? & ?)]%IH; [by left|].
    right. exists y. split; [|done]. apply elem_of_app. by left.
Qed.

Lemma entry_ne_dir (p : path) a l : (p ++ [a]) ++ [l] ≠ p.
Proof.
  intros Heq. apply (f_equal length) in Heq. rewrite !length_app in Heq. simpl in Heq. lia.
Qed.

Section run_files_left.
Context {G V : Type} `{Named G, Marshaler G, Named V, Marshaler V}.
Context (E : environ G V).
Context (root : string) (Hroot : targetDirCleaned E = Ok root).

Local Abbreviation T := (os.locate E root).
Local Abbreviation groupsAt := (T ++ [exportToolGroupsDir]).
Local Abbreviation serversAt := (T ++ [exportMcpServersDir]).
Local Abbreviation groupsDir := (Join [root; exportToolGroupsDir]).
Local Abbreviation serversDir := (Join [root; exportMcpServersDir]).

(** The target directory and its entries after a run that returns no error. *)
Lemma runExport_success_target w w' :
  runExport E w = (None, w') →
  os.lookupNode (fs w') T = Some Dir ∧
  ∀ name, fs w' !! (T ++ [name])
          = if decide (name = exportToolGroupsDir ∨ name = exportMcpServersDir)
            then Some Dir else None.
Proof.
  intros Hrun. apply (runExport_success_inv E root Hroot) in Hrun as (w1 & Hres & -> & _).
  apply (resolved_facts E root Hroot) in Hres as (_ & _ & Hdir & Hempty).
  split.
  - destruct T as [|t T'] eqn:HT; [done|]. rewrite <- HT in *.
    rewrite lookupNode_cons in Hdir |- * by (by rewrite HT).
    rewrite !written_other by (intros x _; unfold entityFile; apply entry_ne_dir).
    simpl. by rewrite !lookup_insert_ne by apply snoc_ne.
  - intros name.
    rewrite !written_other by (intros x _; unfold entityFile; apply sub_entry_ne_sub).
    simpl. case_decide as Hname.
    + destruct Hname as [->| ->].
      * rewrite lookup_insert_ne by (by apply sub_ne). by rewrite lookup_insert_eq.
      * by rewrite lookup_insert_eq.
    + rewrite !lookup_insert_ne; [done|apply sub_ne|apply sub_ne]; naive_solver.
Qed.

(** What a run may change: after the directories that resolution adds on the
    way to the target, the two subdirectories and entries of them. *)
Lemma runExport_changes w r w' :
  runExport E w = (r, w') →
  ∃ w1, dirStep T w w1 ∧
    (fs w' = fs w1 ∨
     ((∀ name, fs w1 !! (T ++ [name]) = None) ∧
      ∀ k, k ≠ groupsAt → k ≠ serversAt →
           (∀ leaf, k ≠ groupsAt ++ [leaf]) → (∀ leaf, k ≠ serversAt ++ [leaf]) →
           fs w' !! k = fs w1 !! k)).
Proof.
  intros Hrun. apply (runExport_inv E root Hroot) in Hrun as (res & w1 & Hres & Hrun).
  apply resolve_inv in Hres. rewrite Hroot in Hres. destruct Hres as [Hstep Hres].
  exists w1. split; [done|].
  destruct res as [root'|err]; [|destruct Hrun as [_ ->]; by left].
  destruct Hres as (_ & _ & Hempty).
  destruct Hrun as [(no & _ & ->)|[(no & _ & ->)|(rg & w2 & Hg & Hrun)]]; [by left| |];
    right; (split; [done|]); intros k Hkg Hks Hkgl Hksl.
  - simpl. by rewrite lookup_insert_ne.
  - apply (exportToolGroups_inv E groupsAt (groupsAt_real E root Hroot) _
             (groupsDir_eq E root Hroot)) in Hg as (_ & Hframe & _).
    assert (fs w2 !! k = fs w1 !! k) as Hk2.
    { rewrite Hframe by done. simpl. by rewrite !lookup_insert_ne. }
    destruct rg as [err|]; [by destruct Hrun as [_ ->]|].
    destruct Hrun as (rs & w3 & Hs & Hrun).
    apply (exportMcpServers_inv E serversAt (serversAt_real E root Hroot) _
             (serversDir_eq E root Hroot)) in Hs as (_ & Hframe' & _).
    assert (fs w3 !! k = fs w1 !! k) as Hk3 by (by rewrite Hframe').
    by destruct rs as [err|]; destruct Hrun as [_ ->].
Qed.

End run_files_left.

(** X20. A second run into the directory of a run that returned no error
    is rejected: the target then holds the two subdirectories, so resolution
    fails with the error that it is not empty (when the system answers the
    two calls that look at it), and nothing is changed. *)
Theorem second_run_rejected {G V} `{Named G, Marshaler G, Named V, Marshaler V}
    (E : environ G V) (w w' : world) (root : string) :
  targetDirCleaned E = Ok root →
  runExport E w = (None, w') →
  refuse E (length (journal w')) (SysStat (os.locate E root)) = None →
  refuse E (S (length (journal w'))) (SysReadDir (os.locate E root)) = None →
  ∃ w'', runExport E w'
         = (Some (wrapError "failed to resolve target directory for export: "
                    (errorString ("target directory " +:+ root +:+ " is not empty"))), w'') ∧
         fs w'' = fs w'.
Proof.
  intros Hroot Hrun Hstat Hread.
  apply (runExport_success_target E root Hroot) in Hrun as [Hdir Hentries].
  assert (resolveTargetDirForExport E w'
          = (Err (errorString ("target directory " +:+ root +:+ " is not empty")),
             World (fs w') (stdout w')
               ((journal w' ++ [Sys (SysStat (os.locate E root)) None])
                ++ [Sys (SysReadDir (os.locate E root)) None]))) as Hres.
  { rewrite (resolve_listed E root Hroot w'
               (World (fs w') (stdout w')
                  (journal w' ++ [Sys (SysStat (os.locate E root)) None]))).
    - simpl. rewrite decide_True; [done|].
      destruct (os.entries (fs w') (os.locate E root)) eqn:Hnil; [|simpl; lia].
      apply (entries_nil _ _ exportToolGroupsDir) in Hnil.
      rewrite Hentries in Hnil. by rewrite decide_True in Hnil by (by left).
    - rewrite mkdirAll_existing; rewrite rev_involutive; done.
    - simpl. by rewrite length_app, Nat.add_1_r.
    - done. }
  eexists. split.
  - unfold runExport, prepareSubdirectories, bind, ret. by rewrite Hres.
  - done.
Qed.

Lemma second_run_rejected_witness :
  let E := sampleEnviron "/t" "" (Ok []) (Ok []) in
  option_map Error (runExport E (runExport E emptyWorld).2).1
  = Some "failed to resolve target directory for export: target directory /t is not empty".
Proof.
  intros E.
  destruct (second_run_rejected E emptyWorld (runExport E emptyWorld).2 "/t")
    as (w'' & Hrun & _); [reflexivity|vm_compute; reflexivity|reflexivity..|].
  rewrite Hrun. reflexivity.
Defined.

(** X21. A run is confined to its target: whatever it returns, a path of
    the file system that is not on the way to the target, is not one of the
    two subdirectories and is not an entry of one of them holds after the run
    what it held before. *)
Theorem run_confined_to_target {G V} `{Named G, Marshaler G, Named V, Marshaler V}
    (E : environ G V) (w w' : world) (r : option error) (root : string) :
  targetDirCleaned E = Ok root →
  runExport E w = (r, w') →
  ∀ k, ¬ k `prefix_of` os.locate E root →
       k ≠ os.locate E root ++ [exportToolGroupsDir] →
       k ≠ os.locate E root ++ [exportMcpServersDir] →
       (∀ leaf, k ≠ os.locate E root ++ [exportToolGroupsDir; leaf]) →
       (∀ leaf, k ≠ os.locate E root ++ [exportMcpServersDir; leaf]) →
       fs w' !! k = fs w !! k.
Proof.
  intros Hroot Hrun k Hk Hkg Hks Hkgl Hksl.
  apply (runExport_changes E root Hroot) in Hrun as (w1 & (_ & _ & Hadd & _) & Hcases).
  rewrite <- (onlyAddsDirs_outside _ _ _ _ Hadd Hk).
  destruct Hcases as [->|[_ Hframe]]; [done|]. apply Hframe; [done..| |].
  - intros leaf. rewrite <- app_assoc. apply Hkgl.
  - intros leaf. rewrite <- app_assoc. apply Hksl.
Qed.

Lemma run_confined_to_target_witness :
  let E := sampleEnviron "/t/out" "" (Ok [prodGroup]) (Ok [serverA]) in
  fs (runExport E occupiedWorld).2 !! ["t"; "test.txt"] = Some (File "test").
Proof.
  intros E.
  rewrite (run_confined_to_target E occupiedWorld (runExport E occupiedWorld).2
             (runExport E occupiedWorld).1 "/t/out");
    [reflexivity|reflexivity|vm_compute; reflexivity|..].
  - intros [rest Hrest]. discriminate Hrest.
  - discriminate.
  - discriminate.
  - discriminate.
  - discriminate.
Defined.

(** X22. From a well-formed file system, a run changes and removes nothing
    that existed: whatever it returns, every path that held something before
    the run holds the same after it. *)
Theorem run_preserves_existing {G V} `{Named G, Marshaler G, Named V, Marshaler V}
    (E : environ G V) (w w' : world) (r : option error) :
  fsWellFormed (fs w) →
  runExport E w = (r, w') →
  ∀ k n, fs w !! k = Some n → fs w' !! k = Some n.
Proof.
  intros Hwf Hrun k n Hk. destruct (targetDirCleaned E) as [root|err] eqn:Hroot.
  - pose proof (runExport_changes E root Hroot _ _ _ Hrun)
      as (w1 & (_ & _ & Hadd & Hwf1) & Hcases).
    pose proof (onlyAddsDirs_keeps _ _ _ _ _ Hadd Hk) as Hk1.
    destruct Hcases as [->|[Hempty Hframe]]; [done|].
    assert (∀ sub k', fs w1 !! ((os.locate E root ++ [sub]) ++ k') = None) as Hbelow.
    { intros sub [|leaf k']; [rewrite app_nil_r; apply Hempty|].
      apply fsWellFormed_below; [by apply Hwf1| |done].
      by rewrite lookupNode_snoc, Hempty. }
    rewrite Hframe; [done|..].
    + intros ->. by rewrite Hempty in Hk1.
    + intros ->. by rewrite Hempty in Hk1.
    + intros leaf ->. by rewrite Hbelow in Hk1.
    + intros leaf ->. by rewrite Hbelow in Hk1.
  - rewrite (runExport_unresolved E err w Hroot) in Hrun. by injection Hrun as <- <-.
Qed.

Lemma run_preserves_existing_witness :
  let E := sampleEnviron "/t/out" "" (Ok [prodGroup]) (Ok [unencodable]) in
  is_Some (runExport E occupiedWorld).1 ∧
  fs (runExport E occupiedWorld).2 !! ["t"; "test.txt"] = Some (File "test").
Proof.
  intros E. split; [eexists; vm_compute; reflexivity|].
  apply (run_preserves_existing E occupiedWorld (runExport E occupiedWorld).2
           (runExport E occupiedWorld).1); [|vm_compute; reflexivity|reflexivity].
  intros k name [n Hn]. simpl in Hn.
  apply lookup_insert_Some in Hn as [[Heq _]|[_ Hn]].
  - destruct k as [|? [|? [|? ?]]]; simpl in Heq; simplify_eq. reflexivity.
  - apply lookup_insert_Some in Hn as [[Heq _]|[_ Hn]]; [|by rewrite lookup_empty in Hn].
    destruct k as [|? [|? ?]]; simpl in Heq; simplify_eq. reflexivity.
Defined.

(** X23. After a run that returned no error, from a well-formed file
    system, each of the two subdirectories holds the files of the listed
    entities of its category and nothing else: whatever is below it is the
    file of a listed entity, directly in it, with the serialization of a
    listed entity of this file name. *)
Theorem exported_files_only {G V} `{Named G, Marshaler G, Named V, Marshaler V}
    (E : environ G V) (w w' : world) (root : string) :
  fsWellFormed (fs w) →
  targetDirCleaned E = Ok root →
  runExport E w = (None, w') →
  (∀ k n, k ≠ [] → fs w' !! ((os.locate E root ++ [exportToolGroupsDir]) ++ k) = Some n →
          ∃ g, g ∈ listed (toolGroupConfigs E) ∧ k = [leafName (Name g)] ∧
               n = File (encoded g)) ∧
  (∀ k n, k ≠ [] → fs w' !! ((os.locate E root ++ [exportMcpServersDir]) ++ k) = Some n →
          ∃ s, s ∈ listed (serverConfigs E) ∧ k = [leafName (Name s)] ∧
               n = File (encoded s)).
Proof.
  intros Hwf Hroot Hrun.
  apply (runExport_success_inv E root Hroot) in Hrun as (w1 & Hres & -> & _).
  apply (resolved_facts E root Hroot) in Hres as (_ & (_ & _ & _ & Hwf1) & _ & Hempty).
  destruct (prepared_groups E root w1 (Hwf1 Hwf) Hempty) as [_ Hg].
  destruct (prepared_servers E root w1 (Hwf1 Hwf) Hempty) as [_ Hs].
  split; intros k n Hk Hin.
  - apply written_lookup in Hin as [Hin|(s & _ & Heq & _)].
    + apply written_lookup in Hin as [Hin|(g & Hg' & Heq & ->)]; [by rewrite Hg in Hin|].
      unfold entityFile in Heq. apply app_inv_head in Heq as ->. by exists g.
    + unfold entityFile in Heq. by apply sub_trees_ne in Heq.
  - apply written_lookup in Hin as [Hin|(s & Hs' & Heq & ->)].
    + apply written_lookup in Hin as [Hin|(g & _ & Heq & _)]; [by rewrite Hs in Hin|].
      unfold entityFile in Heq. by apply sub_trees_ne in Heq.
    + unfold entityFile in Heq. apply app_inv_head in Heq as ->. by exists s.
Qed.

Lemma exported_files_only_witness :
  let E := sampleEnviron "/t" "" (Ok [prodGroup]) (Ok [serverA; otherA]) in
  ∃ s, s ∈ [serverA; otherA] ∧ ["A.json"] = [leafName (Name s)] ∧
       File (encoded otherA) = File (encoded s).
Proof.
  intros E.
  destruct (exported_files_only E emptyWorld (runExport E emptyWorld).2 "/t") as [_ Hservers];
    [apply fsWellFormed_empty|reflexivity|vm_compute; reflexivity|].
  apply (Hservers ["A.json"] (File (encoded otherA))); [discriminate|].
  vm_compute. reflexivity.
Defined.

(** X24. After a run that returned no error, the target is a directory
    with exactly two entries, the directories [groups] and [servers]: both are
    there also when a listing failed or was empty. *)
Theorem target_holds_two_subdirectories {G V} `{Named G, Marshaler G, Named V, Marshaler V}
    (E : environ G V) (w w' : world) (root : string) :
  targetDirCleaned E = Ok root →
  runExport E w = (None, w') →
  os.lookupNode (fs w') (os.locate E root) = Some Dir ∧
  ∀ name, fs w' !! (os.locate E root ++ [name])
          = if decide (name = exportToolGroupsDir ∨ name = exportMcpServersDir)
            then Some Dir else None.
Proof. intros Hroot. apply (runExport_success_target E root Hroot). Qed.

Lemma target_holds_two_subdirectories_witness :
  let E := sampleEnviron "/t" "" (Err (errorString "connection refused")) (Ok []) in
  fs (runExport E emptyWorld).2 !! ["t"; "groups"] = Some Dir ∧
  fs (runExport E emptyWorld).2 !! ["t"; "servers"] = Some Dir ∧
  fs (runExport E emptyWorld).2 !! ["t"; "prod-group.json"] = None.
Proof.
  intros E.
  destruct (target_holds_two_subdirectories E emptyWorld (runExport E emptyWorld).2 "/t")
    as [_ Hentries]; [reflexivity|vm_compute; reflexivity|].
  split; [exact (Hentries "groups")|]. split; [exact (Hentries "servers")|].
  exact (Hentries "prod-group.json").
Defined.

(** ** A target that the system does not let create *)

Section refused_calls.
Context {G V : Type} (E : environ G V).

Lemma stat_refused p w no :
  refuse E (length (journal w)) (SysStat p) = Some no →
  os.stat E p w
  = (inl no, World (fs w) (stdout w) (journal w ++ [Sys (SysStat p) (Some no)])).
Proof. intros Href. unfold os.stat, os.perform. by rewrite Href. Qed.

Lemma mkdir_refused p w no :
  refuse E (length (journal w)) (SysMkdir p) = Some no →
  os.mkdir E p w
  = (inl no, World (fs w) (stdout w) (journal w ++ [Sys (SysMkdir p) (Some no)])).
Proof. intros Href. unfold os.mkdir, os.perform. by rewrite Href. Qed.

(** [os.MkdirAll] on a missing path on which the system refuses the calls,
    below a directory that exists. *)
Lemma mkdirAll_refused x rparent w no1 no no2 :
  os.lookupNode (fs w) (rev rparent) = Some Dir →
  refuse E (length (journal w)) (SysStat (rev rparent ++ [x])) = Some no1 →
  refuse E (1 + length (journal w)) (SysStat (rev rparent)) = None →
  refuse E (2 + length (journal w)) (SysMkdir (rev rparent ++ [x])) = Some no →
  refuse E (3 + length (journal w)) (SysStat (rev rparent ++ [x])) = Some no2 →
  os.mkdirAll E (x :: rparent) w
  = (Some (rev rparent ++ [x], no),
     World (fs w) (stdout w)
       (journal w ++ [Sys (SysStat (rev rparent ++ [x])) (Some no1);
                      Sys (SysStat (rev rparent)) None;
                      Sys (SysMkdir (rev rparent ++ [x])) (Some no);
                      Sys (SysStat (rev rparent ++ [x])) (Some no2)])).
Proof.
  intros Hdir H1 H2 H3 H4. simpl. unfold bind, ret.
  rewrite (stat_refused _ _ no1) by done.
  rewrite mkdirAll_existing; simpl; [|by rewrite length_app, Nat.add_1_r|done].
  rewrite (mkdir_refused _ _ no)
    by (simpl; rewrite !length_app; simpl; by rewrite <- Nat.add_assoc, Nat.add_comm).
  rewrite (stat_refused _ _ no2)
    by (simpl; rewrite !length_app; simpl; by rewrite <- !Nat.add_assoc, Nat.add_comm).
  simpl. by rewrite <- !app_assoc.
Qed.

End refused_calls.

(** X25. When the system refuses the calls on the missing target (as for a
    directory without permissions above it) while the directory above exists,
    [os.MkdirAll] looks at the target, finds the directory above, tries the
    creation and looks again; resolution then fails with the error of the
    refused creation, and the file system is as before. *)
Theorem refused_creation_fails_resolution {G V} (E : environ G V) (w : world)
    (root : string) (parent : path) (name : string) (no1 no no2 : Errno) :
  targetDirCleaned E = Ok root →
  os.locate E root = parent ++ [name] →
  os.lookupNode (fs w) parent = Some Dir →
  refuse E (length (journal w)) (SysStat (parent ++ [name])) = Some no1 →
  refuse E (1 + length (journal w)) (SysStat parent) = None →
  refuse E (2 + length (journal w)) (SysMkdir (parent ++ [name])) = Some no →
  refuse E (3 + length (journal w)) (SysStat (parent ++ [name])) = Some no2 →
  resolveTargetDirForExport E w
  = (Err (PathError "mkdir" root no),
     World (fs w) (stdout w)
       (journal w ++ [Sys (SysStat (parent ++ [name])) (Some no1);
                      Sys (SysStat parent) None;
                      Sys (SysMkdir (parent ++ [name])) (Some no);
                      Sys (SysStat (parent ++ [name])) (Some no2)])).
Proof.
  intros Hroot Hloc Hdir H1 H2 H3 H4.
  unfold resolveTargetDirForExport. rewrite Hroot. unfold os.MkdirAll, bind, ret.
  rewrite Hloc, rev_unit.
  rewrite (mkdirAll_refused E name (rev parent) w no1 no no2); rewrite ?rev_involutive;
    [|done..].
  by rewrite decide_True.
Qed.

Lemma refused_creation_fails_resolution_witness :
  let E := lockedEnviron ["t"; "subdir"] "/t/subdir" in
  option_map Error
    (match (resolveTargetDirForExport E emptyDirWorld).1 with
     | Ok _ => None
     | Err err => Some err
     end)
  = Some "mkdir /t/subdir: permission denied" ∧
  fs (resolveTargetDirForExport E emptyDirWorld).2 = fs emptyDirWorld.
Proof.
  intros E.
  rewrite (refused_creation_fails_resolution E emptyDirWorld "/t/subdir" ["t"] "subdir"
             EACCES EACCES EACCES); try reflexivity.
  split; reflexivity.
Defined.

(** ** Cleaning twice *)

Lemma joinSep_nonempty e l : e ≠ "" → joinSep (e :: l) ≠ "".
Proof. intros He. destruct l; simpl; by destruct e. Qed.

Lemma Clean_nonempty p : Clean p ≠ "".
Proof.
  unfold Clean. case_decide; [done|]. destruct (IsAbs p); [done|].
  case_decide as Hout; [done|].
  pose proof (cleanElems_kept false [] (splitSep p) (Forall_nil_2 _)) as Hkept.
  apply Forall_rev in Hkept.
  destruct (rev (cleanElems false [] (splitSep p))) as [|e l]; [done|].
  apply Forall_cons in Hkept as [[He _] _]. by apply joinSep_nonempty.
Qed.

(** X26. [filepath.Clean] is idempotent on every path, absolute or
    relative, empty or not: cleaning what it returns changes nothing. *)
Theorem Clean_twice (p : string) : Clean (Clean p) = Clean p.
Proof.
  destruct (decide (p = "")) as [->|Hp]; [reflexivity|].
  destruct (IsAbs p) eqn:Habs; [by apply Clean_idempotent_abs|].
  pose proof (Clean_relative p Habs) as Hrel.
  pose proof (cleanElems_Clean false [] p Hp Habs) as Heq.
  pose proof (Clean_nonempty p) as Hne.
  unfold Clean at 1. rewrite decide_False by done. rewrite Hrel, Heq.
  unfold Clean. rewrite (decide_False (P := p = "")) by done. by rewrite Habs.
Qed.

(** ** The flag *)

Lemma targetDirExpanded_empty_flag {G V} (E : environ G V) :
  targetDirExpanded (withDirFlag (Some "") E) = targetDirExpanded (withDirFlag None E).
Proof. reflexivity. Qed.

(** X27. Giving the flag [--dir] with an empty value is the same as not
    giving it: the two runs are the same function of the world (the same
    result, files, texts and calls), both with the target [.mcpjungle]. *)
Theorem empty_dir_flag_as_default {G V} `{Named G, Marshaler G, Named V, Marshaler V}
    (E : environ G V) (w : world) :
  targetDirExpanded (withDirFlag None E) = Ok defaultExportTargetDir ∧
  resolveTargetDirForExport (withDirFlag (Some "") E) w
  = resolveTargetDirForExport (withDirFlag None E) w ∧
  runExport (withDirFlag (Some "") E) w = runExport (withDirFlag None E) w.
Proof.
  split; [reflexivity|].
  assert (targetDirCleaned (withDirFlag (Some "") E) = targetDirCleaned (withDirFlag None E))
    as Hsame by (unfold targetDirCleaned; by rewrite targetDirExpanded_empty_flag).
  assert (resolveTargetDirForExport (withDirFlag (Some "") E) w
          = resolveTargetDirForExport (withDirFlag None E) w) as Hres.
  { unfold resolveTargetDirForExport. rewrite Hsame. reflexivity. }
  split; [done|].
  unfold runExport, prepareSubdirectories, bind. rewrite Hres. reflexivity.
Qed.

